(** * Palette: color model, GPL and JSON codecs, grid layout and store

    A shallow embedding of [src/main.ts], the properties of it that the
    specification states, and further properties of the code: of the color
    and GPL codecs, of the sort, of the store across events, of the grid of
    [renderPng], of the number inputs and of [slugify].

    - A JavaScript string is the list of its UTF-16 code units.
    - A JavaScript number is an exact rational, NaN or an infinity.  Every
      double is such a value, and the operations the program applies to
      numbers that it then observes (comparison, [Math.min], [Math.max], the
      sign of a difference) are exact on doubles; integers stay far below
      2^53 wherever the program adds or multiplies them.
    - A regular expression of the source is the function that decides it and
      returns its groups; for the pattern of [parseGpl] the function is
      proved to agree with the pattern read as a relation.
    - A handler is a program of a state-and-exception monad over the page:
      the module variable [items], the inputs read by [addOrUpdate], the
      status line.  What a handler wrote before it throws stays written.
    - What comes from the engine ([JSON.parse], the text of a number that is
      not an integer, [Number] applied to a text, the messages of its errors,
      the randomness of [makeId]) is a parameter, [Engine]; every theorem
      holds for every engine.
    - The document (DOM), the canvas pixels, fonts and downloads are not
      modelled; [getContrastText] (floating point power) is not needed by any
      property below.  Of the page's inputs, what they keep of a value that a
      handler writes to them is modelled where a swatch is copied into
      them. *)

From Stdlib Require Import String Ascii.
From Stdlib Require Import List ZArith NArith QArith Qround Bool Lia Sorted Permutation.
Import ListNotations.
Local Open Scope Z_scope.
Set Warnings "-register-all".

(** ** Strings: sequences of UTF-16 code units *)

Abbreviation cu := N (only parsing).
Definition str := list cu.

(** An ASCII literal as a JavaScript string. *)
Definition lit (s : string) : str := map N_of_ascii (list_ascii_of_string s).
Arguments lit s%_string.

Definition TAB : cu := 9%N.
Definition LF : cu := 10%N.
Definition CR : cu := 13%N.
Definition SP : cu := 32%N.

(** ECMAScript LineTerminator: what the regular expression [.] refuses. *)
Definition isLineTerminator (c : cu) : bool :=
  ((c =? 10) || (c =? 13) || (c =? 0x2028) || (c =? 0x2029))%N.

(** ECMAScript WhiteSpace and LineTerminator: the set shared by
    [String.prototype.trim], the leading blanks of [parseInt] and the regular
    expression class [\s]. *)
Definition isWhiteSpace (c : cu) : bool :=
  ((c =? 9) || (c =? 10) || (c =? 11) || (c =? 12) || (c =? 13) || (c =? 32)
   || (c =? 160) || (c =? 0x1680) || ((0x2000 <=? c) && (c <=? 0x200A))
   || (c =? 0x2028) || (c =? 0x2029) || (c =? 0x202F) || (c =? 0x205F)
   || (c =? 0x3000) || (c =? 0xFEFF))%N.

(** [\d] *)
Definition isDigit (c : cu) : bool := ((48 <=? c) && (c <=? 57))%N.

(** [[0-9a-fA-F]] *)
Definition isHexDigit (c : cu) : bool :=
  (isDigit c || ((97 <=? c) && (c <=? 102)) || ((65 <=? c) && (c <=? 70)))%N.

Fixpoint takeWhile {A} (p : A -> bool) (l : list A) : list A :=
  match l with
  | [] => []
  | x :: l' => if p x then x :: takeWhile p l' else []
  end.

Fixpoint dropWhile {A} (p : A -> bool) (l : list A) : list A :=
  match l with
  | [] => []
  | x :: l' => if p x then dropWhile p l' else l
  end.

Definition trimStart (s : str) : str := dropWhile isWhiteSpace s.

Fixpoint trimEnd (s : str) : str :=
  match s with
  | [] => []
  | c :: s' =>
      match trimEnd s' with
      | [] => if isWhiteSpace c then [] else [c]
      | t => c :: t
      end
  end.

(** [s.trim()] *)
Definition trim (s : str) : str := trimEnd (trimStart s).

(** [s.toUpperCase()] on the ASCII letters.  The source applies it only to
    strings made of [#] and hexadecimal digits (after the pattern test in
    [normalizeHex], and to the digits printed in [parseGpl]). *)
Definition upperCu (c : cu) : cu :=
  (if (97 <=? c) && (c <=? 122) then c - 32 else c)%N.
Definition toUpperCase (s : str) : str := map upperCu s.

(** [s.toLowerCase()] on the ASCII letters; used for the file name only, where
    the sole question asked of the result is whether it ends with [.gpl]. *)
Definition lowerCu (c : cu) : cu :=
  (if (65 <=? c) && (c <=? 90) then c + 32 else c)%N.
Definition toLowerCase (s : str) : str := map lowerCu s.

Fixpoint str_eqb (a b : str) : bool :=
  match a, b with
  | [], [] => true
  | c :: a', d :: b' => (c =? d)%N && str_eqb a' b'
  | _, _ => false
  end.

Fixpoint startsWith (s p : str) : bool :=
  match p, s with
  | [], _ => true
  | c :: p', d :: s' => (c =? d)%N && startsWith s' p'
  | _ :: _, [] => false
  end.

Definition endsWith (s p : str) : bool := startsWith (rev s) (rev p).

(** [s.slice(a, b)] and [s.slice(a)] for [0 <= a <= b]. *)
Definition slice (a b : nat) (s : str) : str := firstn (b - a) (skipn a s).
Definition sliceFrom (a : nat) (s : str) : str := skipn a s.

(** [s.padStart(n, c)] *)
Definition padStart (n : nat) (c : cu) (s : str) : str :=
  repeat c (n - length s) ++ s.

(** [a || b] on strings: the empty string is the only falsy one. *)
Definition strOr (a b : str) : str :=
  match a with [] => b | _ => a end.

(** ** Numbers *)

(** A JavaScript number: a finite value (every double is a rational; the two
    zeros are identified, nothing in the program tells them apart), an infinity
    or NaN. *)
Inductive number : Type :=
| NaN
| Inf (negative : bool)
| Fin (q : Q).

Definition num (z : Z) : number := Fin (inject_Z z).

(** ToBoolean *)
Definition numTruthy (n : number) : bool :=
  match n with
  | NaN => false
  | Inf _ => true
  | Fin q => negb (Qeq_bool q 0)
  end.

(** [a || b] on numbers *)
Definition numOr (a b : number) : number := if numTruthy a then a else b.

(** [a <= b] for numbers; false as soon as one of them is NaN. *)
Definition numLe (a b : number) : bool :=
  match a, b with
  | NaN, _ | _, NaN => false
  | Inf true, _ => true
  | _, Inf false => true
  | Inf false, _ => false
  | _, Inf true => false
  | Fin x, Fin y => Qle_bool x y
  end.

Definition isNaN (n : number) : bool :=
  match n with NaN => true | _ => false end.

(** [Math.min(a, b)] and [Math.max(a, b)]; on a tie the second argument is
    returned (the two are the same number). *)
Definition Math_min (a b : number) : number :=
  if isNaN a || isNaN b then NaN else if numLe b a then b else a.
Definition Math_max (a b : number) : number :=
  if isNaN a || isNaN b then NaN else if numLe a b then b else a.

(** [a - b] *)
Definition numSub (a b : number) : number :=
  match a, b with
  | NaN, _ | _, NaN => NaN
  | Fin x, Fin y => Fin (x - y)
  | Inf s, Fin _ => Inf s
  | Fin _, Inf s => Inf (negb s)
  | Inf s, Inf t => if Bool.eqb s t then NaN else Inf s
  end.

(** [n < 0] *)
Definition numNeg (n : number) : bool :=
  match n with
  | NaN => false
  | Inf s => s
  | Fin q => negb (Qle_bool 0 q)
  end.

(** [a === b] on numbers *)
Definition numEq (a b : number) : bool :=
  match a, b with
  | Fin x, Fin y => Qeq_bool x y
  | Inf s, Inf t => Bool.eqb s t
  | _, _ => false
  end.

(** Source, lines 25-27:
    [function clamp(n, a, b) { return Math.max(a, Math.min(b, n)) }] *)
Definition clamp (n a b : number) : number := Math_max a (Math_min b n).

(** *** Digits *)

Definition digitVal (c : cu) : option Z :=
  if isDigit c then Some (Z.of_N c - 48)
  else if ((97 <=? c) && (c <=? 122))%N then Some (Z.of_N c - 87)
  else if ((65 <=? c) && (c <=? 90))%N then Some (Z.of_N c - 55)
  else None.

Definition radixDigit (radix : Z) (c : cu) : option Z :=
  match digitVal c with
  | Some d => if d <? radix then Some d else None
  | None => None
  end.

Fixpoint parseDigits (radix acc : Z) (s : str) : Z :=
  match s with
  | [] => acc
  | c :: s' =>
      match radixDigit radix c with
      | Some d => parseDigits radix (acc * radix + d) s'
      | None => acc
      end
  end.

(** [parseInt(s, radix)] for radix 10 and 16: leading white space, an optional
    sign, for radix 16 an optional [0x], then the longest run of digits; NaN
    when that run is empty.  The value is the exact integer: the source either
    clamps the result to a range far below 2^53 or reads at most two digits, so
    the rounding of a longer run to a double is never observed. *)
Definition parseInt (s : str) (radix : Z) : number :=
  let s1 := trimStart s in
  let '(sign, s2) :=
    match s1 with
    | c :: r =>
        if (c =? 45)%N then (-1, r) else if (c =? 43)%N then (1, r) else (1, s1)
    | [] => (1, s1)
    end in
  let s3 :=
    if (radix =? 16) && (startsWith s2 (lit "0x") || startsWith s2 (lit "0X"))
    then skipn 2 s2 else s2 in
  match s3 with
  | [] => NaN
  | c :: _ =>
      match radixDigit radix c with
      | Some _ => num (sign * parseDigits radix 0 s3)
      | None => NaN
      end
  end.

Definition digitChar (d : Z) : cu :=
  Z.to_N (if d <? 10 then 48 + d else 87 + d).

Fixpoint natDigits (fuel : nat) (radix n : Z) : str :=
  match fuel with
  | O => []
  | S f =>
      if n <? radix then [digitChar n]
      else natDigits f radix (n / radix) ++ [digitChar (n mod radix)]
  end.

(** The digits of an integer in radix 10 or 16, as [Number.prototype.toString]
    prints one. *)
Definition intToString (radix z : Z) : str :=
  let fuel := S (Z.to_nat (Z.log2 (Z.abs z))) in
  if z <? 0 then 45%N :: natDigits fuel radix (- z) else natDigits fuel radix z.

Definition isInteger (q : Q) : bool := (Qnum q mod Zpos (Qden q) =? 0).
Definition integerPart (q : Q) : Z := Qnum q / Zpos (Qden q).

(** ** The engine

    What the program takes from the JavaScript engine and the browser and this
    development does not define: the text of a number that is not an integer
    below 10^21, the number read from a string by [Number], the JSON parser,
    the messages of the engine's own errors, and the identifiers drawn by
    [makeId] from [Math.random] and [Date.now]. *)
Inductive json : Type :=
| JNull
| JBool (b : bool)
| JNum (n : number)
| JStr (s : str)
| JArr (elements : list json)
| JObj (members : list (str * json)).

Record Engine : Type := {
  NumberToString : Z -> number -> str;
  StringToNumber : str -> number;
  JSON_parse : str -> str + json;
  typeErrorMessage : str;
  idSource : nat -> str
}.

(** ** ColorModel *)

(** [/^#[0-9a-fA-F]{6}$/.test(h)] *)
Definition testHexColor (h : str) : bool :=
  match h with
  | c :: ds => (c =? 35)%N && (length ds =? 6)%nat && forallb isHexDigit ds
  | [] => false
  end.

(** Source, lines 29-33. *)
Definition normalizeHex (hex : str) : str :=
  let h := trim hex in
  if testHexColor h then toUpperCase h else lit "#000000".

(** Source, lines 35-41; the three channels are numbers. *)
Definition hexToRgb (hex : str) : number * number * number :=
  let h := sliceFrom 1 (normalizeHex hex) in
  let r := parseInt (slice 0 2 h) 16 in
  let g := parseInt (slice 2 4 h) 16 in
  let b := parseInt (slice 4 6 h) 16 in
  (r, g, b).

(** ** Palette items *)

Record PaletteItem : Type := {
  id : str;
  name : str;
  index : number;
  hex : str
}.

(** An element of [PaletteFileV1.items] and of the result of [parseGpl]:
    an item without its [id]. *)
Record FileItem : Type := {
  fname : str;
  findex : number;
  fhex : str
}.

Definition triple (it : PaletteItem) : FileItem :=
  {| fname := name it; findex := index it; fhex := hex it |}.

(** [l.slice().sort(cmp)]: the sort is stable, and [x] goes before [y] exactly
    when [cmp(x, y) < 0] (a NaN result counts as 0).  This is the order of
    every engine when the comparator is consistent, as [byIndex] is on items
    none of whose indices is NaN.  On a list that holds a NaN index the order
    of [Array.prototype.sort] is left to the engine; every theorem below that
    states an order is stated for indices that are not NaN. *)
Fixpoint insertBy {A} (cmp : A -> A -> number) (x : A) (l : list A) : list A :=
  match l with
  | [] => [x]
  | y :: l' => if numNeg (cmp y x) then y :: insertBy cmp x l' else x :: l
  end.

Definition sortBy {A} (cmp : A -> A -> number) (l : list A) : list A :=
  fold_right (insertBy cmp) [] l.

(** [(a, b) => a.index - b.index] *)
Definition byIndex (a b : PaletteItem) : number := numSub (index a) (index b).

(** [lines.join(sep)] *)
Fixpoint join (sep : str) (l : list str) : str :=
  match l with
  | [] => []
  | x :: l' => match l' with [] => x | _ => x ++ sep ++ join sep l' end
  end.

(** [s.replace(/\s+/g, ' ')]; [inRun] says that the previous code unit was
    white space, already replaced. *)
Fixpoint collapseFrom (inRun : bool) (s : str) : str :=
  match s with
  | [] => []
  | c :: s' =>
      if isWhiteSpace c
      then (if inRun then collapseFrom true s' else SP :: collapseFrom true s')
      else c :: collapseFrom false s'
  end.
Definition collapseWs (s : str) : str := collapseFrom false s.

(** [text.replace(/\r\n/g, '\n')] *)
Fixpoint replaceCRLF (s : str) : str :=
  match s with
  | [] => []
  | c :: s' =>
      match s' with
      | d :: s'' =>
          if ((c =? CR) && (d =? LF))%N then LF :: replaceCRLF s''
          else c :: replaceCRLF s'
      | [] => [c]
      end
  end.

(** [s.split('\n')] *)
Fixpoint splitLF (s : str) : list str :=
  match s with
  | [] => [[]]
  | c :: s' =>
      if (c =? LF)%N then [] :: splitLF s'
      else match splitLF s' with
           | l :: ls => (c :: l) :: ls
           | [] => [[c]]
           end
  end.

Definition isEmpty (s : str) : bool := match s with [] => true | _ => false end.

(** The regular expression matched against a line: three groups [\d+]
    separated by [\s+], then [\s] any number of times, then a fourth group
    made of any code units but line terminators, up to the end.  Every
    quantifier is greedy and each run is followed by a code unit outside its
    class (or by the end), so backtracking cannot find a second way to split
    the line: a run is the longest one, and the match fails exactly when a run
    that must not be empty is, or when the rest holds a line terminator, which
    [.] refuses. *)
Definition matchGplLine (line : str) : option (str * str * str * str) :=
  let m1 := takeWhile isDigit line in
  let r1 := dropWhile isDigit line in
  let w1 := takeWhile isWhiteSpace r1 in
  let r2 := dropWhile isWhiteSpace r1 in
  let m2 := takeWhile isDigit r2 in
  let r3 := dropWhile isDigit r2 in
  let w2 := takeWhile isWhiteSpace r3 in
  let r4 := dropWhile isWhiteSpace r3 in
  let m3 := takeWhile isDigit r4 in
  let r5 := dropWhile isDigit r4 in
  let m4 := dropWhile isWhiteSpace r5 in
  if negb (isEmpty m1) && negb (isEmpty w1) && negb (isEmpty m2)
     && negb (isEmpty w2) && negb (isEmpty m3)
     && forallb (fun c => negb (isLineTerminator c)) m4
  then Some (m1, m2, m3, m4) else None.

(** ** The layout of [renderPng] (source, lines 118-134)

    The geometry is computed on integers: the caller passes clamped integers,
    and on them the double arithmetic of the source is exact. *)

(** [Math.ceil(a / b)] and [Math.floor(a / b)] *)
Definition ceilDiv (a b : Z) : Z := Qceiling (inject_Z a / inject_Z b).
Definition floorDiv (a b : Z) : Z := Qfloor (inject_Z a / inject_Z b).

Record Cell : Type := {
  cellX : Z;
  cellY : Z;
  cellW : Z;
  cellH : Z;
  cellFill : str;
  cellText : str
}.

Record Canvas : Type := {
  cols : Z;
  rows : Z;
  canvasWidth : Z;
  canvasHeight : Z;
  cells : list Cell
}.

(** The body of the drawing loop for the item at position [i]. *)
Definition drawCell (cols swW swH gapH gapV : Z) (i : nat) (it : PaletteItem) : Cell :=
  let x := Z.rem (Z.of_nat i) cols * (swW + gapH) in
  let y := floorDiv (Z.of_nat i) cols * (swH + gapV) in
  {| cellX := x; cellY := y; cellW := swW; cellH := swH;
     cellFill := hex it; cellText := name it |}.

Fixpoint drawFrom (cols swW swH gapH gapV : Z) (i : nat) (items : list PaletteItem)
  : list Cell :=
  match items with
  | [] => []
  | it :: rest =>
      drawCell cols swW swH gapH gapV i it
      :: drawFrom cols swW swH gapH gapV (S i) rest
  end.

Definition renderPng (items : list PaletteItem) (rowLen swW swH gapH gapV : Z) : Canvas :=
  let cols := Z.max 1 rowLen in
  let rows := Z.max 1 (ceilDiv (Z.of_nat (length items)) cols) in
  {| cols := cols;
     rows := rows;
     canvasWidth := cols * swW + Z.max 0 (cols - 1) * gapH;
     canvasHeight := rows * swH + Z.max 0 (rows - 1) * gapV;
     cells := drawFrom cols swW swH gapH gapV 0 items |}.

(** ** Errors, the page state and the monad of the handlers *)

Inductive exn : Type :=
| SyntaxError (message : str)
| TypeError (message : str)
| Error (message : str).

Definition exnMessage (e : exn) : str :=
  match e with
  | SyntaxError m | TypeError m | Error m => m
  end.

(** The error thrown at line 490. *)
Definition FormatError : exn := Error (lit "Unknown JSON format").

(** The page: the module variable [items], the values of the three inputs
    that [addOrUpdate] reads, the status line, and how many identifiers
    [makeId] has drawn so far.  Inside [items] every element is an object of
    its own (each is built by an object literal at the moment it enters the
    array), so updating an element in place is replacing it in the list. *)
Record World : Type := {
  items : list PaletteItem;
  inName : str;
  inIndex : str;
  inColor : str;
  statusMsg : str;
  idCalls : nat
}.

(** The file chosen by the user: its name and its text. *)
Record File : Type := {
  fileName : str;
  fileText : str
}.

(** A handler transforms the page and either returns or throws; what it wrote
    before throwing stays written. *)
Definition M (A : Type) : Type := World -> (exn + A) * World.

Definition ret {A} (a : A) : M A := fun w => (inr a, w).
Definition bind {A B} (m : M A) (k : A -> M B) : M B :=
  fun w => match m w with
           | (inr a, w') => k a w'
           | (inl e, w') => (inl e, w')
           end.
Definition throw {A} (e : exn) : M A := fun w => (inl e, w).
Definition tryCatch {A} (m : M A) (h : exn -> M A) : M A :=
  fun w => match m w with
           | (inr a, w') => (inr a, w')
           | (inl e, w') => h e w'
           end.
Definition liftE {A} (r : exn + A) : M A := fun w => (r, w).
Definition getWorld : M World := fun w => (inr w, w).

Declare Scope m_scope.
Delimit Scope m_scope with M.
Bind Scope m_scope with M.
Notation "x <- m ;; k" := (bind m (fun x => k))
  (at level 61, m at next level, right associativity) : m_scope.
Notation "m ;;; k" := (bind m (fun _ => k))
  (at level 61, right associativity) : m_scope.

Definition setItems (l : list PaletteItem) : M unit :=
  fun w => (inr tt, {| items := l; inName := inName w; inIndex := inIndex w;
                       inColor := inColor w; statusMsg := statusMsg w;
                       idCalls := idCalls w |}).

(** Source, lines 309-311. *)
Definition setStatus (s : str) : M unit :=
  fun w => (inr tt, {| items := items w; inName := inName w; inIndex := inIndex w;
                       inColor := inColor w; statusMsg := s;
                       idCalls := idCalls w |}).

Definition setInIndex (s : str) : M unit :=
  fun w => (inr tt, {| items := items w; inName := inName w; inIndex := s;
                       inColor := inColor w; statusMsg := statusMsg w;
                       idCalls := idCalls w |}).

(** [render()] rebuilds the palette element from [items]: it reads the page
    and writes only to the document, which is not part of [World]. *)
Definition render : M unit := ret tt.

Fixpoint mapM {A B} (f : A -> M B) (l : list A) : M (list B) :=
  match l with
  | [] => ret []
  | x :: l' => (y <- f x ;; ys <- mapM f l' ;; ret (y :: ys))%M
  end.

(** [x.k] for [k] one of [kind], [items], [name], [index], [hex], on a value
    that is not [null]: the member of that name of an object (the last one if
    the text repeated the name), and [undefined], here [None], on anything
    else; no prototype has a property of one of these names. *)
Fixpoint lookupLast (k : str) (members : list (str * json)) : option json :=
  match members with
  | [] => None
  | (k', v) :: rest =>
      match lookupLast k rest with
      | Some v' => Some v'
      | None => if str_eqb k' k then Some v else None
      end
  end.

Definition field (x : json) (k : str) : option json :=
  match x with
  | JObj members => lookupLast k members
  | _ => None
  end.

(** ToBoolean *)
Definition jsonTruthy (v : json) : bool :=
  match v with
  | JNull => false
  | JBool b => b
  | JNum n => numTruthy n
  | JStr s => negb (isEmpty s)
  | JArr _ | JObj _ => true
  end.

(** [v || d], where [v] may be [undefined]. *)
Definition orElse (v : option json) (d : json) : json :=
  match v with
  | Some j => if jsonTruthy j then j else d
  | None => d
  end.

Definition hasOwn (k : str) (members : list (str * json)) : bool :=
  existsb (fun kv => str_eqb (fst kv) k) members.

(** [Array.prototype.join] with a comma, given the text of an element; the
    first element that cannot be converted throws. *)
Definition joinElements (f : json -> exn + str) : list json -> exn + str :=
  fix go (l : list json) : exn + str :=
    match l with
    | [] => inr []
    | e :: l' =>
        match f e with
        | inl err => inl err
        | inr s =>
            match l' with
            | [] => inr s
            | _ => match go l' with
                   | inl err => inl err
                   | inr t => inr (s ++ lit "," ++ t)
                   end
            end
        end
    end.

(** ** Notions used in the statements *)

(** Ascending by index. *)
Definition ascending (l : list PaletteItem) : Prop :=
  Sorted (fun a b => numLe (index a) (index b) = true) l.

(** A string is blank-free when none of its code units is white space. *)
Definition noWs (s : str) : bool := forallb (fun c => negb (isWhiteSpace c)) s.

(** A canonical color: what [normalizeHex] returns on a match. *)
Definition canonicalHex (h : str) : Prop :=
  testHexColor h = true /\ toUpperCase h = h.

(** The document is an object whose [kind] is the text [palette.v1] and
    whose [items] is an array. *)
Definition validShape (data : json) : Prop :=
  exists members l,
    data = JObj members
    /\ lookupLast (lit "kind") members = Some (JStr (lit "palette.v1"))
    /\ lookupLast (lit "items") members = Some (JArr l).

Definition isSome {A} (o : option A) : bool :=
  match o with Some _ => true | None => false end.

(** Some code unit of [s] is not white space. *)
Definition hasNonWs (s : str) : bool :=
  existsb (fun c => negb (isWhiteSpace c)) s.

(** Every white space of [s] is a space that follows a code unit which is not
    white space ([afterBlank] tells that the code unit before [s] was one). *)
Fixpoint spaced (afterBlank : bool) (s : str) : bool :=
  match s with
  | [] => true
  | c :: s' =>
      if isWhiteSpace c
      then negb afterBlank && (c =? SP)%N && spaced true s'
      else spaced false s'
  end.

(** [spaced], and the last code unit is not white space. *)
Fixpoint cleanFrom (afterBlank : bool) (s : str) : bool :=
  match s with
  | [] => negb afterBlank
  | c :: s' =>
      if isWhiteSpace c
      then negb afterBlank && (c =? SP)%N && cleanFrom true s'
      else cleanFrom false s'
  end.

(** A name as [toGpl] writes one, when it is not empty: words separated by
    single spaces. *)
Definition clean (s : str) : bool := cleanFrom true s.

(** The color and the line that the codec writes for three channels. *)
Definition hex2 (z : Z) : str := padStart 2 48%N (intToString 16 z).
Definition hexOf (r g b : Z) : str :=
  toUpperCase (lit "#" ++ hex2 r ++ hex2 g ++ hex2 b).
Definition dec3 (z : Z) : str := padStart 3 SP (intToString 10 z).

Definition entry : Type := (Z * Z * Z * str)%type.
Definition entryLine (e : entry) : str :=
  let '(r, g, b, c) := e in
  dec3 r ++ lit " " ++ dec3 g ++ lit " " ++ dec3 b ++ [TAB] ++ c.

Definition gplHeader : list str :=
  [lit "GIMP Palette"; lit "Name: Palette"; lit "#"].
Definition gplDoc (es : list entry) : str :=
  join [LF] (gplHeader ++ map entryLine es) ++ [LF].

Definition channel (z : Z) : Prop := 0 <= z <= 255.
Definition goodEntry (e : entry) : Prop :=
  let '(r, g, b, c) := e in
  channel r /\ channel g /\ channel b /\ clean c = true.

(** The items that [parseGpl] builds from entries, the counter starting at
    [idx]. *)
Fixpoint numbered (idx : Z) (es : list entry) : list FileItem :=
  match es with
  | [] => []
  | (r, g, b, c) :: es' =>
      {| fname := c; findex := num idx; fhex := hexOf r g b |}
      :: numbered (idx + 1) es'
  end.

(** Identity of two numbers as data. *)
Definition numSame (a b : number) : bool :=
  match a, b with
  | NaN, NaN => true
  | Inf s, Inf t => Bool.eqb s t
  | Fin x, Fin y => (Qnum x =? Qnum y) && (Qden x =? Qden y)%positive
  | _, _ => false
  end.

(** What the codec needs of one channel value, as a test that can be run. *)
Definition channelOk (z : Z) : bool :=
  let h := toUpperCase (hex2 z) in
  let d := intToString 10 z in
  (length h =? 2)%nat && forallb isHexDigit h && str_eqb (toUpperCase h) h
  && numSame (parseInt h 16) (num z)
  && negb (isEmpty d) && forallb isDigit d && (length d <=? 3)%nat
  && numSame (clamp (numOr (parseInt d 10) (num 0)) (num 0) (num 255)) (num z).

(** [trimEnd] keeps all of [s], which is not empty. *)
Definition kept (s : str) : Prop := trimEnd s = s /\ s <> [].

(** A line holds no line break. *)
Definition noBreak (l : str) : bool :=
  forallb (fun c => negb (c =? LF)%N && negb (c =? CR)%N) l.

(** The store items [L] are written by [toGpl] as the entries [es]: indices
    count up from [idx], colors are those of the channels, and the names are
    the written form of the items' names. *)
Fixpoint written (idx : Z) (L : list PaletteItem) (es : list entry) : Prop :=
  match L, es with
  | [], [] => True
  | it :: L', (r, g, b, c) :: es' =>
      index it = num idx /\ hex it = hexOf r g b
      /\ trim (collapseWs (name it)) = c /\ written (idx + 1) L' es'
  | _, _ => False
  end.

Definition writtenName (e : entry) : entry :=
  let '(r, g, b, n) := e in (r, g, b, trim (collapseWs n)).

(** An entry as [parseGpl] reads one: channels in range and a name that is
    not blank. *)
Definition readEntry (e : entry) : Prop :=
  let '(r, g, b, n) := e in
  channel r /\ channel g /\ channel b /\ hasNonWs n = true.

(** The store item that the load handler makes of a parsed item. *)
Definition loadedFrom (p : FileItem) (it : PaletteItem) : Prop :=
  name it = fname p /\ index it = findex p /\ hex it = normalizeHex (fhex p).

(** The language of the pattern of [parseGpl], as a relation: the line splits
    into three runs of digits separated by white space, optional white space,
    and a rest without line terminator. *)
Definition gplLineMatch (line m1 m2 m3 m4 : str) : Prop :=
  exists w1 w2 w3,
    line = m1 ++ w1 ++ m2 ++ w2 ++ m3 ++ w3 ++ m4
    /\ (m1 <> [] /\ forallb isDigit m1 = true)
    /\ (w1 <> [] /\ forallb isWhiteSpace w1 = true)
    /\ (m2 <> [] /\ forallb isDigit m2 = true)
    /\ (w2 <> [] /\ forallb isWhiteSpace w2 = true)
    /\ (m3 <> [] /\ forallb isDigit m3 = true)
    /\ forallb isWhiteSpace w3 = true
    /\ forallb (fun c => negb (isLineTerminator c)) m4 = true.

(** ** Data for the examples *)

(** An engine to run examples on: identifiers are [id0], [id1], ...; the JSON
    parser knows the one document [{"kind":"not.palette","items":[]}] and
    refuses any other text; the conversions it is asked for are those of a
    text that is not a number. *)
Definition quoted (s : string) : str := 34%N :: lit s ++ [34%N].

Definition notPaletteText : str :=
  lit "{" ++ quoted "kind" ++ lit ":" ++ quoted "not.palette" ++ lit ","
  ++ quoted "items" ++ lit ":[]}".

Definition notPaletteDoc : json :=
  JObj [(lit "kind", JStr (lit "not.palette")); (lit "items", JArr [])].

Definition exampleEngine : Engine :=
  {| NumberToString := fun _ _ => lit "0.5";
     StringToNumber := fun _ => NaN;
     JSON_parse := fun t => if str_eqb t notPaletteText then inr notPaletteDoc
                            else inl (lit "Unexpected token");
     typeErrorMessage := lit "Cannot read properties of null";
     idSource := fun n => lit "id" ++ intToString 10 (Z.of_nat n) |}.

Definition sevenReds : list PaletteItem :=
  repeat {| id := []; name := lit "c"; index := num 0; hex := lit "#FF0000" |} 7.

Definition red : PaletteItem :=
  {| id := lit "a"; name := lit "Red"; index := num 3; hex := lit "#FF0000" |}.
Definition darkRed : PaletteItem :=
  {| id := lit "b"; name := lit "Dark red"; index := num 3; hex := lit "#800000" |}.
Definition green : PaletteItem :=
  {| id := lit "c"; name := lit "Green"; index := num 5; hex := lit "#00FF00" |}.

Definition page (l : list PaletteItem) (nm ix color : str) : World :=
  {| items := l; inName := nm; inIndex := ix; inColor := color;
     statusMsg := lit "Ready."; idCalls := 0 |}.

Definition twoItems : World :=
  page [green; red] (lit " Crimson ") (lit "3") (lit "#dc143c").
Definition threeItems : World :=
  page [green; red; darkRed] (lit "Crimson") (lit "3") (lit "#dc143c").
Definition crimson : PaletteItem :=
  {| id := lit "a"; name := lit "Crimson"; index := num 3; hex := lit "#DC143C" |}.

Definition emptyPage : World := page [] [] [] [].

(** An element of [items] with a name and an index that are not of the type
    the file format gives them. *)
Definition booleanElement : json :=
  JObj [(lit "name", JBool true); (lit "index", JBool true)].

Definition redElement : json :=
  JObj [(lit "name", JStr (lit "Red")); (lit "hex", JStr (lit "#ff0000"))].

Definition notPaletteFile : File :=
  {| fileName := lit "Palette.JSON"; fileText := notPaletteText |}.

(** A file of two GPL entries with a line between them that is no entry. *)
Definition threeLines : str :=
  lit "255   0   0" ++ [TAB] ++ lit "Red" ++ [LF]
  ++ lit "not a color" ++ [LF]
  ++ lit "0 0 255 Blue".

(** What [toGpl] writes after [threeLines] was loaded. *)
Definition threeLinesWritten : str :=
  lit "GIMP Palette" ++ [LF] ++ lit "Name: Palette" ++ [LF] ++ lit "#" ++ [LF]
  ++ lit "255   0   0" ++ [TAB] ++ lit "Red" ++ [LF]
  ++ lit "  0   0 255" ++ [TAB] ++ lit "Blue" ++ [LF].

(** The number written by a run of decimal digits. *)
Definition decimal (d : str) : Z := parseDigits 10 0 d.

(** A line with a carriage return left at its end, or without. *)
Definition sameButCR (a b : str) : Prop := b = a \/ b = a ++ [CR].

(** A run of decimal digits that is not empty. *)
Definition digitRun (d : str) : Prop := d <> [] /\ forallb isDigit d = true.

(** A file with the extension of GIMP palettes, and two lines with channels
    beyond 255. *)
Definition bigChannels : File :=
  {| fileName := lit "Sky.GPL";
     fileText := lit "300 12 0999 Sky blue" ++ [CR; LF] ++ lit "7 7 7" ++ [CR; LF] |}.

(** The items that [parseGpl] returns for the lines that [toGpl] writes for
    the store items [l], the counter starting at [idx]: the name with its
    white space normalised, or [Color idx] when that leaves nothing. *)
Fixpoint reread (idx : Z) (l : list PaletteItem) : list FileItem :=
  match l with
  | [] => []
  | it :: l' =>
      {| fname := strOr (trim (collapseWs (name it)))
                        (lit "Color " ++ intToString 10 idx);
         findex := num idx;
         fhex := normalizeHex (hex it) |}
      :: reread (idx + 1) l'
  end.

(** A store in no particular order, with a blank name and colors in the
    forms that [normalizeHex] accepts and refuses. *)
Definition mixedStore : list PaletteItem :=
  [ {| id := lit "a"; name := lit "  Deep   sea "; index := num 7; hex := lit "#0a3b5c" |};
    {| id := lit "b"; name := lit "   "; index := num 2; hex := lit "blue" |};
    {| id := lit "c"; name := lit "Sand"; index := num 4; hex := lit " #E0C080 " |} ].

(** What every store that the page can reach satisfies: colors of the form
    [#RRGGBB] in capital letters, and indices that are numbers from 0 up. *)
Definition storeOk (l : list PaletteItem) : Prop :=
  Forall (fun it => canonicalHex (hex it) /\ numLe (num 0) (index it) = true) l.

(** A cell with every length multiplied by [s]. *)
Definition scaleCell (s : Z) (c : Cell) : Cell :=
  {| cellX := cellX c * s; cellY := cellY c * s;
     cellW := cellW c * s; cellH := cellH c * s;
     cellFill := cellFill c; cellText := cellText c |}.

(** A cell lies on a canvas of the given size. *)
Definition cellInside (width height : Z) (c : Cell) : Prop :=
  0 <= cellX c /\ cellX c + cellW c <= width
  /\ 0 <= cellY c /\ cellY c + cellH c <= height.

(** Two cells have no pixel in common. *)
Definition cellsApart (a b : Cell) : Prop :=
  cellX a + cellW a <= cellX b \/ cellX b + cellW b <= cellX a
  \/ cellY a + cellH a <= cellY b \/ cellY b + cellH b <= cellY a.

(** [clamp(parseInt(v || dflt, 10) || d, lo, hi)]: the way [applyGridVars]
    (source, lines 314-318), [render] (line 351), [addOrUpdate] (line 380)
    and the PNG handler (lines 498-505) read a number input. *)
Definition readInput (v dflt : str) (d lo hi : Z) : number :=
  clamp (numOr (parseInt (strOr v dflt) 10) (num d)) (num lo) (num hi).

(** A member value that [String] and [Number] convert without calling into
    the value: absent, [null], a boolean, a number or a text. *)
Definition primitive (v : option json) : Prop :=
  match v with
  | None | Some JNull | Some (JBool _) | Some (JNum _) | Some (JStr _) => True
  | Some (JArr _) | Some (JObj _) => False
  end.

(** An element of [items] that is not [null] and whose name, index and color
    are primitive. *)
Definition plainElement (x : json) : Prop :=
  x <> JNull
  /\ primitive (field x (lit "name"))
  /\ primitive (field x (lit "index"))
  /\ primitive (field x (lit "hex")).

(** A document of three elements: a color as the save handler writes one, an
    object with a boolean index and nothing else, and a number. *)
Definition looseDoc : json :=
  JObj [(lit "kind", JStr (lit "palette.v1"));
        (lit "items",
         JArr [JObj [(lit "name", JStr (lit "Red")); (lit "index", JNum (num 3));
                     (lit "hex", JStr (lit "#ff0000"))];
               JObj [(lit "index", JBool true)];
               JNum (num 7)])].

(** ** The class name of a swatch (source, lines 17-23)

    [slugify] lowers the case of a name that may hold any letter, so
    [String.prototype.toLowerCase] is a parameter of the function here. *)

Definition DASH : cu := 45%N.
Definition isDash (c : cu) : bool := (c =? DASH)%N.

(** [[a-z0-9]] *)
Definition isSlugChar (c : cu) : bool :=
  (((97 <=? c) && (c <=? 122)) || isDigit c)%N.

(** [s.replace(/[^a-z0-9]+/g, '-')]; [inRun] says that the previous code unit
    was outside the class, already replaced. *)
Fixpoint dashFrom (inRun : bool) (s : str) : str :=
  match s with
  | [] => []
  | c :: s' =>
      if isSlugChar c then c :: dashFrom false s'
      else if inRun then dashFrom true s'
      else DASH :: dashFrom true s'
  end.

Definition dashRuns (s : str) : str := dashFrom false s.

(** The dashes at the end of [s] removed. *)
Fixpoint dropDashEnd (s : str) : str :=
  match s with
  | [] => []
  | c :: s' =>
      match dropDashEnd s' with
      | [] => if isDash c then [] else [c]
      | t => c :: t
      end
  end.

(** [s.replace(/^-+|-+$/g, '')] *)
Definition stripDashes (s : str) : str := dropDashEnd (dropWhile isDash s).

Definition slugify (lower : str -> str) (s : str) : str :=
  stripDashes (dashRuns (lower (trim s))).

(** Code units of the class and dashes, no dash after a dash ([afterDash]
    tells that the code unit before [s] was one). *)
Fixpoint dashed (afterDash : bool) (s : str) : bool :=
  match s with
  | [] => true
  | c :: s' =>
      if isDash c then negb afterDash && dashed true s'
      else isSlugChar c && dashed false s'
  end.

(** [dashed], and the last code unit is no dash. *)
Fixpoint slugFrom (afterDash : bool) (s : str) : bool :=
  match s with
  | [] => negb afterDash
  | c :: s' =>
      if isDash c then negb afterDash && slugFrom true s'
      else isSlugChar c && slugFrom false s'
  end.

(** A slug: empty, or words of [[a-z0-9]] separated by single dashes. *)
Definition isSlug (s : str) : bool := isEmpty s || slugFrom true s.

(** ** What the page keeps of a value written to an input

    The text input keeps a text without its line feeds and carriage returns.
    The color input keeps a text of the form [#] and six hexadecimal digits,
    in small letters, and takes [#000000] for any other text; the number
    inputs keep a text that is a valid floating-point number (an optional
    minus sign, digits with an optional fraction or a fraction alone, an
    optional exponent) and become empty for any other text. *)
Definition textInput (v : str) : str :=
  filter (fun c => negb ((c =? LF) || (c =? CR))%N) v.

Definition colorInput (v : str) : str :=
  if testHexColor v then toLowerCase v else lit "#000000".

Definition validExponent (s : str) : bool :=
  match s with
  | [] => true
  | e :: r =>
      ((e =? 101) || (e =? 69))%N
      && (let d := match r with
                   | c :: r' => if ((c =? 45) || (c =? 43))%N then r' else r
                   | [] => r
                   end in
          negb (isEmpty d) && forallb isDigit d)
  end.

Definition validFloat (s : str) : bool :=
  let s1 := match s with
            | c :: r => if (c =? 45)%N then r else s
            | [] => s
            end in
  let int := takeWhile isDigit s1 in
  let r1 := dropWhile isDigit s1 in
  match r1 with
  | c :: r =>
      if (c =? 46)%N
      then negb (isEmpty (takeWhile isDigit r)) && validExponent (dropWhile isDigit r)
      else negb (isEmpty int) && validExponent r1
  | [] => negb (isEmpty int)
  end.

Definition numberInput (v : str) : str := if validFloat v then v else [].

(** * The program on an engine *)


Section Platform.

Variable E : Engine.

(** [n.toString(radix)]: the digits of an integer below 10^21, and the
    engine's text of any other finite number.  The digits are those of the
    engine for every integer that a double holds exactly, up to 2^53, which
    covers the counters, channels, counts and clamped indices that the
    program prints; above 2^53 an engine prints the shortest digits that
    give the double back, followed by zeros. *)
Definition Number_toString (radix : Z) (n : number) : str :=
  match n with
  | NaN => lit "NaN"
  | Inf false => lit "Infinity"
  | Inf true => lit "-Infinity"
  | Fin q =>
      if isInteger q && (Z.abs (integerPart q) <? 10 ^ 21)
      then intToString radix (integerPart q)
      else NumberToString E radix n
  end.

(** *** GPL (source, lines 68-105) *)

Definition gplLine (it : PaletteItem) : str :=
  let '(r, g, b) := hexToRgb (hex it) in
  let name := trim (collapseWs (name it)) in
  padStart 3 SP (Number_toString 10 r) ++ lit " "
  ++ padStart 3 SP (Number_toString 10 g) ++ lit " "
  ++ padStart 3 SP (Number_toString 10 b) ++ [TAB] ++ name.

Definition toGpl (items : list PaletteItem) : str :=
  let lines :=
    [lit "GIMP Palette"; lit "Name: Palette"; lit "#"]
    ++ map gplLine (sortBy byIndex items) in
  join [LF] lines ++ [LF].

(** The body of the loop of [parseGpl] on one raw line, with the counter at
    [idx]: the item pushed, or [None] when the line is passed over. *)
Definition gplItem (idx : Z) (raw : str) : option FileItem :=
  let line := trim raw in
  if isEmpty line then None
  else if startsWith line (lit "#") then None
  else if startsWith line (lit "GIMP Palette") then None
  else if startsWith line (lit "Name:") then None
  else if startsWith line (lit "Columns:") then None
  else
    match matchGplLine line with
    | None => None
    | Some (m1, m2, m3, m4) =>
        let r := clamp (numOr (parseInt m1 10) (num 0)) (num 0) (num 255) in
        let g := clamp (numOr (parseInt m2 10) (num 0)) (num 0) (num 255) in
        let b := clamp (numOr (parseInt m3 10) (num 0)) (num 0) (num 255) in
        let dflt := lit "Color " ++ Number_toString 10 (num idx) in
        let name := strOr (trim (strOr m4 dflt)) dflt in
        let hex :=
          toUpperCase
            (lit "#" ++ padStart 2 48%N (Number_toString 16 r)
             ++ padStart 2 48%N (Number_toString 16 g)
             ++ padStart 2 48%N (Number_toString 16 b)) in
        Some {| fname := name; findex := num idx; fhex := hex |}
    end.

Fixpoint parseGplLoop (lines : list str) (out : list FileItem) (idx : Z)
  : list FileItem :=
  match lines with
  | [] => out
  | raw :: rest =>
      match gplItem idx raw with
      | None => parseGplLoop rest out idx
      | Some it => parseGplLoop rest (out ++ [it]) (idx + 1)
      end
  end.

Definition gplLines (text : str) : list str := splitLF (replaceCRLF text).

Definition parseGpl (text : str) : list FileItem :=
  parseGplLoop (gplLines text) [] 0.

(** *** Coercions of a parsed JSON value *)

(** [String(v)].  An array prints its elements separated by commas, [null]
    as nothing; an object prints as [[object Object]] unless it has a member
    named [toString], which is not callable and leaves nothing to convert the
    object with. *)
Fixpoint ToString (v : json) : exn + str :=
  match v with
  | JNull => inr (lit "null")
  | JBool b => inr (if b then lit "true" else lit "false")
  | JNum n => inr (Number_toString 10 n)
  | JStr s => inr s
  | JArr l =>
      joinElements (fun e => match e with JNull => inr [] | _ => ToString e end) l
  | JObj members =>
      if hasOwn (lit "toString") members
      then inl (TypeError (typeErrorMessage E))
      else inr (lit "[object Object]")
  end.

(** [Number(v)], where [v] may be [undefined]. *)
Definition ToNumber (v : option json) : exn + number :=
  match v with
  | None => inr NaN
  | Some JNull => inr (num 0)
  | Some (JBool b) => inr (if b then num 1 else num 0)
  | Some (JNum n) => inr n
  | Some (JStr s) => inr (StringToNumber E s)
  | Some (JArr l) =>
      match ToString (JArr l) with
      | inl err => inl err
      | inr s => inr (StringToNumber E s)
      end
  | Some (JObj members) =>
      match ToString (JObj members) with
      | inl err => inl err
      | inr s => inr (StringToNumber E s)
      end
  end.

(** [x.k] where [x] may be [null]. *)
Definition getField (x : json) (k : str) : exn + option json :=
  match x with
  | JNull => inl (TypeError (typeErrorMessage E))
  | _ => inr (field x k)
  end.

(** *** The store *)

(** Source, lines 164-166: the next identifier of the engine. *)
Definition countId (w : World) : World :=
  {| items := items w; inName := inName w; inIndex := inIndex w;
     inColor := inColor w; statusMsg := statusMsg w;
     idCalls := S (idCalls w) |}.

Definition makeId : M str :=
  fun w => (inr (idSource E (idCalls w)), countId w).

(** [existing.name = name; existing.hex = hex] on the first element that
    satisfies [p]. *)
Fixpoint assignFirst (p : PaletteItem -> bool) (name hex : str)
  (l : list PaletteItem) : list PaletteItem :=
  match l with
  | [] => []
  | x :: l' =>
      if p x
      then {| id := id x; name := name; index := index x; hex := hex |} :: l'
      else x :: assignFirst p name hex l'
  end.

(** [(x) => x.index === index] *)
Definition sameIndex (i : number) (x : PaletteItem) : bool := numEq (index x) i.

(** Source, lines 379-381: what [addOrUpdate] reads from the three inputs. *)
Definition inputName (w : World) : str := strOr (trim (inName w)) [].
Definition inputIndex (w : World) : number :=
  clamp (numOr (parseInt (strOr (inIndex w) (lit "0")) 10) (num 0))
        (num 0) (num 999999).
Definition inputHex (w : World) : str := normalizeHex (inColor w).

(** Source, lines 378-396. *)
Definition addOrUpdate : M unit :=
  (w <- getWorld ;;
   let name := inputName w in
   let index := inputIndex w in
   let hex := inputHex w in
   match find (sameIndex index) (items w) with
   | Some existing =>
       setItems (assignFirst (sameIndex index) name hex (items w)) ;;;
       setStatus (lit "Updated index " ++ Number_toString 10 index)
   | None =>
       i <- makeId ;;
       setItems (items w ++ [{| id := i; name := name; index := index; hex := hex |}]) ;;;
       setStatus (lit "Added index " ++ Number_toString 10 index)
   end ;;;
   render ;;;
   w' <- getWorld ;;
   setInIndex (Number_toString 10 (num (Z.of_nat (length (items w'))))))%M.

(** The user fills in the three inputs. *)
Definition typeInputs (nm ix color : str) (w : World) : World :=
  {| items := items w; inName := nm; inIndex := ix; inColor := color;
     statusMsg := statusMsg w; idCalls := idCalls w |}.

(** *** Saving as JSON (source, lines 443-451)

    The document handed to [JSON.stringify].  Text and numbers that are finite
    are printed by the engine so that [JSON.parse] reads the same document
    back; the theorems on the JSON codec are stated on documents. *)
Definition jsonItem (x : PaletteItem) : json :=
  JObj [(lit "name", JStr (name x));
        (lit "index", JNum (index x));
        (lit "hex", JStr (hex x))].

Definition savePayload (items : list PaletteItem) : json :=
  JObj [(lit "kind", JStr (lit "palette.v1"));
        (lit "items", JArr (map jsonItem (sortBy byIndex items)))].

(** *** Loading (source, lines 461-494) *)

(** The callback of [data.items.map] (lines 479-484); the members of the
    object literal are evaluated in the order they are written. *)
Definition decodeItem (x : json) : M PaletteItem :=
  (i <- makeId ;;
   vname <- liftE (getField x (lit "name")) ;;
   nm <- liftE (ToString (orElse vname (JStr []))) ;;
   vindex <- liftE (getField x (lit "index")) ;;
   n <- liftE (ToNumber vindex) ;;
   vhex <- liftE (getField x (lit "hex")) ;;
   hx <- liftE (ToString (orElse vhex (JStr (lit "#000000")))) ;;
   ret {| id := i; name := nm;
          index := clamp (numOr n (num 0)) (num 0) (num 999999);
          hex := normalizeHex hx |})%M.

(** [data && data.kind === 'palette.v1' && Array.isArray(data.items)]: the
    elements of [data.items] when the test holds. *)
Definition isPaletteV1 (data : json) : option (list json) :=
  if jsonTruthy data then
    match field data (lit "kind") with
    | Some (JStr k) =>
        if str_eqb k (lit "palette.v1") then
          match field data (lit "items") with
          | Some (JArr l) => Some l
          | _ => None
          end
        else None
    | _ => None
    end
  else None.

Definition loadedStatus (format : str) : M unit :=
  (w <- getWorld ;;
   setStatus (lit "Loaded " ++ Number_toString 10 (num (Z.of_nat (length (items w))))
              ++ lit " colors from " ++ format))%M.

(** Lines 478-490, from the parsed document on. *)
Definition loadJson (data : json) : M unit :=
  match isPaletteV1 data with
  | Some l =>
      (newItems <- mapM decodeItem l ;;
       setItems newItems ;;;
       render ;;;
       loadedStatus (lit "JSON"))%M
  | None => throw FormatError
  end.

(** Lines 470-474. *)
Definition loadGpl (text : str) : M unit :=
  let parsed := parseGpl text in
  (newItems <- mapM (fun x =>
                       i <- makeId ;;
                       ret {| id := i; name := fname x; index := findex x;
                              hex := normalizeHex (fhex x) |}) parsed ;;
   setItems newItems ;;;
   render ;;;
   loadedStatus (lit "GPL"))%M.

(** The [try] block. *)
Definition loadBody (f : File) : M unit :=
  let text := fileText f in
  let name := toLowerCase (fileName f) in
  if endsWith name (lit ".gpl") then loadGpl text
  else
    (data <- liftE (match JSON_parse E text with
                    | inl m => inl (SyntaxError m)
                    | inr d => inr d
                    end) ;;
     loadJson data)%M.

(** The listener of [fileInput]; [None] when no file was chosen. *)
Definition fileInput_change (f : option File) : M unit :=
  match f with
  | None => ret tt
  | Some f =>
      tryCatch (loadBody f)
               (fun e => setStatus (lit "Load error: " ++ exnMessage e))
  end.

(** The page after a handler has run. *)
Definition after {A} (m : M A) (w : World) : World := snd (m w).
Definition outcome {A} (m : M A) (w : World) : exn + A := fst (m w).

(** *** The other listeners that assign [items]

    Source, lines 359-363: the Remove button of the swatch of [it]. *)
Definition del_click (it : PaletteItem) : M unit :=
  (w <- getWorld ;;
   setItems (filter (fun x => negb (str_eqb (id x) (id it))) (items w)) ;;;
   render)%M.

(** Source, lines 528-533. *)
Definition btnReset_click : M unit :=
  (setItems [] ;;;
   render ;;;
   setInIndex (lit "1") ;;;
   setStatus (lit "Reset."))%M.

(** What the user does on the page: type into the three inputs, click Add,
    choose a file, click the Remove button of a swatch, click Reset. *)
Inductive event : Type :=
| Typed (nm ix color : str)
| AddClick
| FileChosen (f : option File)
| RemoveClick (it : PaletteItem)
| ResetClick.

Definition handle (e : event) : M unit :=
  match e with
  | Typed nm ix color => fun w => (inr tt, typeInputs nm ix color w)
  | AddClick => addOrUpdate
  | FileChosen f => fileInput_change f
  | RemoveClick it => del_click it
  | ResetClick => btnReset_click
  end.

(** The page after a sequence of events. *)
Definition session (es : list event) (w : World) : World :=
  fold_left (fun w e => after (handle e) w) es w.

(** Source, lines 365-370: a click on the swatch of [it] copies the item into
    the three inputs. *)
Definition sw_click (it : PaletteItem) : M unit :=
  fun w =>
    (inr tt,
     {| items := items w;
        inName := textInput (name it);
        inIndex := numberInput (Number_toString 10 (index it));
        inColor := colorInput (hex it);
        statusMsg := lit "Loaded " ++ [34%N] ++ name it ++ [34%N];
        idCalls := idCalls w |}).

(** * Properties *)

(** ** Code units and trimming *)

Ltac cu_prop :=
  unfold isHexDigit, isDigit, isWhiteSpace, isLineTerminator, upperCu, SP, TAB, LF, CR in *;
  repeat match goal with
         | H : _ = false |- _ => apply not_true_iff_false in H
         | |- _ = false => apply not_true_iff_false
         end;
  repeat rewrite ?orb_true_iff, ?andb_true_iff, ?N.eqb_eq, ?N.leb_le in *.

Lemma isDigit_not_ws c : isDigit c = true -> isWhiteSpace c = false.
Proof. intros H. cu_prop. lia. Qed.

Lemma isHexDigit_not_ws c : isHexDigit c = true -> isWhiteSpace c = false.
Proof. intros H. cu_prop. lia. Qed.

Lemma isDigit_isHexDigit c : isDigit c = true -> isHexDigit c = true.
Proof. intros H. unfold isHexDigit. rewrite H. reflexivity. Qed.

Lemma lineTerminator_ws c : isLineTerminator c = true -> isWhiteSpace c = true.
Proof. intros H. cu_prop. lia. Qed.

Lemma upperCu_hex c : isHexDigit c = true -> isHexDigit (upperCu c) = true.
Proof.
  intros H. unfold upperCu.
  destruct ((97 <=? c) && (c <=? 122))%N eqn:L; [|exact H].
  cu_prop. lia.
Qed.

Lemma upperCu_idem c : upperCu (upperCu c) = upperCu c.
Proof.
  unfold upperCu.
  destruct ((97 <=? c) && (c <=? 122))%N eqn:L; [|rewrite L; reflexivity].
  destruct ((97 <=? c - 32) && (c - 32 <=? 122))%N eqn:L'; [|reflexivity].
  cu_prop. lia.
Qed.

Lemma toUpperCase_idem s : toUpperCase (toUpperCase s) = toUpperCase s.
Proof.
  unfold toUpperCase. rewrite map_map. apply map_ext. intros; apply upperCu_idem.
Qed.

Lemma trimEnd_nonempty_last c s :
  isWhiteSpace c = false -> trimEnd (s ++ [c]) = s ++ [c].
Proof.
  intros Hc. induction s as [|d s IH]; simpl.
  - rewrite Hc. reflexivity.
  - rewrite IH. destruct (s ++ [c]) eqn:Es; [|reflexivity].
    destruct s; discriminate.
Qed.

Lemma trimEnd_noWs s : noWs s = true -> trimEnd s = s.
Proof.
  induction s as [|c s IH]; simpl; [reflexivity|].
  intros H. apply andb_true_iff in H as [Hc Hs].
  rewrite (IH Hs). apply negb_true_iff in Hc. rewrite Hc.
  destruct s; reflexivity.
Qed.

Lemma trimStart_head c s : isWhiteSpace c = false -> trimStart (c :: s) = c :: s.
Proof. intros H. unfold trimStart; simpl. rewrite H. reflexivity. Qed.

Lemma trim_noWs s : noWs s = true -> trim s = s.
Proof.
  intros H. unfold trim.
  destruct s as [|c s]; [reflexivity|].
  pose proof H as H'. simpl in H'. apply andb_true_iff in H' as [Hc _].
  apply negb_true_iff in Hc. rewrite trimStart_head by exact Hc.
  apply trimEnd_noWs; exact H.
Qed.

(** ** Digits: what is printed reads back *)

Lemma radixDigit_digitChar radix d :
  0 <= d < radix -> radix <= 36 -> radixDigit radix (digitChar d) = Some d.
Proof.
  intros Hd Hr. unfold radixDigit, digitVal, digitChar, isDigit.
  destruct (d <? 10) eqn:H10.
  - apply Z.ltb_lt in H10.
    replace ((48 <=? Z.to_N (48 + d)) && (Z.to_N (48 + d) <=? 57))%N with true
      by (symmetry; apply andb_true_iff; split; apply N.leb_le; lia).
    replace (Z.of_N (Z.to_N (48 + d)) - 48) with d by lia.
    replace (d <? radix) with true by (symmetry; apply Z.ltb_lt; lia).
    reflexivity.
  - apply Z.ltb_ge in H10.
    replace ((48 <=? Z.to_N (87 + d)) && (Z.to_N (87 + d) <=? 57))%N with false
      by (symmetry; apply andb_false_iff; right; apply N.leb_gt; lia).
    replace ((97 <=? Z.to_N (87 + d)) && (Z.to_N (87 + d) <=? 122))%N with true
      by (symmetry; apply andb_true_iff; split; apply N.leb_le; lia).
    replace (Z.of_N (Z.to_N (87 + d)) - 87) with d by lia.
    replace (d <? radix) with true by (symmetry; apply Z.ltb_lt; lia).
    reflexivity.
Qed.

Lemma parseDigits_app radix s t :
  Forall (fun c => exists d, radixDigit radix c = Some d) s ->
  forall acc,
    parseDigits radix acc (s ++ t)
    = parseDigits radix (parseDigits radix acc s) t.
Proof.
  induction 1 as [|c s [d Hc] _ IH]; intros acc; [reflexivity|].
  cbn [app parseDigits]. rewrite Hc. apply IH.
Qed.

Lemma natDigits_reads_back radix f :
  2 <= radix <= 36 ->
  forall n, 0 <= n < radix ^ Z.of_nat (S f) ->
    Forall (fun c => exists d, radixDigit radix c = Some d) (natDigits (S f) radix n)
    /\ parseDigits radix 0 (natDigits (S f) radix n) = n.
Proof.
  intros Hr. induction f as [|f IH]; intros n Hn.
  - cbn [natDigits]. change (Z.of_nat 1) with 1 in Hn. rewrite Z.pow_1_r in Hn.
    replace (n <? radix) with true by (symmetry; apply Z.ltb_lt; lia).
    split.
    + constructor; [|constructor]. exists n. apply radixDigit_digitChar; lia.
    + cbn [parseDigits]. rewrite radixDigit_digitChar by lia. lia.
  - remember (S f) as k. cbn [natDigits]. destruct (n <? radix) eqn:Hlt.
    + apply Z.ltb_lt in Hlt. split.
      * constructor; [|constructor]. exists n. apply radixDigit_digitChar; lia.
      * cbn [parseDigits]. rewrite radixDigit_digitChar by lia. lia.
    + apply Z.ltb_ge in Hlt.
      assert (Hq : 0 <= n / radix < radix ^ Z.of_nat k).
      { split; [apply Z.div_pos; lia|].
        apply Z.div_lt_upper_bound; [lia|].
        rewrite Nat2Z.inj_succ, Z.pow_succ_r in Hn by lia. lia. }
      destruct (IH (n / radix) Hq) as [Hv Hp].
      pose proof (Z.mod_pos_bound n radix ltac:(lia)) as Hm.
      split.
      * apply Forall_app. split; [exact Hv|].
        constructor; [|constructor]. exists (n mod radix).
        apply radixDigit_digitChar; lia.
      * rewrite (parseDigits_app radix _ _ Hv), Hp. cbn [parseDigits].
        rewrite radixDigit_digitChar by lia.
        pose proof (Z.div_mod n radix ltac:(lia)). lia.
Qed.

(** The digits that [intToString] prints for a natural number are enough of
    them, and [parseInt] reads the number back from them. *)
Lemma intToString_reads_back radix z :
  2 <= radix <= 36 -> 0 <= z ->
  parseDigits radix 0 (intToString radix z) = z.
Proof.
  intros Hr Hz. unfold intToString.
  replace (z <? 0) with false by (symmetry; apply Z.ltb_ge; lia).
  rewrite Z.abs_eq by lia.
  apply natDigits_reads_back; [exact Hr|]. split; [exact Hz|].
  rewrite Nat2Z.inj_succ, Z2Nat.id by apply Z.log2_nonneg.
  destruct (Z.eq_dec z 0) as [->|Hnz].
  - cbn. lia.
  - pose proof (Z.log2_spec z ltac:(lia)) as [_ H2].
    eapply Z.lt_le_trans; [exact H2|].
    apply Z.pow_le_mono_l. lia.
Qed.

(** ** ColorModel: [normalizeHex] *)

Lemma testHexColor_noWs h : testHexColor h = true -> noWs h = true.
Proof.
  destruct h as [|c ds]; simpl; [discriminate|].
  intros H. apply andb_true_iff in H as [H Hd]. apply andb_true_iff in H as [Hc _].
  apply andb_true_iff. split.
  - apply negb_true_iff. cu_prop. lia.
  - clear Hc. induction ds as [|d ds IH]; simpl in *; [reflexivity|].
    apply andb_true_iff in Hd as [Hd Hds].
    rewrite (isHexDigit_not_ws _ Hd). simpl. auto.
Qed.

Lemma testHexColor_upper h :
  testHexColor h = true -> testHexColor (toUpperCase h) = true.
Proof.
  destruct h as [|c ds]; [discriminate|].
  unfold toUpperCase, testHexColor. cbn [map].
  intros H. apply andb_true_iff in H as [H Hd]. apply andb_true_iff in H as [Hc Hl].
  apply N.eqb_eq in Hc. subst c.
  rewrite length_map, Hl.
  change (upperCu 35 =? 35)%N with true. cbn [andb].
  clear Hl. induction ds as [|d ds IH]; cbn [map forallb] in *; [reflexivity|].
  apply andb_true_iff in Hd as [Hd Hds].
  rewrite (upperCu_hex _ Hd). auto.
Qed.

Lemma normalizeHex_canonical h : canonicalHex h -> normalizeHex h = h.
Proof.
  intros [Ht Hu]. unfold normalizeHex.
  rewrite (trim_noWs h (testHexColor_noWs h Ht)). rewrite Ht. exact Hu.
Qed.

Lemma normalizeHex_is_canonical x : canonicalHex (normalizeHex x).
Proof.
  unfold normalizeHex.
  destruct (testHexColor (trim x)) eqn:Ht.
  - split; [apply testHexColor_upper; exact Ht | apply toUpperCase_idem].
  - split; reflexivity.
Qed.

Lemma upper_is_black h :
  toUpperCase h = lit "#000000" -> testHexColor h = true.
Proof.
  intros H.
  assert (K : forall c k, (k = 35 \/ k = 48)%N -> upperCu c = k -> c = k).
  { intros c k Hk Hc. unfold upperCu in Hc.
    destruct ((97 <=? c) && (c <=? 122))%N eqn:L; [|exact Hc].
    cu_prop. lia. }
  do 8 (destruct h as [|? h]; try discriminate H).
  simpl in H. injection H as H0 H1 H2 H3 H4 H5 H6.
  apply K in H0, H1, H2, H3, H4, H5, H6; try (right; reflexivity); try (left; reflexivity).
  subst. reflexivity.
Qed.

(** C3 (amended): [normalizeHex] is a total function and is idempotent; it
    trims its input first, returns the trimmed input in upper case if and only
    if the trimmed input is [#] followed by exactly six hexadecimal digits, and
    returns [#000000] for every input whose trimmed form is not of that shape. *)
Theorem normalizeHex_trimmed_spec (x : str) :
  normalizeHex (normalizeHex x) = normalizeHex x
  /\ (normalizeHex x = toUpperCase (trim x) <-> testHexColor (trim x) = true)
  /\ (testHexColor (trim x) = false -> normalizeHex x = lit "#000000").
Proof.
  split; [|split].
  - apply normalizeHex_canonical, normalizeHex_is_canonical.
  - unfold normalizeHex. destruct (testHexColor (trim x)) eqn:Ht.
    + split; auto.
    + split; [|discriminate]. intros H. symmetry in H.
      apply upper_is_black in H. congruence.
  - intros Ht. unfold normalizeHex. rewrite Ht. reflexivity.
Qed.

(** C3, as stated, fails on an input with a blank around the color: the input
    is not [#] and six hexadecimal digits, and the result is not [#000000]. *)
Lemma normalizeHex_padded_input :
  testHexColor (lit " #ff0000") = false
  /\ normalizeHex (lit " #ff0000") = lit "#FF0000"
  /\ normalizeHex (lit " #ff0000") <> lit "#000000".
Proof. repeat split. vm_compute. discriminate. Qed.

(** On an input that has no blank at either end the two readings agree. *)
Lemma normalizeHex_untrimmed (x : str) :
  trim x = x ->
  (testHexColor x = true -> normalizeHex x = toUpperCase x)
  /\ (testHexColor x = false -> normalizeHex x = lit "#000000").
Proof.
  intros Hx. unfold normalizeHex. rewrite Hx.
  split; intros ->; reflexivity.
Qed.

(** ** GridLayout *)

Lemma floorDiv_pos a b : 0 < b -> floorDiv a b = a / b.
Proof.
  intros Hb. destruct b as [|p|p]; try lia.
  unfold floorDiv, Qdiv, Qinv, Qmult, Qfloor, inject_Z. cbn.
  rewrite Z.mul_1_r. reflexivity.
Qed.

Lemma ceilDiv_pos a b : 0 < b -> ceilDiv a b = - ((- a) / b).
Proof.
  intros Hb. destruct b as [|p|p]; try lia.
  unfold ceilDiv, Qceiling, Qdiv, Qinv, Qmult, Qfloor, Qopp, inject_Z. cbn.
  rewrite Z.mul_1_r. reflexivity.
Qed.

(** [ceilDiv a b] is the least integer [r] with [a <= r * b]. *)
Lemma ceilDiv_least a b :
  0 < b -> a <= ceilDiv a b * b /\ (ceilDiv a b - 1) * b < a.
Proof.
  intros Hb. rewrite ceilDiv_pos by exact Hb.
  pose proof (Z.div_mod (- a) b ltac:(lia)) as Hd.
  pose proof (Z.mod_pos_bound (- a) b Hb) as Hm.
  nia.
Qed.

Lemma drawFrom_nth cols swW swH gapH gapV (l : list PaletteItem) :
  forall k i it,
    nth_error l i = Some it ->
    nth_error (drawFrom cols swW swH gapH gapV k l) i
    = Some (drawCell cols swW swH gapH gapV (k + i) it).
Proof.
  induction l as [|x l IH]; intros k i it H.
  - destruct i; discriminate.
  - destruct i as [|i]; simpl in *.
    + injection H as ->. rewrite Nat.add_0_r. reflexivity.
    + rewrite (IH (S k) i it H). f_equal. f_equal. lia.
Qed.

(** C9: the grid of [renderPng].  With a row length of at least 1, swatch
    sides of at least 8 and gaps of at least 0: [cols = max(1, rowLen)];
    [rows = max(1, ceil(count/cols))], the ceiling being the least number of
    rows of [cols] cells that hold [count] items; the canvas is
    [cols*swW + max(0, cols-1)*gapH] wide and [rows*swH + max(0, rows-1)*gapV]
    high; the item at position [i] is drawn at [x = (i mod cols)*(swW+gapH)],
    [y = floor(i/cols)*(swH+gapV)].  With [rowLen = 3] and seven items there
    are 3 columns and 3 rows, and position 4 is at [(swW+gapH, swH+gapV)]. *)
Theorem renderPng_grid (l : list PaletteItem) (rowLen swW swH gapH gapV : Z) :
  1 <= rowLen -> 8 <= swW -> 8 <= swH -> 0 <= gapH -> 0 <= gapV ->
  let count := Z.of_nat (length l) in
  let c := renderPng l rowLen swW swH gapH gapV in
  cols c = Z.max 1 rowLen
  /\ rows c = Z.max 1 (ceilDiv count (cols c))
  /\ (count <= ceilDiv count (cols c) * cols c
      /\ (ceilDiv count (cols c) - 1) * cols c < count)
  /\ canvasWidth c = cols c * swW + Z.max 0 (cols c - 1) * gapH
  /\ canvasHeight c = rows c * swH + Z.max 0 (rows c - 1) * gapV
  /\ (forall i it, nth_error l i = Some it ->
        exists cell, nth_error (cells c) i = Some cell
          /\ cellX cell = (Z.of_nat i mod cols c) * (swW + gapH)
          /\ cellY cell = (Z.of_nat i / cols c) * (swH + gapV)
          /\ cellW cell = swW /\ cellH cell = swH
          /\ cellFill cell = hex it /\ cellText cell = name it)
  /\ (rowLen = 3 -> count = 7 ->
        cols c = 3 /\ rows c = 3
        /\ canvasWidth c = 3 * swW + 2 * gapH
        /\ exists cell, nth_error (cells c) 4 = Some cell
             /\ cellX cell = swW + gapH /\ cellY cell = swH + gapV).
Proof.
  intros Hr Hw Hh Hgh Hgv count c.
  assert (Hc : cols c = Z.max 1 rowLen) by reflexivity.
  assert (Hpos : 0 < cols c) by (rewrite Hc; lia).
  assert (Hcell : forall i it, nth_error l i = Some it ->
        exists cell, nth_error (cells c) i = Some cell
          /\ cellX cell = (Z.of_nat i mod cols c) * (swW + gapH)
          /\ cellY cell = (Z.of_nat i / cols c) * (swH + gapV)
          /\ cellW cell = swW /\ cellH cell = swH
          /\ cellFill cell = hex it /\ cellText cell = name it).
  { intros i it Hi. eexists. split.
    - unfold c, renderPng. cbn [cells]. apply drawFrom_nth. exact Hi.
    - cbn [cellX cellY cellW cellH cellFill cellText drawCell Nat.add].
      fold (cols c) in *. rewrite floorDiv_pos by (rewrite <- Hc; exact Hpos).
      rewrite Z.rem_mod_nonneg by lia.
      rewrite <- Hc. repeat split; reflexivity. }
  repeat split; try reflexivity.
  - apply ceilDiv_least; exact Hpos.
  - apply ceilDiv_least; exact Hpos.
  - exact Hcell.
  - rewrite Hc. lia.
  - unfold c, renderPng; cbn [rows]. fold count. rewrite H0.
    subst rowLen. reflexivity.
  - unfold c, renderPng; cbn [canvasWidth]. subst rowLen. reflexivity.
  - destruct (nth_error l 4) as [it|] eqn:E4.
    + destruct (Hcell 4%nat it E4) as [cell [Hn [Hx [Hy _]]]].
      exists cell. rewrite Hc in Hx, Hy. subst rowLen.
      split; [exact Hn|]. split; [rewrite Hx|rewrite Hy];
        change (Z.of_nat 4 mod Z.max 1 3) with 1;
        change (Z.of_nat 4 / Z.max 1 3) with 1; lia.
    + apply nth_error_None in E4. unfold count in H0. lia.
Qed.

(** C9 at a concrete palette of seven items, three to a row. *)
Lemma renderPng_grid_seven :
  cols (renderPng sevenReds 3 94 62 2 2) = 3
  /\ rows (renderPng sevenReds 3 94 62 2 2) = 3
  /\ canvasWidth (renderPng sevenReds 3 94 62 2 2) = 286
  /\ canvasHeight (renderPng sevenReds 3 94 62 2 2) = 190
  /\ exists cell, nth_error (cells (renderPng sevenReds 3 94 62 2 2)) 4 = Some cell
       /\ cellX cell = 96 /\ cellY cell = 64.
Proof.
  pose proof (renderPng_grid sevenReds 3 94 62 2 2
                ltac:(lia) ltac:(lia) ltac:(lia) ltac:(lia) ltac:(lia)) as H.
  cbv zeta in H.
  destruct H as [_ [_ [_ [Hw [Hh [_ H]]]]]].
  destruct (H eq_refl eq_refl) as [Hc [Hr [_ [cell [Hn [Hx Hy]]]]]].
  split; [exact Hc|]. split; [exact Hr|].
  split; [rewrite Hw, Hc; reflexivity|].
  split; [rewrite Hh, Hr; reflexivity|].
  exists cell. repeat split; assumption.
Defined.

(** ** PaletteStore: [addOrUpdate] *)

Lemma Qle_bool_inject a b : Qle_bool (inject_Z a) (inject_Z b) = (a <=? b).
Proof. unfold Qle_bool, inject_Z. cbn. rewrite !Z.mul_1_r. reflexivity. Qed.

Lemma Qeq_bool_inject a b : Qeq_bool (inject_Z a) (inject_Z b) = (a =? b).
Proof.
  apply eq_true_iff_eq.
  rewrite Qeq_bool_iff, Z.eqb_eq, inject_Z_injective. reflexivity.
Qed.

Lemma clamp_num v a b :
  clamp (num v) (num a) (num b) = num (Z.max a (Z.min b v)).
Proof.
  unfold clamp, Math_min, Math_max, num. cbn [isNaN orb numLe].
  rewrite Qle_bool_inject.
  destruct (v <=? b) eqn:Hv; cbn [isNaN orb numLe]; rewrite Qle_bool_inject.
  - apply Z.leb_le in Hv. rewrite (Z.min_r b v) by lia.
    destruct (a <=? v) eqn:Ha.
    + apply Z.leb_le in Ha. rewrite Z.max_r by lia. reflexivity.
    + apply Z.leb_gt in Ha. rewrite Z.max_l by lia. reflexivity.
  - apply Z.leb_gt in Hv. rewrite (Z.min_l b v) by lia.
    destruct (a <=? b) eqn:Ha.
    + apply Z.leb_le in Ha. rewrite Z.max_r by lia. reflexivity.
    + apply Z.leb_gt in Ha. rewrite Z.max_l by lia. reflexivity.
Qed.

Lemma numOr_num v : numOr (num v) (num 0) = num v.
Proof.
  unfold numOr, numTruthy, num.
  change 0%Q with (inject_Z 0). rewrite Qeq_bool_inject.
  destruct (v =? 0) eqn:Hv; [|reflexivity].
  apply Z.eqb_eq in Hv. subst. reflexivity.
Qed.

Lemma parseInt_cases s radix :
  parseInt s radix = NaN \/ exists z, parseInt s radix = num z.
Proof.
  unfold parseInt.
  destruct (match trimStart s with
            | [] => (1, trimStart s)
            | c :: r => if (c =? 45)%N then (-1, r)
                        else if (c =? 43)%N then (1, r) else (1, trimStart s)
            end) as [sign s2].
  destruct (if (radix =? 16) && (startsWith s2 (lit "0x") || startsWith s2 (lit "0X"))
            then skipn 2 s2 else s2) as [|c s3]; [left; reflexivity|].
  destruct (radixDigit radix c); [right; eexists; reflexivity|left; reflexivity].
Qed.

(** The index read from the input is an integer between 0 and 999999. *)
Lemma inputIndex_num w : exists z, 0 <= z <= 999999 /\ inputIndex w = num z.
Proof.
  unfold inputIndex.
  destruct (parseInt_cases (strOr (inIndex w) (lit "0")) 10) as [H|[z H]]; rewrite H.
  - exists 0. split; [lia|reflexivity].
  - rewrite numOr_num, clamp_num. eexists; split; [|reflexivity]. lia.
Qed.

Lemma numEq_num a b : numEq (num a) (num b) = (a =? b).
Proof. unfold numEq, num. apply Qeq_bool_inject. Qed.

Lemma find_split {A} (p : A -> bool) (l : list A) (x : A) :
  find p l = Some x ->
  exists l1 l2, l = l1 ++ x :: l2 /\ p x = true
                /\ forall z, In z l1 -> p z = false.
Proof.
  induction l as [|y l IH]; simpl; [discriminate|].
  destruct (p y) eqn:Hy.
  - intros H; injection H as ->. exists [], l. repeat split; auto.
    intros z [].
  - intros H. destruct (IH H) as [l1 [l2 [-> [Hx Hl]]]].
    exists (y :: l1), l2. repeat split; auto.
    intros z [<-|Hz]; auto.
Qed.

Lemma find_first {A} (p : A -> bool) (l1 l2 : list A) (x : A) :
  (forall z, In z l1 -> p z = false) -> p x = true ->
  find p (l1 ++ x :: l2) = Some x.
Proof.
  intros Hl Hx. induction l1 as [|y l1 IH]; simpl.
  - rewrite Hx. reflexivity.
  - rewrite (Hl y (or_introl eq_refl)). apply IH.
    intros z Hz. apply Hl. right. exact Hz.
Qed.

Lemma assignFirst_first p nm hx (l1 l2 : list PaletteItem) x :
  (forall z, In z l1 -> p z = false) -> p x = true ->
  assignFirst p nm hx (l1 ++ x :: l2)
  = l1 ++ {| id := id x; name := nm; index := index x; hex := hx |} :: l2.
Proof.
  intros Hl Hx. induction l1 as [|y l1 IH]; simpl.
  - rewrite Hx. reflexivity.
  - rewrite (Hl y (or_introl eq_refl)). f_equal. apply IH.
    intros z Hz. apply Hl. right. exact Hz.
Qed.

(** What [addOrUpdate] leaves in [items]. *)
Lemma addOrUpdate_items w :
  items (after addOrUpdate w)
  = match find (sameIndex (inputIndex w)) (items w) with
    | Some _ =>
        assignFirst (sameIndex (inputIndex w)) (inputName w) (inputHex w) (items w)
    | None =>
        items w ++ [{| id := idSource E (idCalls w); name := inputName w;
                       index := inputIndex w; hex := inputHex w |}]
    end.
Proof.
  unfold after, addOrUpdate, bind, getWorld.
  destruct (find (sameIndex (inputIndex w)) (items w)); reflexivity.
Qed.

Lemma find_some_exists {A} (p : A -> bool) (l : list A) :
  (exists x, In x l /\ p x = true) -> exists y, find p l = Some y.
Proof.
  intros [x [Hin Hp]]. destruct (find p l) eqn:Hf; [eauto|].
  rewrite (find_none p l Hf x Hin) in Hp. discriminate.
Qed.

Lemma sameIndex_refl_input w x :
  index x = inputIndex w -> sameIndex (inputIndex w) x = true.
Proof.
  intros H. unfold sameIndex. rewrite H.
  destruct (inputIndex_num w) as [z [_ ->]]. rewrite numEq_num. apply Z.eqb_refl.
Qed.

(** After [addOrUpdate] some item carries the index that was typed. *)
Lemma addOrUpdate_has_index w :
  exists x, In x (items (after addOrUpdate w))
            /\ sameIndex (inputIndex w) x = true.
Proof.
  rewrite addOrUpdate_items.
  destruct (find (sameIndex (inputIndex w)) (items w)) as [x|] eqn:Hf.
  - destruct (find_split _ _ _ Hf) as [l1 [l2 [Hl [Hx Hl1]]]].
    rewrite Hl, (assignFirst_first _ _ _ l1 l2 x Hl1 Hx).
    eexists. split; [apply in_elt|]. exact Hx.
  - eexists. split; [apply in_elt|].
    apply sameIndex_refl_input. reflexivity.
Qed.

Lemma addOrUpdate_update_shape w :
  (exists x, In x (items w) /\ sameIndex (inputIndex w) x = true) ->
  exists l1 x l2,
    items w = l1 ++ x :: l2
    /\ sameIndex (inputIndex w) x = true
    /\ (forall z, In z l1 -> sameIndex (inputIndex w) z = false)
    /\ items (after addOrUpdate w)
       = l1 ++ {| id := id x; name := inputName w; index := index x;
                  hex := inputHex w |} :: l2.
Proof.
  intros Hex. destruct (find_some_exists _ _ Hex) as [x Hf].
  destruct (find_split _ _ _ Hf) as [l1 [l2 [Hl [Hx Hl1]]]].
  exists l1, x, l2. repeat split; auto.
  rewrite addOrUpdate_items, Hf, Hl.
  apply assignFirst_first; assumption.
Qed.

(** C8: when the store holds an item with the index typed in, [addOrUpdate]
    leaves the length of the store unchanged, writes the name and the
    normalized color into that item where it stands and keeps its [id]; and
    for any store, after one [addOrUpdate] a second one with the same index
    and another color leaves the length unchanged, writes the new color in
    place and keeps the [id] of the item. *)
Theorem addOrUpdate_existing (w : World) :
  ((exists x, In x (items w) /\ sameIndex (inputIndex w) x = true) ->
   length (items (after addOrUpdate w)) = length (items w)
   /\ exists l1 x l2,
        items w = l1 ++ x :: l2
        /\ sameIndex (inputIndex w) x = true
        /\ items (after addOrUpdate w)
           = l1 ++ {| id := id x; name := inputName w; index := index x;
                      hex := normalizeHex (inColor w) |} :: l2)
  /\ (forall nm2 ix2 color2,
        let w1 := after addOrUpdate w in
        let w1' := typeInputs nm2 ix2 color2 w1 in
        let w2 := after addOrUpdate w1' in
        inputIndex w1' = inputIndex w ->
        length (items w2) = length (items w1)
        /\ exists l1 x1 x2 l2,
             items w1 = l1 ++ x1 :: l2 /\ items w2 = l1 ++ x2 :: l2
             /\ sameIndex (inputIndex w) x1 = true
             /\ id x2 = id x1 /\ index x2 = index x1
             /\ name x2 = inputName w1'
             /\ hex x2 = normalizeHex color2).
Proof.
  split.
  - intros Hex.
    destruct (addOrUpdate_update_shape w Hex) as [l1 [x [l2 [Hl [Hx [_ Hnew]]]]]].
    split.
    + rewrite Hnew, Hl, !length_app. reflexivity.
    + exists l1, x, l2. auto.
  - intros nm2 ix2 color2 w1 w1' w2 Hsame.
    assert (Hex1 : exists y, In y (items w1')
                             /\ sameIndex (inputIndex w1') y = true).
    { rewrite Hsame. exact (addOrUpdate_has_index w). }
    destruct (addOrUpdate_update_shape w1' Hex1) as [k1 [y [k2 [Hk [Hy [_ Hk2]]]]]].
    change (items w1') with (items w1) in Hk.
    fold w2 in Hk2. split.
    + rewrite Hk2, Hk, !length_app. reflexivity.
    + rewrite Hsame in Hy. eexists k1, y, _, k2.
      split; [exact Hk|]. split; [exact Hk2|].
      split; [exact Hy|]. repeat split.
Qed.

(** C10: when two or more items of the store share the index typed in,
    [addOrUpdate] changes only the first of them in the order of the store;
    the other items with that index and all the remaining items stay as they
    are, and nothing is appended. *)
Theorem addOrUpdate_first_match (w : World) (l1 l2 l3 : list PaletteItem)
  (x y : PaletteItem) :
  items w = l1 ++ x :: l2 ++ y :: l3 ->
  (forall z, In z l1 -> sameIndex (inputIndex w) z = false) ->
  sameIndex (inputIndex w) x = true ->
  sameIndex (inputIndex w) y = true ->
  items (after addOrUpdate w)
  = l1 ++ {| id := id x; name := inputName w; index := index x;
             hex := normalizeHex (inColor w) |} :: l2 ++ y :: l3
  /\ length (items (after addOrUpdate w)) = length (items w)
  /\ idCalls (after addOrUpdate w) = idCalls w.
Proof.
  intros Hl Hl1 Hx Hy.
  assert (Hf : find (sameIndex (inputIndex w)) (items w) = Some x).
  { rewrite Hl. apply find_first; assumption. }
  assert (Hnew : items (after addOrUpdate w)
                 = l1 ++ {| id := id x; name := inputName w; index := index x;
                            hex := normalizeHex (inColor w) |} :: l2 ++ y :: l3).
  { rewrite addOrUpdate_items, Hf, Hl. apply assignFirst_first; assumption. }
  split; [exact Hnew|]. split.
  - rewrite Hnew, Hl, !length_app. reflexivity.
  - unfold after, addOrUpdate, bind, getWorld. rewrite Hf. reflexivity.
Qed.

(** ** The JSON codec *)

Lemma str_eqb_eq a b : str_eqb a b = true <-> a = b.
Proof.
  revert b. induction a as [|c a IH]; intros [|d b]; simpl;
    try (split; [discriminate|discriminate]); [tauto|].
  rewrite andb_true_iff, N.eqb_eq, IH. split.
  - intros [-> ->]. reflexivity.
  - intros H. injection H as -> ->. auto.
Qed.

Lemma numLe_numNeg a b : numLe a b = true -> numNeg (numSub b a) = false.
Proof.
  destruct a as [|[|]|x], b as [|[|]|y]; simpl; try discriminate; try reflexivity.
  intros H. apply Qle_bool_iff in H.
  apply negb_false_iff. apply Qle_bool_iff.
  unfold Qminus. rewrite <- (Qplus_opp_r x).
  apply Qplus_le_l. exact H.
Qed.

(** A stable sort leaves an ascending list as it is. *)
Lemma sortBy_ascending l : ascending l -> sortBy byIndex l = l.
Proof.
  unfold ascending. induction 1 as [|x l Hs IH Hd]; [reflexivity|].
  simpl. fold (sortBy byIndex l). rewrite IH.
  destruct Hd as [|y l' Hxy]; [reflexivity|].
  simpl. unfold byIndex at 1. rewrite (numLe_numNeg _ _ Hxy). reflexivity.
Qed.

Lemma json_nested_ind (P : json -> Prop) :
  P JNull -> (forall b, P (JBool b)) -> (forall n, P (JNum n)) ->
  (forall s, P (JStr s)) -> (forall l, Forall P l -> P (JArr l)) ->
  (forall m, P (JObj m)) ->
  forall v, P v.
Proof.
  intros HN HB HNum HS HA HO. fix IH 1.
  intros [| b | n | s | l | m];
    [exact HN | apply HB | apply HNum | apply HS | | apply HO].
  apply HA. induction l as [|x l IHl]; constructor; [apply IH | exact IHl].
Qed.

Lemma joinElements_error (P : exn -> Prop) f l :
  Forall (fun x => forall e, f x = inl e -> P e) l ->
  forall e, joinElements f l = inl e -> P e.
Proof.
  induction 1 as [|x l Hx Hl IH]; intros e; [discriminate|].
  cbn [joinElements]. destruct (f x) as [ex|sx] eqn:Ex.
  - intros H; injection H as <-. apply Hx. reflexivity.
  - destruct l as [|y l']; [discriminate|].
    fold (joinElements f (y :: l')).
    destruct (joinElements f (y :: l')) as [et|t] eqn:Et; [|discriminate].
    intros H; injection H as <-. apply IH. reflexivity.
Qed.

Lemma ToString_error :
  forall v e, ToString v = inl e -> e = TypeError (typeErrorMessage E).
Proof.
  induction v as [| b | n | s | l Hl | members] using json_nested_ind;
    intros e; simpl; try discriminate.
  - apply (joinElements_error (fun e => e = TypeError (typeErrorMessage E))).
    eapply Forall_impl; [|exact Hl].
    intros x Hx e'. destruct x; try discriminate; apply Hx.
  - destruct (hasOwn (lit "toString") members); [|discriminate].
    intros H. injection H as <-. reflexivity.
Qed.

Lemma ToNumber_error v e :
  ToNumber v = inl e -> e = TypeError (typeErrorMessage E).
Proof.
  destruct v as [[| b | n | s | l | members]|]; unfold ToNumber;
    try discriminate.
  - destruct (ToString (JArr l)) eqn:H; [|discriminate].
    intros K; injection K as <-. eapply ToString_error; exact H.
  - destruct (ToString (JObj members)) eqn:H; [|discriminate].
    intros K; injection K as <-. eapply ToString_error; exact H.
Qed.

Lemma getField_error x k e :
  getField x k = inl e -> e = TypeError (typeErrorMessage E).
Proof. destruct x; simpl; try discriminate. intros H; injection H as <-. reflexivity. Qed.

(** The callback of [map], once the identifier is drawn. *)
Lemma decodeItem_run x w :
  decodeItem x w
  = (match getField x (lit "name") with
     | inl e => inl e
     | inr vname =>
     match ToString (orElse vname (JStr [])) with
     | inl e => inl e
     | inr nm =>
     match getField x (lit "index") with
     | inl e => inl e
     | inr vindex =>
     match ToNumber vindex with
     | inl e => inl e
     | inr n =>
     match getField x (lit "hex") with
     | inl e => inl e
     | inr vhex =>
     match ToString (orElse vhex (JStr (lit "#000000"))) with
     | inl e => inl e
     | inr hx =>
         inr {| id := idSource E (idCalls w); name := nm;
                index := clamp (numOr n (num 0)) (num 0) (num 999999);
                hex := normalizeHex hx |}
     end end end end end end, countId w).
Proof.
  unfold decodeItem, bind, makeId, liftE, ret.
  destruct (getField x (lit "name")); [reflexivity|].
  match goal with |- context [ToString ?a] => destruct (ToString a) end; [reflexivity|].
  destruct (getField x (lit "index")); [reflexivity|].
  match goal with |- context [ToNumber ?a] => destruct (ToNumber a) end; [reflexivity|].
  destruct (getField x (lit "hex")); [reflexivity|].
  match goal with |- context [ToString ?a] => destruct (ToString a) end; reflexivity.
Qed.

Lemma decodeItem_world x w : snd (decodeItem x w) = countId w.
Proof. rewrite decodeItem_run. reflexivity. Qed.

Lemma decodeItem_error x w e :
  fst (decodeItem x w) = inl e -> e = TypeError (typeErrorMessage E).
Proof.
  rewrite decodeItem_run. cbn [fst].
  destruct (getField x (lit "name")) eqn:H1;
    [intros [= <-]; eapply getField_error; exact H1|].
  match goal with |- context [ToString ?a] => destruct (ToString a) eqn:H2 end;
    [intros [= <-]; eapply ToString_error; exact H2|].
  destruct (getField x (lit "index")) eqn:H3;
    [intros [= <-]; eapply getField_error; exact H3|].
  match goal with |- context [ToNumber ?a] => destruct (ToNumber a) eqn:H4 end;
    [intros [= <-]; eapply ToNumber_error; exact H4|].
  destruct (getField x (lit "hex")) eqn:H5;
    [intros [= <-]; eapply getField_error; exact H5|].
  match goal with |- context [ToString ?a] => destruct (ToString a) eqn:H6 end;
    [intros [= <-]; eapply ToString_error; exact H6|].
  discriminate.
Qed.

(** Building the new collection draws identifiers and writes nothing else. *)
Lemma mapM_decodeItem_items l :
  forall w, items (snd (mapM decodeItem l w)) = items w.
Proof.
  induction l as [|x l IH]; intros w; [reflexivity|].
  cbn [mapM]. unfold bind at 1.
  destruct (decodeItem x w) as [[e|it] w1] eqn:Hx;
    pose proof (decodeItem_world x w) as Hw; rewrite Hx in Hw; cbn [snd] in Hw;
    subst w1; [reflexivity|].
  unfold bind. specialize (IH (countId w)).
  destruct (mapM decodeItem l (countId w)) as [[e|ys] w2]; exact IH.
Qed.

Lemma mapM_decodeItem_error l :
  forall w e, fst (mapM decodeItem l w) = inl e ->
              e = TypeError (typeErrorMessage E).
Proof.
  induction l as [|x l IH]; intros w e; [discriminate|].
  cbn [mapM]. unfold bind at 1.
  destruct (decodeItem x w) as [[ex|it] w1] eqn:Hx.
  - cbn [fst]. intros K; injection K as <-.
    apply (decodeItem_error x w). rewrite Hx. reflexivity.
  - unfold bind. specialize (IH w1 e).
    destruct (mapM decodeItem l w1) as [[el|ys] w2]; [exact IH|discriminate].
Qed.

Lemma isPaletteV1_valid data l :
  isPaletteV1 data = Some l <->
  exists members,
    data = JObj members
    /\ lookupLast (lit "kind") members = Some (JStr (lit "palette.v1"))
    /\ lookupLast (lit "items") members = Some (JArr l).
Proof.
  unfold isPaletteV1. split.
  - destruct data as [| b | n | s | els | members]; cbn [jsonTruthy field];
      try discriminate;
      try (destruct (_ : bool); discriminate).
    destruct (lookupLast (lit "kind") members) as [[| | | k | |]|] eqn:Hk;
      try discriminate.
    destruct (str_eqb k (lit "palette.v1")) eqn:Hs; [|discriminate].
    apply str_eqb_eq in Hs. subst k.
    destruct (lookupLast (lit "items") members) as [[| | | | els |]|] eqn:Hi;
      try discriminate.
    intros H; injection H as <-. exists members. auto.
  - intros [members [-> [Hk Hi]]]. cbn [jsonTruthy field].
    rewrite Hk. replace (str_eqb (lit "palette.v1") (lit "palette.v1")) with true
      by reflexivity.
    rewrite Hi. reflexivity.
Qed.

Lemma isPaletteV1_shape data :
  validShape data <-> exists l, isPaletteV1 data = Some l.
Proof.
  split.
  - intros [members [l [Hd [Hk Hi]]]]. exists l.
    apply isPaletteV1_valid. exists members. auto.
  - intros [l H]. apply isPaletteV1_valid in H as [members [Hd [Hk Hi]]].
    exists members, l. auto.
Qed.

(** The three outcomes of [loadJson]. *)
Lemma loadJson_run data w :
  match isPaletteV1 data with
  | None => loadJson data w = (inl FormatError, w)
  | Some l =>
      match mapM decodeItem l w with
      | (inl e, w1) => loadJson data w = (inl e, w1)
      | (inr newItems, w1) =>
          outcome (loadJson data) w = inr tt
          /\ items (after (loadJson data) w) = newItems
      end
  end.
Proof.
  unfold loadJson, outcome, after.
  destruct (isPaletteV1 data) as [l|]; [|reflexivity].
  unfold bind.
  destruct (mapM decodeItem l w) as [[e|newItems] w1]; [reflexivity|].
  split; reflexivity.
Qed.

(** C5: on a parsed document, [loadJson] throws the format error if and only
    if the document is not an object whose [kind] is [palette.v1] and whose
    [items] is an array; the document with [kind] equal to [not.palette] and
    an empty [items] makes it throw that error. *)
Theorem loadJson_format_error (data : json) (w : World) :
  (outcome (loadJson data) w = inl FormatError <-> ~ validShape data)
  /\ outcome (loadJson notPaletteDoc) w = inl FormatError.
Proof.
  split; [|reflexivity].
  pose proof (loadJson_run data w) as H.
  rewrite isPaletteV1_shape.
  destruct (isPaletteV1 data) as [l|] eqn:Hp.
  - split.
    + intros Ho. exfalso.
      destruct (mapM decodeItem l w) as [[e|newItems] w1] eqn:Hm.
      * unfold outcome in Ho. rewrite H in Ho. cbn [fst] in Ho.
        injection Ho as ->.
        pose proof (mapM_decodeItem_error l w FormatError) as K.
        rewrite Hm in K. specialize (K eq_refl). discriminate K.
      * destruct H as [H _]. rewrite H in Ho. discriminate.
    + intros Hn. exfalso. apply Hn. eauto.
  - split.
    + intros _ [l Hl]. discriminate.
    + intros _. unfold outcome. rewrite H. reflexivity.
Qed.

Lemma decodeItem_jsonItem x w z :
  canonicalHex (hex x) -> index x = num z -> 0 <= z <= 999999 ->
  decodeItem (jsonItem x) w
  = (inr {| id := idSource E (idCalls w); name := name x; index := index x;
            hex := hex x |}, countId w).
Proof.
  intros Hh Hi Hz. rewrite decodeItem_run.
  change (getField (jsonItem x) (lit "name")) with
    (@inr exn _ (Some (JStr (name x)))).
  change (getField (jsonItem x) (lit "index")) with
    (@inr exn _ (Some (JNum (index x)))).
  change (getField (jsonItem x) (lit "hex")) with
    (@inr exn _ (Some (JStr (hex x)))).
  cbv beta iota.
  assert (Hn : ToString (orElse (Some (JStr (name x))) (JStr [])) = inr (name x)).
  { destruct (name x); reflexivity. }
  assert (Hx : ToString (orElse (Some (JStr (hex x))) (JStr (lit "#000000")))
               = inr (hex x)).
  { destruct Hh as [Ht _]. destruct (hex x); [discriminate Ht|reflexivity]. }
  rewrite Hn, Hx. cbn [ToNumber].
  rewrite Hi, numOr_num, clamp_num, (normalizeHex_canonical _ Hh).
  rewrite Z.min_r, Z.max_r by lia. reflexivity.
Qed.

Lemma mapM_decode_payload l :
  Forall (fun x => canonicalHex (hex x)) l ->
  Forall (fun x => exists z, 0 <= z <= 999999 /\ index x = num z) l ->
  forall w, exists l' w',
    mapM decodeItem (map jsonItem l) w = (inr l', w')
    /\ map triple l' = map triple l.
Proof.
  induction l as [|x l IH]; intros Hh Hi w.
  - exists [], w. split; reflexivity.
  - inversion Hh as [|? ? Hhx Hhl]; subst. inversion Hi as [|? ? [z [Hz Hix]] Hil]; subst.
    cbn [map mapM]. unfold bind at 1.
    rewrite (decodeItem_jsonItem x w z Hhx Hix Hz).
    destruct (IH Hhl Hil (countId w)) as [l' [w' [Hm Ht]]].
    unfold bind, ret. rewrite Hm.
    eexists _, _. split; [reflexivity|].
    cbn [map]. rewrite Ht. reflexivity.
Qed.

(** C1: saving as JSON and loading the document again.  For a list of items
    that is not empty, whose colors are canonical, whose indices are integers
    from 0 to 999999 and which is in ascending order of index, loading the
    document that the save handler builds succeeds and leaves in the store
    items with the same name, index and color, in the same order. *)
Theorem json_round_trip (l : list PaletteItem) (w : World) :
  l <> [] ->
  Forall (fun x => canonicalHex (hex x)) l ->
  Forall (fun x => exists z, 0 <= z <= 999999 /\ index x = num z) l ->
  ascending l ->
  outcome (loadJson (savePayload l)) w = inr tt
  /\ map triple (items (after (loadJson (savePayload l)) w)) = map triple l.
Proof.
  intros _ Hh Hi Hs.
  pose proof (loadJson_run (savePayload l) w) as H.
  change (isPaletteV1 (savePayload l))
    with (Some (map jsonItem (sortBy byIndex l))) in H.
  rewrite (sortBy_ascending l Hs) in H.
  destruct (mapM_decode_payload l Hh Hi w) as [l' [w' [Hm Ht]]].
  rewrite Hm in H. destruct H as [Ho Hitems].
  split; [exact Ho|]. rewrite Hitems. exact Ht.
Qed.

(** ** Loading never leaves a half-built store *)

Lemma mapM_makeId_ok {A} (g : str -> A -> PaletteItem) (l : list A) :
  forall w, exists l' w',
    mapM (fun x => bind makeId (fun i => ret (g i x))) l w = (inr l', w').
Proof.
  induction l as [|x l IH]; intros w.
  - eexists _, _. reflexivity.
  - destruct (IH (countId w)) as [l' [w' Hm]].
    cbn [mapM]. unfold bind, makeId, ret in *. rewrite Hm.
    eexists _, _. reflexivity.
Qed.

Lemma loadGpl_ok text w : outcome (loadGpl text) w = inr tt.
Proof.
  unfold outcome, loadGpl.
  destruct (mapM_makeId_ok
              (fun i x => {| id := i; name := fname x; index := findex x;
                             hex := normalizeHex (fhex x) |})
              (parseGpl text) w) as [l' [w' Hm]].
  unfold bind at 1. rewrite Hm. reflexivity.
Qed.

Lemma loadJson_error_items data w e :
  outcome (loadJson data) w = inl e ->
  items (after (loadJson data) w) = items w.
Proof.
  intros Ho. pose proof (loadJson_run data w) as H.
  destruct (isPaletteV1 data) as [l|].
  - pose proof (mapM_decodeItem_items l w) as Hi.
    destruct (mapM decodeItem l w) as [[e'|newItems] w1].
    + unfold after. rewrite H. exact Hi.
    + destruct H as [H _]. rewrite H in Ho. discriminate.
  - unfold after. rewrite H. reflexivity.
Qed.

Lemma loadBody_error_items f w e :
  outcome (loadBody f) w = inl e ->
  items (after (loadBody f) w) = items w.
Proof.
  unfold loadBody.
  destruct (endsWith (toLowerCase (fileName f)) (lit ".gpl")).
  - rewrite loadGpl_ok. discriminate.
  - unfold outcome, after, bind, liftE.
    destruct (JSON_parse E (fileText f)) as [m|data]; [reflexivity|].
    apply loadJson_error_items.
Qed.

(** C6: when decoding the chosen file raises, the store holds after the
    handler exactly the items it held before: the new collection replaces the
    old one only once it is complete. *)
Theorem load_failure_keeps_items (f : File) (w : World) (e : exn) :
  outcome (loadBody f) w = inl e ->
  items (after (fileInput_change (Some f)) w) = items w
  /\ statusMsg (after (fileInput_change (Some f)) w)
     = lit "Load error: " ++ exnMessage e.
Proof.
  intros Ho. pose proof (loadBody_error_items f w e Ho) as Hi.
  unfold after, outcome, fileInput_change, tryCatch in *.
  destruct (loadBody f w) as [[e'|[]] w1]; [|discriminate].
  cbn [fst snd] in *. injection Ho as ->. split; [exact Hi|reflexivity].
Qed.

(** ** Decoding one element of [items] *)

Lemma clamp_range n :
  isNaN n = false ->
  numLe (num 0) (clamp n (num 0) (num 999999)) = true
  /\ numLe (clamp n (num 0) (num 999999)) (num 999999) = true.
Proof.
  intros Hn. unfold clamp, Math_min. rewrite Hn.
  change (isNaN (num 999999) || false) with false. cbv iota.
  destruct (numLe n (num 999999)) eqn:H1; unfold Math_max.
  - rewrite Hn. change (isNaN (num 0) || false) with false. cbv iota.
    destruct (numLe (num 0) n) eqn:H2; [split; assumption|].
    split; reflexivity.
  - split; reflexivity.
Qed.

Lemma numOr_not_NaN n : isNaN (numOr n (num 0)) = false.
Proof.
  unfold numOr. destruct n as [|s|q]; try reflexivity.
  destruct (numTruthy (Fin q)); reflexivity.
Qed.

Lemma normalizeHex_empty : normalizeHex [] = lit "#000000".
Proof. reflexivity. Qed.

Lemma decodeItem_ok x w it :
  outcome (decodeItem x) w = inr it ->
  exists nm n hx,
    ToString (orElse (field x (lit "name")) (JStr [])) = inr nm
    /\ ToNumber (field x (lit "index")) = inr n
    /\ ToString (orElse (field x (lit "hex")) (JStr (lit "#000000"))) = inr hx
    /\ it = {| id := idSource E (idCalls w); name := nm;
               index := clamp (numOr n (num 0)) (num 0) (num 999999);
               hex := normalizeHex hx |}.
Proof.
  unfold outcome. rewrite decodeItem_run. cbn [fst].
  assert (Hf : forall k, x <> JNull -> getField x k = inr (field x k)).
  { intros k Hx. destruct x; try reflexivity. congruence. }
  assert (Hx : x = JNull \/ x <> JNull)
    by (destruct x; (left; reflexivity) || (right; discriminate)).
  destruct Hx as [->|Hx]; [cbn; intros K; discriminate K|].
  rewrite !Hf by exact Hx.
  destruct (ToString (orElse (field x (lit "name")) (JStr []))) as [?|nm];
    [discriminate|].
  destruct (ToNumber (field x (lit "index"))) as [?|n]; [discriminate|].
  destruct (ToString (orElse (field x (lit "hex")) (JStr (lit "#000000"))))
    as [?|hx]; [discriminate|].
  intros [= <-]; exists nm, n, hx; repeat split; reflexivity.
Qed.

Lemma decodeItem_null w :
  outcome (decodeItem JNull) w = inl (TypeError (typeErrorMessage E)).
Proof. reflexivity. Qed.

(** C7 (amended): an element of [items] that is decoded without an error
    gives an item whose name is the element's name when that is text, the
    empty text when the name is absent or falsy (null, false, zero, empty),
    and the text that String gives for any other value; whose index is the
    number that Number gives for the element's index, zero standing in for
    NaN and for an absent index, clamped to the range from 0 to 999999; and
    whose color is the normalized text of the element's color, [#000000]
    standing in for an absent or falsy one. *)
Theorem decodeItem_coercions (x : json) (w : World) (it : PaletteItem) :
  outcome (decodeItem x) w = inr it ->
  (forall s, field x (lit "name") = Some (JStr s) -> name it = s)
  /\ (field x (lit "name") = None -> name it = [])
  /\ (forall v, field x (lit "name") = Some v ->
        if jsonTruthy v then ToString v = inr (name it) else name it = [])
  /\ (exists n, ToNumber (field x (lit "index")) = inr n
        /\ index it = clamp (numOr n (num 0)) (num 0) (num 999999))
  /\ (forall n, field x (lit "index") = Some (JNum n) ->
        index it = clamp (numOr n (num 0)) (num 0) (num 999999))
  /\ (field x (lit "index") = None -> index it = num 0)
  /\ (numLe (num 0) (index it) = true /\ numLe (index it) (num 999999) = true)
  /\ (forall s, field x (lit "hex") = Some (JStr s) -> hex it = normalizeHex s)
  /\ (field x (lit "hex") = None -> hex it = lit "#000000")
  /\ (forall v, field x (lit "hex") = Some v ->
        if jsonTruthy v
        then exists t, ToString v = inr t /\ hex it = normalizeHex t
        else hex it = lit "#000000").
Proof.
  intros Ho.
  destruct (decodeItem_ok x w it Ho) as [nm [n [hx [Hnm [Hn [Hhx ->]]]]]].
  cbn [name index hex]. unfold orElse in Hnm, Hhx.
  repeat split.
  - intros s Hs. rewrite Hs in Hnm. destruct s; cbn in Hnm; congruence.
  - intros Hs. rewrite Hs in Hnm. cbn in Hnm. congruence.
  - intros v Hv. rewrite Hv in Hnm.
    destruct (jsonTruthy v); [exact Hnm|cbn in Hnm; congruence].
  - exists n. split; [exact Hn|reflexivity].
  - intros m Hm. rewrite Hm in Hn. cbn in Hn. congruence.
  - intros Hm. rewrite Hm in Hn. cbn in Hn. injection Hn as <-. reflexivity.
  - apply clamp_range, numOr_not_NaN.
  - apply clamp_range, numOr_not_NaN.
  - intros s Hs. rewrite Hs in Hhx.
    destruct s; cbn in Hhx; injection Hhx as <-; reflexivity.
  - intros Hs. rewrite Hs in Hhx. cbn in Hhx. injection Hhx as <-. reflexivity.
  - intros v Hv. rewrite Hv in Hhx.
    destruct (jsonTruthy v); [eauto|].
    cbn in Hhx. injection Hhx as <-. reflexivity.
Qed.

(** ** GPL: the loop of [parseGpl] *)

Lemma parseGplLoop_out lines :
  forall out idx,
    parseGplLoop lines out idx = out ++ parseGplLoop lines [] idx.
Proof.
  induction lines as [|raw rest IH]; intros out idx; cbn [parseGplLoop].
  - rewrite app_nil_r. reflexivity.
  - destruct (gplItem idx raw) as [it|].
    + rewrite (IH (out ++ [it])), (IH ([] ++ [it])), <- app_assoc. reflexivity.
    + apply IH.
Qed.

Lemma parseGplLoop_app l1 l2 :
  forall idx,
    parseGplLoop (l1 ++ l2) [] idx
    = parseGplLoop l1 [] idx
      ++ parseGplLoop l2 [] (idx + Z.of_nat (length (parseGplLoop l1 [] idx))).
Proof.
  induction l1 as [|raw rest IH]; intros idx; cbn [app parseGplLoop length].
  - rewrite Z.add_0_r. reflexivity.
  - destruct (gplItem idx raw) as [it|].
    + rewrite (parseGplLoop_out (rest ++ l2)), (parseGplLoop_out rest).
      rewrite IH, length_app, <- app_assoc. cbn [length app].
      do 3 f_equal. lia.
    + apply IH.
Qed.

(** Whether a line is accepted does not depend on the counter. *)
Lemma gplItem_none_counter i j raw : gplItem i raw = None -> gplItem j raw = None.
Proof.
  unfold gplItem.
  destruct (isEmpty (trim raw)); [reflexivity|].
  destruct (startsWith (trim raw) (lit "#")); [reflexivity|].
  destruct (startsWith (trim raw) (lit "GIMP Palette")); [reflexivity|].
  destruct (startsWith (trim raw) (lit "Name:")); [reflexivity|].
  destruct (startsWith (trim raw) (lit "Columns:")); [reflexivity|].
  destruct (matchGplLine (trim raw)) as [[[[m1 m2] m3] m4]|]; [discriminate|reflexivity].
Qed.

Lemma gplItem_no_match idx raw :
  matchGplLine (trim raw) = None -> gplItem idx raw = None.
Proof.
  intros H. unfold gplItem. rewrite H.
  destruct (isEmpty (trim raw)); [reflexivity|].
  destruct (startsWith (trim raw) (lit "#")); [reflexivity|].
  destruct (startsWith (trim raw) (lit "GIMP Palette")); [reflexivity|].
  destruct (startsWith (trim raw) (lit "Name:")); [reflexivity|].
  destruct (startsWith (trim raw) (lit "Columns:")); reflexivity.
Qed.

Lemma gplItem_index idx raw it : gplItem idx raw = Some it -> findex it = num idx.
Proof.
  unfold gplItem.
  destruct (isEmpty (trim raw)); [discriminate|].
  destruct (startsWith (trim raw) (lit "#")); [discriminate|].
  destruct (startsWith (trim raw) (lit "GIMP Palette")); [discriminate|].
  destruct (startsWith (trim raw) (lit "Name:")); [discriminate|].
  destruct (startsWith (trim raw) (lit "Columns:")); [discriminate|].
  destruct (matchGplLine (trim raw)) as [[[[m1 m2] m3] m4]|]; [|discriminate].
  intros [= <-]. reflexivity.
Qed.

(** C4: [parseGpl] is a total function, so no text makes it raise.  A line
    that fails the pattern of three integers and a name is passed over and the
    counter stays: the result is that of the text without the line; with one
    entry before the line and one after it, the result is these two items,
    with the indices 0 and 1. *)
Theorem parseGpl_skips_malformed (text : str) (l1 l2 : list str) (bad : str) :
  gplLines text = l1 ++ bad :: l2 ->
  matchGplLine (trim bad) = None ->
  (forall out idx, parseGplLoop (bad :: l2) out idx = parseGplLoop l2 out idx)
  /\ parseGpl text = parseGplLoop (l1 ++ l2) [] 0
  /\ (forall v1 v2 a b,
        l1 = [v1] -> l2 = [v2] ->
        gplItem 0 v1 = Some a -> gplItem 1 v2 = Some b ->
        parseGpl text = [a; b] /\ findex a = num 0 /\ findex b = num 1).
Proof.
  intros Hl Hbad.
  assert (Hskip : forall out idx,
             parseGplLoop (bad :: l2) out idx = parseGplLoop l2 out idx).
  { intros out idx. cbn [parseGplLoop].
    rewrite (gplItem_no_match idx bad Hbad). reflexivity. }
  assert (Heq : parseGpl text = parseGplLoop (l1 ++ l2) [] 0).
  { unfold parseGpl. rewrite Hl, !parseGplLoop_app, Hskip. reflexivity. }
  split; [exact Hskip|]. split; [exact Heq|].
  intros v1 v2 a b -> -> Ha Hb. rewrite Heq.
  cbn [app parseGplLoop]. rewrite Ha.
  change (0 + 1) with 1. cbn [parseGplLoop app]. rewrite Hb.
  split; [reflexivity|]. split; eapply gplItem_index; eassumption.
Qed.

(** ** GPL: names *)

Lemma spaced_collapse s : forall b, spaced b (collapseFrom b s) = true.
Proof.
  induction s as [|c s IH]; intros b; cbn [collapseFrom]; [reflexivity|].
  destruct (isWhiteSpace c) eqn:Hc.
  - destruct b; [apply IH|].
    cbn [spaced]. change (isWhiteSpace SP) with true. cbv iota.
    rewrite (IH true). reflexivity.
  - cbn [spaced]. rewrite Hc. apply IH.
Qed.

Lemma spaced_true_head s : spaced true s = true -> trimStart s = s.
Proof.
  destruct s as [|c s]; [reflexivity|]. cbn [spaced]. unfold trimStart.
  cbn [dropWhile]. destruct (isWhiteSpace c); [discriminate|reflexivity].
Qed.

Lemma spaced_trimStart s : spaced false s = true -> spaced true (trimStart s) = true.
Proof.
  destruct s as [|c s]; [reflexivity|]. cbn [spaced]. unfold trimStart.
  cbn [dropWhile]. destruct (isWhiteSpace c) eqn:Hc.
  - intros H. apply andb_true_iff in H as [_ H].
    fold (trimStart s). rewrite (spaced_true_head s H). exact H.
  - intros H. cbn [spaced]. rewrite Hc. exact H.
Qed.

Lemma cleanFrom_nonempty s : cleanFrom true s = true -> s <> [].
Proof. destruct s; [discriminate|]. intros _. discriminate. Qed.

Lemma spaced_trimEnd s :
  forall b, spaced b s = true ->
            trimEnd s = [] \/ cleanFrom b (trimEnd s) = true.
Proof.
  induction s as [|c s IH]; intros b; cbn [spaced trimEnd]; [left; reflexivity|].
  destruct (isWhiteSpace c) eqn:Hc.
  - intros H. apply andb_true_iff in H as [H Hs].
    destruct (IH true Hs) as [He|Hcl].
    + left. rewrite He. reflexivity.
    + right. destruct (trimEnd s) as [|d t] eqn:Et; [discriminate Hcl|].
      cbn [cleanFrom]. rewrite Hc, H. exact Hcl.
  - intros Hs. right. destruct (IH false Hs) as [He|Hcl].
    + rewrite He. cbn [cleanFrom]. rewrite Hc. reflexivity.
    + destruct (trimEnd s) as [|d t] eqn:Et.
      * cbn [cleanFrom]. rewrite Hc. reflexivity.
      * cbn [cleanFrom]. rewrite Hc. exact Hcl.
Qed.

Lemma hasNonWs_collapse s : forall b, hasNonWs (collapseFrom b s) = hasNonWs s.
Proof.
  induction s as [|c s IH]; intros b; [reflexivity|].
  cbn [collapseFrom]. unfold hasNonWs in *. cbn [existsb].
  destruct (isWhiteSpace c) eqn:Hc; cbn [negb orb].
  - destruct b; [apply IH|]. cbn [existsb].
    change (isWhiteSpace SP) with true. cbn [negb orb]. apply IH.
  - cbn [existsb]. rewrite Hc. reflexivity.
Qed.

Lemma hasNonWs_trimStart s : hasNonWs (trimStart s) = hasNonWs s.
Proof.
  induction s as [|c s IH]; [reflexivity|].
  unfold trimStart, hasNonWs in *. cbn [dropWhile existsb].
  destruct (isWhiteSpace c) eqn:Hc; cbn [negb orb]; [exact IH|].
  cbn [existsb]. rewrite Hc. reflexivity.
Qed.

Lemma hasNonWs_trimEnd s : hasNonWs (trimEnd s) = hasNonWs s.
Proof.
  induction s as [|c s IH]; [reflexivity|].
  unfold hasNonWs in *. cbn [trimEnd existsb].
  destruct (trimEnd s) as [|d t] eqn:Et.
  - rewrite <- IH. destruct (isWhiteSpace c) eqn:Hc; cbn [existsb negb orb];
      [reflexivity|]. rewrite Hc. reflexivity.
  - cbn [existsb] in *. rewrite IH. reflexivity.
Qed.

Lemma hasNonWs_trim s : hasNonWs (trim s) = hasNonWs s.
Proof. unfold trim. rewrite hasNonWs_trimEnd. apply hasNonWs_trimStart. Qed.

Lemma trim_empty_or_nonWs s : trim s = [] \/ hasNonWs (trim s) = true.
Proof.
  unfold trim. generalize (trimStart s) as u. clear s.
  induction u as [|c u IH]; [left; reflexivity|].
  cbn [trimEnd]. destruct (trimEnd u) as [|d t] eqn:Et.
  - destruct (isWhiteSpace c) eqn:Hc; [left; reflexivity|].
    right. unfold hasNonWs. cbn [existsb]. rewrite Hc. reflexivity.
  - right. destruct IH as [IH|IH]; [discriminate IH|].
    unfold hasNonWs in *. cbn [existsb] in *.
    rewrite IH. apply orb_true_r.
Qed.

(** The name written by [toGpl] for a name that is not blank is clean. *)
Lemma written_name_clean n :
  hasNonWs n = true -> clean (trim (collapseWs n)) = true.
Proof.
  intros Hn. unfold clean, trim, collapseWs.
  pose proof (spaced_collapse n false) as H1.
  apply spaced_trimStart in H1.
  destruct (spaced_trimEnd _ true H1) as [He|Hc]; [|exact Hc].
  exfalso.
  assert (K : hasNonWs (trimEnd (trimStart (collapseFrom false n))) = true).
  { rewrite hasNonWs_trimEnd, hasNonWs_trimStart, hasNonWs_collapse. exact Hn. }
  rewrite He in K. discriminate K.
Qed.

Lemma cleanFrom_collapse s : forall b, cleanFrom b s = true -> collapseFrom b s = s.
Proof.
  induction s as [|c s IH]; intros b; [reflexivity|].
  cbn [cleanFrom collapseFrom]. destruct (isWhiteSpace c) eqn:Hc.
  - intros H. apply andb_true_iff in H as [H Hs]. apply andb_true_iff in H as [Hb Hsp].
    apply negb_true_iff in Hb. subst b. apply N.eqb_eq in Hsp. subst c.
    rewrite (IH true Hs). reflexivity.
  - intros Hs. rewrite (IH false Hs). reflexivity.
Qed.

Lemma cleanFrom_trimEnd s : forall b, cleanFrom b s = true -> trimEnd s = s.
Proof.
  induction s as [|c s IH]; intros b; [reflexivity|].
  cbn [cleanFrom trimEnd]. destruct (isWhiteSpace c) eqn:Hc.
  - intros H. apply andb_true_iff in H as [_ Hs].
    rewrite (IH true Hs). destruct s; [discriminate Hs|reflexivity].
  - intros Hs. rewrite (IH false Hs). destruct s; reflexivity.
Qed.

Lemma clean_head c : clean c = true ->
  exists x c', c = x :: c' /\ isWhiteSpace x = false.
Proof.
  destruct c as [|x c']; [discriminate|]. unfold clean. cbn [cleanFrom].
  destruct (isWhiteSpace x) eqn:Hx; [discriminate|]. eauto.
Qed.

Lemma clean_trim c : clean c = true -> trim c = c.
Proof.
  intros H. unfold trim. destruct (clean_head c H) as [x [c' [-> Hx]]].
  rewrite trimStart_head by exact Hx. apply (cleanFrom_trimEnd _ true H).
Qed.

Lemma clean_collapse c : clean c = true -> collapseWs c = c.
Proof.
  intros H. destruct (clean_head c H) as [x [c' [-> Hx]]].
  unfold clean, collapseWs in *. cbn [cleanFrom collapseFrom] in *.
  rewrite Hx in *. rewrite (cleanFrom_collapse c' false H). reflexivity.
Qed.

(** Writing a clean name gives the name itself. *)
Lemma clean_written c : clean c = true -> trim (collapseWs c) = c.
Proof. intros H. rewrite (clean_collapse c H). apply clean_trim, H. Qed.

Lemma cleanFrom_blanks s :
  forall b, cleanFrom b s = true ->
            forallb (fun x => negb (isWhiteSpace x) || (x =? SP)%N) s = true.
Proof.
  induction s as [|c s IH]; intros b; [reflexivity|].
  cbn [cleanFrom forallb]. destruct (isWhiteSpace c) eqn:Hc.
  - intros H. apply andb_true_iff in H as [H Hs]. apply andb_true_iff in H as [_ Hsp].
    rewrite Hsp, (IH true Hs). reflexivity.
  - intros Hs. rewrite (IH false Hs). reflexivity.
Qed.

Lemma trimEnd_app a c : trimEnd c <> [] -> trimEnd (a ++ c) = a ++ trimEnd c.
Proof.
  intros Hc. induction a as [|x a IH]; [reflexivity|].
  cbn [app trimEnd]. rewrite IH.
  destruct (a ++ trimEnd c) eqn:Ea; [|reflexivity].
  apply app_eq_nil in Ea as [_ Ea]. contradiction.
Qed.

(** ** GPL: channels *)

Lemma numSame_eq a b : numSame a b = true -> a = b.
Proof.
  destruct a as [|s|[xn xd]], b as [|t|[yn yd]]; cbn; try discriminate;
    try reflexivity.
  - intros H. apply eqb_prop in H. subst. reflexivity.
  - intros H. apply andb_true_iff in H as [H1 H2].
    apply Z.eqb_eq in H1. apply Pos.eqb_eq in H2. subst. reflexivity.
Qed.

Lemma channelOk_all : forallb channelOk (map Z.of_nat (seq 0 256)) = true.
Proof. vm_compute. reflexivity. Qed.

Lemma channel_ok z : channel z -> channelOk z = true.
Proof.
  intros Hz. unfold channel in Hz. pose proof channelOk_all as H.
  rewrite forallb_forall in H. apply H.
  apply in_map_iff. exists (Z.to_nat z). split; [lia|].
  apply in_seq. lia.
Qed.

Lemma Number_toString_num radix z :
  Z.abs z < 10 ^ 21 -> Number_toString radix (num z) = intToString radix z.
Proof.
  intros Hz. unfold Number_toString, num, isInteger, integerPart, inject_Z.
  cbn [Qnum Qden]. rewrite Z.mod_1_r, Z.div_1_r. cbn [Z.eqb andb].
  apply Z.ltb_lt in Hz. rewrite Hz. reflexivity.
Qed.

(** The two hexadecimal digits of a channel, in upper case. *)
Lemma channel_hex z :
  channel z ->
  exists a b,
    toUpperCase (hex2 z) = [a; b]
    /\ isHexDigit a = true /\ isHexDigit b = true
    /\ upperCu a = a /\ upperCu b = b
    /\ parseInt [a; b] 16 = num z.
Proof.
  intros Hz. pose proof (channel_ok z Hz) as H. unfold channelOk in H.
  repeat (apply andb_true_iff in H as [H ?]).
  destruct (toUpperCase (hex2 z)) as [|a [|b [|c t]]] eqn:Eh; try discriminate H.
  exists a, b. cbn [forallb] in *.
  repeat match goal with
         | K : _ && _ = true |- _ => apply andb_true_iff in K as [? ?]
         end.
  match goal with K : str_eqb _ _ = true |- _ => apply str_eqb_eq in K; injection K as Ha Hb end.
  match goal with K : numSame (parseInt _ 16) _ = true |- _ => apply numSame_eq in K end.
  repeat split; assumption.
Qed.

(** The decimal digits of a channel. *)
Lemma channel_dec z :
  channel z ->
  exists d0 d,
    intToString 10 z = d0 :: d
    /\ isDigit d0 = true /\ forallb isDigit d = true
    /\ (length (d0 :: d) <= 3)%nat
    /\ clamp (numOr (parseInt (d0 :: d) 10) (num 0)) (num 0) (num 255) = num z.
Proof.
  intros Hz. pose proof (channel_ok z Hz) as H. unfold channelOk in H.
  repeat (apply andb_true_iff in H as [H ?]).
  destruct (intToString 10 z) as [|d0 d] eqn:Ed; [discriminate|].
  exists d0, d. cbn [forallb] in *.
  repeat match goal with
         | K : _ && _ = true |- _ => apply andb_true_iff in K as [? ?]
         end.
  match goal with K : numSame (clamp _ _ _) _ = true |- _ => apply numSame_eq in K end.
  match goal with K : (_ <=? _)%nat = true |- _ => apply Nat.leb_le in K end.
  repeat split; assumption.
Qed.

Lemma channel_small z : channel z -> Z.abs z < 10 ^ 21.
Proof. unfold channel. intros H. rewrite Z.abs_eq by lia. lia. Qed.

Lemma hexOf_digits r g b :
  channel r -> channel g -> channel b ->
  exists r1 r2 g1 g2 b1 b2,
    hexOf r g b = [35%N; r1; r2; g1; g2; b1; b2]
    /\ Forall (fun c => isHexDigit c = true /\ upperCu c = c) [r1; r2; g1; g2; b1; b2]
    /\ parseInt [r1; r2] 16 = num r
    /\ parseInt [g1; g2] 16 = num g
    /\ parseInt [b1; b2] 16 = num b.
Proof.
  intros Hr Hg Hb.
  destruct (channel_hex r Hr) as [r1 [r2 [Er [? [? [? [? Pr]]]]]]].
  destruct (channel_hex g Hg) as [g1 [g2 [Eg [? [? [? [? Pg]]]]]]].
  destruct (channel_hex b Hb) as [b1 [b2 [Eb [? [? [? [? Pb]]]]]]].
  exists r1, r2, g1, g2, b1, b2. split; [|split; [|auto]].
  - unfold hexOf, toUpperCase in *. rewrite !map_app, Er, Eg, Eb. reflexivity.
  - repeat constructor; assumption.
Qed.

Lemma hexOf_canonical r g b :
  channel r -> channel g -> channel b -> canonicalHex (hexOf r g b).
Proof.
  intros Hr Hg Hb.
  destruct (hexOf_digits r g b Hr Hg Hb) as [r1 [r2 [g1 [g2 [b1 [b2 [-> [Hf _]]]]]]]].
  repeat match goal with
         | K : Forall _ (_ :: _) |- _ => inversion K; clear K; subst
         | K : _ /\ _ |- _ => destruct K
         end.
  split.
  - unfold testHexColor. cbn [length forallb].
    repeat match goal with K : isHexDigit _ = true |- _ => rewrite K; clear K end.
    reflexivity.
  - unfold toUpperCase. cbn [map]. change (upperCu 35) with 35%N. congruence.
Qed.

Lemma hexToRgb_hexOf r g b :
  channel r -> channel g -> channel b ->
  hexToRgb (hexOf r g b) = (num r, num g, num b).
Proof.
  intros Hr Hg Hb. unfold hexToRgb.
  rewrite (normalizeHex_canonical _ (hexOf_canonical r g b Hr Hg Hb)).
  destruct (hexOf_digits r g b Hr Hg Hb)
    as [r1 [r2 [g1 [g2 [b1 [b2 [-> [_ [Pr [Pg Pb]]]]]]]]]].
  unfold sliceFrom, slice. cbn [skipn firstn Nat.sub].
  rewrite Pr, Pg, Pb. reflexivity.
Qed.

(** ** GPL: reading an entry line back *)

Lemma takeWhile_app {A} (p : A -> bool) a b :
  forallb p a = true -> takeWhile p (a ++ b) = a ++ takeWhile p b.
Proof.
  induction a as [|x a IH]; cbn [forallb app takeWhile]; [reflexivity|].
  intros H. apply andb_true_iff in H as [Hx Ha]. rewrite Hx, (IH Ha). reflexivity.
Qed.

Lemma dropWhile_app {A} (p : A -> bool) a b :
  forallb p a = true -> dropWhile p (a ++ b) = dropWhile p b.
Proof.
  induction a as [|x a IH]; cbn [forallb app dropWhile]; [reflexivity|].
  intros H. apply andb_true_iff in H as [Hx Ha]. rewrite Hx. exact (IH Ha).
Qed.

(** A run of [p] followed by a block that starts outside [p]. *)
Lemma run_then {A} (p : A -> bool) a x rest :
  forallb p a = true -> p x = false ->
  takeWhile p (a ++ x :: rest) = a /\ dropWhile p (a ++ x :: rest) = x :: rest.
Proof.
  intros Ha Hx. rewrite takeWhile_app, dropWhile_app by exact Ha.
  cbn [takeWhile dropWhile]. rewrite Hx, app_nil_r. split; reflexivity.
Qed.

Lemma ws_not_digit c : isWhiteSpace c = true -> isDigit c = false.
Proof.
  intros H. destruct (isDigit c) eqn:Hd; [|reflexivity].
  rewrite (isDigit_not_ws c Hd) in H. discriminate.
Qed.

Lemma matchGplLine_blocks d1 D1 w1 W1 d2 D2 w2 W2 d3 D3 w3 W3 x c :
  forallb isDigit (d1 :: D1) = true -> forallb isWhiteSpace (w1 :: W1) = true ->
  forallb isDigit (d2 :: D2) = true -> forallb isWhiteSpace (w2 :: W2) = true ->
  forallb isDigit (d3 :: D3) = true -> forallb isWhiteSpace (w3 :: W3) = true ->
  isWhiteSpace x = false ->
  forallb (fun c => negb (isLineTerminator c)) (x :: c) = true ->
  matchGplLine ((d1 :: D1) ++ (w1 :: W1) ++ (d2 :: D2) ++ (w2 :: W2)
                ++ (d3 :: D3) ++ (w3 :: W3) ++ x :: c)
  = Some (d1 :: D1, d2 :: D2, d3 :: D3, x :: c).
Proof.
  intros HD1 HW1 HD2 HW2 HD3 HW3 Hx Hc.
  assert (Hw : forall w W, forallb isWhiteSpace (w :: W) = true -> isDigit w = false).
  { intros w W H. cbn [forallb] in H. apply andb_true_iff in H as [H _].
    apply ws_not_digit, H. }
  assert (Hd : forall d D, forallb isDigit (d :: D) = true -> isWhiteSpace d = false).
  { intros d D H. cbn [forallb] in H. apply andb_true_iff in H as [H _].
    apply isDigit_not_ws, H. }
  unfold matchGplLine.
  (* first group and the blanks after it *)
  change ((w1 :: W1) ++ (d2 :: D2) ++ (w2 :: W2) ++ (d3 :: D3) ++ (w3 :: W3) ++ x :: c)
    with (w1 :: (W1 ++ (d2 :: D2) ++ (w2 :: W2) ++ (d3 :: D3) ++ (w3 :: W3) ++ x :: c)).
  destruct (run_then isDigit (d1 :: D1) w1
              (W1 ++ (d2 :: D2) ++ (w2 :: W2) ++ (d3 :: D3) ++ (w3 :: W3) ++ x :: c)
              HD1 (Hw _ _ HW1)) as [-> ->].
  change (w1 :: W1 ++ (d2 :: D2) ++ (w2 :: W2) ++ (d3 :: D3) ++ (w3 :: W3) ++ x :: c)
    with ((w1 :: W1) ++ d2 :: (D2 ++ (w2 :: W2) ++ (d3 :: D3) ++ (w3 :: W3) ++ x :: c)).
  destruct (run_then isWhiteSpace (w1 :: W1) d2
              (D2 ++ (w2 :: W2) ++ (d3 :: D3) ++ (w3 :: W3) ++ x :: c)
              HW1 (Hd _ _ HD2)) as [-> ->].
  (* second group *)
  change (d2 :: D2 ++ (w2 :: W2) ++ (d3 :: D3) ++ (w3 :: W3) ++ x :: c)
    with ((d2 :: D2) ++ w2 :: (W2 ++ (d3 :: D3) ++ (w3 :: W3) ++ x :: c)).
  destruct (run_then isDigit (d2 :: D2) w2
              (W2 ++ (d3 :: D3) ++ (w3 :: W3) ++ x :: c)
              HD2 (Hw _ _ HW2)) as [-> ->].
  change (w2 :: W2 ++ (d3 :: D3) ++ (w3 :: W3) ++ x :: c)
    with ((w2 :: W2) ++ d3 :: (D3 ++ (w3 :: W3) ++ x :: c)).
  destruct (run_then isWhiteSpace (w2 :: W2) d3
              (D3 ++ (w3 :: W3) ++ x :: c)
              HW2 (Hd _ _ HD3)) as [-> ->].
  (* third group and the rest *)
  change (d3 :: D3 ++ (w3 :: W3) ++ x :: c)
    with ((d3 :: D3) ++ w3 :: (W3 ++ x :: c)).
  destruct (run_then isDigit (d3 :: D3) w3 (W3 ++ x :: c)
              HD3 (Hw _ _ HW3)) as [-> ->].
  change (w3 :: W3 ++ x :: c) with ((w3 :: W3) ++ x :: c).
  destruct (run_then isWhiteSpace (w3 :: W3) x c HW3 Hx) as [_ ->].
  cbn [isEmpty negb andb]. rewrite Hc. reflexivity.
Qed.

Lemma trimStart_spaces k s : trimStart (repeat SP k ++ s) = trimStart s.
Proof.
  unfold trimStart. apply dropWhile_app.
  induction k as [|k IH]; [reflexivity|]. cbn [repeat forallb].
  change (isWhiteSpace SP) with true. exact IH.
Qed.

Lemma forallb_spaces k : forallb isWhiteSpace (SP :: repeat SP k) = true.
Proof. induction k as [|k IH]; [reflexivity|]. exact IH. Qed.

Lemma startsWith_digit d s p :
  isDigit d = true ->
  match p with [] => false | p0 :: _ => negb (isDigit p0) end = true ->
  startsWith (d :: s) p = false.
Proof.
  intros Hd Hp. destruct p as [|p0 p]; [discriminate|]. cbn [startsWith].
  apply negb_true_iff in Hp.
  destruct (N.eqb_spec p0 d) as [->|_]; [congruence|reflexivity].
Qed.

Lemma clean_no_terminator c :
  clean c = true -> forallb (fun x => negb (isLineTerminator x)) c = true.
Proof.
  intros H. pose proof (cleanFrom_blanks c true H) as Hb.
  rewrite forallb_forall in *. intros x Hx. specialize (Hb x Hx).
  apply negb_true_iff. destruct (isLineTerminator x) eqn:Hl; [|reflexivity].
  rewrite (lineTerminator_ws x Hl) in Hb. cbn [negb orb] in Hb.
  apply N.eqb_eq in Hb. subst x. discriminate Hl.
Qed.

(** Nothing is trimmed from the end of [s]. *)
Lemma kept_cons y s : kept s -> kept (y :: s).
Proof.
  intros [H Hn]. split; [|discriminate].
  cbn [trimEnd]. rewrite H. destruct s; [contradiction|reflexivity].
Qed.

Lemma kept_app a s : kept s -> kept (a ++ s).
Proof.
  intros [H Hn]. split.
  - rewrite trimEnd_app, H by (rewrite H; exact Hn). reflexivity.
  - intros K. apply app_eq_nil in K as [_ K]. contradiction.
Qed.

(** An entry line is read back as the entry it was written from. *)
Lemma gplItem_entry idx r g b c :
  goodEntry (r, g, b, c) ->
  gplItem idx (entryLine (r, g, b, c))
  = Some {| fname := c; findex := num idx; fhex := hexOf r g b |}.
Proof.
  intros [Hr [Hg [Hb Hc]]].
  destruct (channel_dec r Hr) as [r0 [dr [Er [Hr0 [Hdr [_ Pr]]]]]].
  destruct (channel_dec g Hg) as [g0 [dg [Eg [Hg0 [Hdg [_ Pg]]]]]].
  destruct (channel_dec b Hb) as [b0 [db [Eb [Hb0 [Hdb [_ Pb]]]]]].
  destruct (clean_head c Hc) as [x [c' [Ec Hx]]].
  set (kr := (3 - length (r0 :: dr))%nat).
  set (kg := (3 - length (g0 :: dg))%nat).
  set (kb := (3 - length (b0 :: db))%nat).
  assert (Hline : trim (entryLine (r, g, b, c))
                  = (r0 :: dr) ++ (SP :: repeat SP kg) ++ (g0 :: dg)
                    ++ (SP :: repeat SP kb) ++ (b0 :: db) ++ [TAB] ++ x :: c').
  { unfold entryLine, dec3, padStart. rewrite Er, Eg, Eb. fold kr kg kb.
    change (lit " ") with [SP]. rewrite <- !app_assoc. unfold trim.
    rewrite trimStart_spaces.
    cbn [app]. rewrite (trimStart_head r0) by (apply isDigit_not_ws, Hr0).
    rewrite Ec.
    assert (K : kept (x :: c')).
    { rewrite <- Ec. split; [apply (cleanFrom_trimEnd c true Hc)|].
      rewrite Ec. discriminate. }
    apply proj1 with (B := r0 :: dr ++ SP :: repeat SP kg ++ g0 :: dg
                           ++ SP :: repeat SP kb ++ b0 :: db ++ TAB :: x :: c'
                           <> []).
    repeat (exact K || apply kept_cons || apply kept_app). }
  assert (Hm : matchGplLine (trim (entryLine (r, g, b, c)))
               = Some (r0 :: dr, g0 :: dg, b0 :: db, x :: c')).
  { rewrite Hline. apply matchGplLine_blocks.
    - cbn [forallb]. rewrite Hr0, Hdr. reflexivity.
    - apply forallb_spaces.
    - cbn [forallb]. rewrite Hg0, Hdg. reflexivity.
    - apply forallb_spaces.
    - cbn [forallb]. rewrite Hb0, Hdb. reflexivity.
    - reflexivity.
    - exact Hx.
    - rewrite <- Ec. apply (clean_no_terminator c Hc). }
  unfold gplItem. rewrite Hm. rewrite Hline.
  cbn [app isEmpty].
  rewrite !(startsWith_digit r0) by (exact Hr0 || reflexivity).
  rewrite Pr, Pg, Pb.
  rewrite (Number_toString_num 16 r), (Number_toString_num 16 g),
    (Number_toString_num 16 b) by (apply channel_small; assumption).
  cbn [strOr]. rewrite <- Ec, (clean_trim c Hc), Ec. cbn [strOr].
  reflexivity.
Qed.

(** ** The pattern of [parseGpl] and its greedy reading *)

Lemma takeWhile_dropWhile {A} (p : A -> bool) l :
  takeWhile p l ++ dropWhile p l = l.
Proof.
  induction l as [|x l IH]; [reflexivity|]. cbn [takeWhile dropWhile].
  destruct (p x); [cbn [app]; rewrite IH|]; reflexivity.
Qed.

Lemma forallb_takeWhile {A} (p : A -> bool) l : forallb p (takeWhile p l) = true.
Proof.
  induction l as [|x l IH]; [reflexivity|]. cbn [takeWhile].
  destruct (p x) eqn:Hx; [cbn [forallb]; rewrite Hx; exact IH|reflexivity].
Qed.

Lemma forallb_dropWhile {A} (p q : A -> bool) l :
  forallb q l = true -> forallb q (dropWhile p l) = true.
Proof.
  induction l as [|x l IH]; [reflexivity|]. cbn [dropWhile forallb].
  intros H. destruct (p x); [|exact H].
  apply andb_true_iff in H as [_ H]. exact (IH H).
Qed.

Lemma isEmpty_false s : negb (isEmpty s) = true -> s <> [].
Proof. destruct s; [discriminate|]. intros _. discriminate. Qed.

(** What [matchGplLine] returns is a match of the pattern. *)
Lemma matchGplLine_sound line m1 m2 m3 m4 :
  matchGplLine line = Some (m1, m2, m3, m4) -> gplLineMatch line m1 m2 m3 m4.
Proof.
  unfold matchGplLine.
  set (r1 := dropWhile isDigit line).
  set (r2 := dropWhile isWhiteSpace r1).
  set (r3 := dropWhile isDigit r2).
  set (r4 := dropWhile isWhiteSpace r3).
  set (r5 := dropWhile isDigit r4).
  destruct (_ && _) eqn:H; [|discriminate].
  repeat (apply andb_true_iff in H as [H ?]).
  intros [= <- <- <- <-].
  exists (takeWhile isWhiteSpace r1), (takeWhile isWhiteSpace r3),
    (takeWhile isWhiteSpace r5).
  split.
  - unfold r5, r4, r3, r2, r1.
    rewrite !takeWhile_dropWhile. reflexivity.
  - repeat split; try (apply isEmpty_false; assumption);
      try apply forallb_takeWhile. assumption.
Qed.

(** Whenever the line matches the pattern in some way, [matchGplLine] finds
    a match, with the same first two groups. *)
Lemma matchGplLine_complete line m1 m2 m3 m4 :
  gplLineMatch line m1 m2 m3 m4 ->
  exists m3' m4', matchGplLine line = Some (m1, m2, m3', m4').
Proof.
  intros [w1 [w2 [w3 [-> [[N1 D1] [[NW1 W1] [[N2 D2] [[NW2 W2] [[N3 D3] [W3 L4]]]]]]]]]].
  destruct m1 as [|a1 m1]; [contradiction|].
  destruct w1 as [|x1 w1]; [contradiction|].
  destruct m2 as [|a2 m2]; [contradiction|].
  destruct w2 as [|x2 w2]; [contradiction|].
  destruct m3 as [|a3 m3]; [contradiction|].
  assert (Hw : forall w W, forallb isWhiteSpace (w :: W) = true -> isDigit w = false).
  { intros w W H. cbn [forallb] in H. apply andb_true_iff in H as [H _].
    apply ws_not_digit, H. }
  assert (Hd : forall d D, forallb isDigit (d :: D) = true -> isWhiteSpace d = false).
  { intros d D H. cbn [forallb] in H. apply andb_true_iff in H as [H _].
    apply isDigit_not_ws, H. }
  unfold matchGplLine.
  change ((x1 :: w1) ++ (a2 :: m2) ++ (x2 :: w2) ++ (a3 :: m3) ++ w3 ++ m4)
    with (x1 :: (w1 ++ (a2 :: m2) ++ (x2 :: w2) ++ (a3 :: m3) ++ w3 ++ m4)).
  destruct (run_then isDigit (a1 :: m1) x1
              (w1 ++ (a2 :: m2) ++ (x2 :: w2) ++ (a3 :: m3) ++ w3 ++ m4)
              D1 (Hw _ _ W1)) as [-> ->].
  change (x1 :: w1 ++ (a2 :: m2) ++ (x2 :: w2) ++ (a3 :: m3) ++ w3 ++ m4)
    with ((x1 :: w1) ++ a2 :: (m2 ++ (x2 :: w2) ++ (a3 :: m3) ++ w3 ++ m4)).
  destruct (run_then isWhiteSpace (x1 :: w1) a2
              (m2 ++ (x2 :: w2) ++ (a3 :: m3) ++ w3 ++ m4)
              W1 (Hd _ _ D2)) as [-> ->].
  change (a2 :: m2 ++ (x2 :: w2) ++ (a3 :: m3) ++ w3 ++ m4)
    with ((a2 :: m2) ++ x2 :: (w2 ++ (a3 :: m3) ++ w3 ++ m4)).
  destruct (run_then isDigit (a2 :: m2) x2 (w2 ++ (a3 :: m3) ++ w3 ++ m4)
              D2 (Hw _ _ W2)) as [-> ->].
  change (x2 :: w2 ++ (a3 :: m3) ++ w3 ++ m4)
    with ((x2 :: w2) ++ a3 :: (m3 ++ w3 ++ m4)).
  destruct (run_then isWhiteSpace (x2 :: w2) a3 (m3 ++ w3 ++ m4)
              W2 (Hd _ _ D3)) as [-> ->].
  change (a3 :: m3 ++ w3 ++ m4) with ((a3 :: m3) ++ w3 ++ m4).
  rewrite (takeWhile_app isDigit (a3 :: m3)), (dropWhile_app isDigit (a3 :: m3))
    by exact D3.
  cbn [app isEmpty negb andb].
  assert (K : forallb (fun c => negb (isLineTerminator c))
                (dropWhile isWhiteSpace (dropWhile isDigit (w3 ++ m4))) = true).
  { destruct w3 as [|x3 w3].
    - cbn [app]. apply forallb_dropWhile, forallb_dropWhile, L4.
    - cbn [app dropWhile]. rewrite (Hw _ _ W3).
      change (x3 :: w3 ++ m4) with ((x3 :: w3) ++ m4).
      rewrite dropWhile_app by exact W3. apply forallb_dropWhile, L4. }
  rewrite K. eexists _, _. reflexivity.
Qed.

(** ** GPL: the lines of a written document *)

Lemma replaceCRLF_noCR s :
  forallb (fun c => negb (c =? CR)%N) s = true -> replaceCRLF s = s.
Proof.
  induction s as [|c s IH]; [reflexivity|].
  cbn [forallb replaceCRLF]. intros H. apply andb_true_iff in H as [Hc Hs].
  apply negb_true_iff in Hc. rewrite Hc. cbn [andb].
  destruct s as [|d s']; [reflexivity|]. rewrite (IH Hs). reflexivity.
Qed.

Lemma splitLF_line l rest :
  forallb (fun c => negb (c =? LF)%N) l = true ->
  splitLF (l ++ LF :: rest) = l :: splitLF rest.
Proof.
  induction l as [|c l IH]; cbn [forallb app splitLF].
  - intros _. change (LF =? LF)%N with true. reflexivity.
  - intros H. apply andb_true_iff in H as [Hc Hl].
    apply negb_true_iff in Hc. rewrite Hc, (IH Hl). reflexivity.
Qed.

Lemma join_LF_concat l ls :
  join [LF] (l :: ls) ++ [LF] = concat (map (fun x => x ++ [LF]) (l :: ls)).
Proof.
  revert l. induction ls as [|m ls IH]; intros l.
  - cbn. rewrite app_nil_r. reflexivity.
  - change (join [LF] (l :: m :: ls)) with (l ++ [LF] ++ join [LF] (m :: ls)).
    rewrite <- !app_assoc, IH. cbn [map concat].
    rewrite <- !app_assoc. reflexivity.
Qed.

Lemma noBreak_split l :
  noBreak l = true ->
  forallb (fun c => negb (c =? LF)%N) l = true
  /\ forallb (fun c => negb (c =? CR)%N) (l ++ [LF]) = true.
Proof.
  unfold noBreak. induction l as [|c l IH]; cbn [forallb app]; [auto|].
  intros H. apply andb_true_iff in H as [Hc Hl].
  apply andb_true_iff in Hc as [H1 H2]. destruct (IH Hl) as [K1 K2].
  rewrite H1, H2, K1, K2. auto.
Qed.

Lemma lines_of_concat ls :
  Forall (fun l => noBreak l = true) ls ->
  forallb (fun c => negb (c =? CR)%N) (concat (map (fun x => x ++ [LF]) ls)) = true
  /\ splitLF (concat (map (fun x => x ++ [LF]) ls)) = ls ++ [[]].
Proof.
  induction 1 as [|l ls Hl _ [IH1 IH2]]; [split; reflexivity|].
  cbn [map concat]. destruct (noBreak_split l Hl) as [K1 K2]. split.
  - rewrite forallb_app, K2, IH1. reflexivity.
  - rewrite <- app_assoc. cbn [app]. rewrite (splitLF_line _ _ K1), IH2. reflexivity.
Qed.

Lemma gplLines_join l ls :
  Forall (fun l => noBreak l = true) (l :: ls) ->
  gplLines (join [LF] (l :: ls) ++ [LF]) = (l :: ls) ++ [[]].
Proof.
  intros H. unfold gplLines. rewrite join_LF_concat.
  destruct (lines_of_concat (l :: ls) H) as [K1 K2].
  rewrite (replaceCRLF_noCR _ K1). exact K2.
Qed.

Lemma noBreak_app a b : noBreak (a ++ b) = noBreak a && noBreak b.
Proof. unfold noBreak. apply forallb_app. Qed.

Lemma noBreak_digits d : forallb isDigit d = true -> noBreak d = true.
Proof.
  unfold noBreak. induction d as [|c d IH]; cbn [forallb]; [reflexivity|].
  intros H. apply andb_true_iff in H as [Hc Hd]. rewrite (IH Hd), andb_true_r.
  apply andb_true_iff. split; apply negb_true_iff; cu_prop; lia.
Qed.

Lemma noBreak_spaces k : noBreak (repeat SP k) = true.
Proof. induction k as [|k IH]; [reflexivity|]. exact IH. Qed.

Lemma noBreak_clean c : clean c = true -> noBreak c = true.
Proof.
  intros H. pose proof (cleanFrom_blanks c true H) as Hb.
  unfold noBreak. rewrite forallb_forall in *. intros x Hx. specialize (Hb x Hx).
  apply orb_true_iff in Hb as [Hb|Hb].
  - apply negb_true_iff in Hb.
    apply andb_true_iff. split; apply negb_true_iff; cu_prop; lia.
  - apply N.eqb_eq in Hb. subst x. reflexivity.
Qed.

Lemma noBreak_dec3 z : channel z -> noBreak (dec3 z) = true.
Proof.
  intros Hz. destruct (channel_dec z Hz) as [d0 [d [Ed [H0 [Hd _]]]]].
  unfold dec3, padStart. rewrite noBreak_app, noBreak_spaces, Ed.
  apply noBreak_digits. cbn [forallb]. rewrite H0, Hd. reflexivity.
Qed.

Lemma noBreak_entryLine e : goodEntry e -> noBreak (entryLine e) = true.
Proof.
  destruct e as [[[r g] b] c]. intros [Hr [Hg [Hb Hc]]]. unfold entryLine.
  rewrite !noBreak_app, !noBreak_dec3, (noBreak_clean c Hc) by assumption.
  reflexivity.
Qed.

(** ** GPL: reading a written document *)

Lemma parseGplLoop_entries es :
  Forall goodEntry es ->
  forall idx, parseGplLoop (map entryLine es ++ [[]]) [] idx = numbered idx es.
Proof.
  induction 1 as [|[[[r g] b] c] es He _ IH]; intros idx.
  - reflexivity.
  - cbn [map app parseGplLoop numbered].
    rewrite (gplItem_entry idx r g b c He), parseGplLoop_out, IH. reflexivity.
Qed.

Lemma parseGpl_gplDoc es :
  Forall goodEntry es -> parseGpl (gplDoc es) = numbered 0 es.
Proof.
  intros H. unfold parseGpl, gplDoc.
  change (gplHeader ++ map entryLine es)
    with (lit "GIMP Palette" :: [lit "Name: Palette"; lit "#"] ++ map entryLine es).
  rewrite gplLines_join.
  - cbn [app parseGplLoop].
    change (gplItem 0 (lit "GIMP Palette")) with (@None FileItem).
    change (gplItem 0 (lit "Name: Palette")) with (@None FileItem).
    change (gplItem 0 (lit "#")) with (@None FileItem).
    cbv iota. apply parseGplLoop_entries, H.
  - repeat constructor. apply Forall_map.
    eapply Forall_impl; [|exact H]. intros e. apply noBreak_entryLine.
Qed.

(** ** GPL: what [parseGpl] returns *)

Lemma channel_of_digits s :
  exists z, channel z
            /\ clamp (numOr (parseInt s 10) (num 0)) (num 0) (num 255) = num z.
Proof.
  destruct (parseInt_cases s 10) as [H|[z H]]; rewrite H.
  - exists 0. split; [unfold channel; lia|reflexivity].
  - rewrite numOr_num, clamp_num. eexists; split; [|reflexivity].
    unfold channel. lia.
Qed.

Lemma hasNonWs_cons c s : isWhiteSpace c = false -> hasNonWs (c :: s) = true.
Proof. intros H. unfold hasNonWs. cbn [existsb]. rewrite H. reflexivity. Qed.

Lemma hasNonWs_nonempty s : hasNonWs s = true -> s <> [].
Proof. destruct s; [discriminate|]. intros _. discriminate. Qed.

Lemma gplItem_read idx raw p :
  gplItem idx raw = Some p ->
  exists r g b n,
    p = {| fname := n; findex := num idx; fhex := hexOf r g b |}
    /\ readEntry (r, g, b, n).
Proof.
  unfold gplItem.
  destruct (isEmpty (trim raw)); [discriminate|].
  destruct (startsWith (trim raw) (lit "#")); [discriminate|].
  destruct (startsWith (trim raw) (lit "GIMP Palette")); [discriminate|].
  destruct (startsWith (trim raw) (lit "Name:")); [discriminate|].
  destruct (startsWith (trim raw) (lit "Columns:")); [discriminate|].
  destruct (matchGplLine (trim raw)) as [[[[m1 m2] m3] m4]|]; [|discriminate].
  destruct (channel_of_digits m1) as [r [Hr ->]].
  destruct (channel_of_digits m2) as [g [Hg ->]].
  destruct (channel_of_digits m3) as [b [Hb ->]].
  rewrite (Number_toString_num 16 r), (Number_toString_num 16 g),
    (Number_toString_num 16 b) by (apply channel_small; assumption).
  intros [= <-]. eexists r, g, b, _. split; [reflexivity|].
  split; [exact Hr|]. split; [exact Hg|]. split; [exact Hb|].
  match goal with
  | |- hasNonWs (strOr (trim ?u) ?d) = true =>
      assert (Hd : hasNonWs d = true);
      [ apply hasNonWs_cons; reflexivity
      | destruct (trim_empty_or_nonWs u) as [Ht|Ht];
        [ rewrite Ht; exact Hd
        | destruct (trim u); [discriminate Ht|exact Ht] ] ]
  end.
Qed.

Lemma parseGplLoop_read lines :
  forall idx, exists es,
    parseGplLoop lines [] idx = numbered idx es /\ Forall readEntry es.
Proof.
  induction lines as [|raw rest IH]; intros idx.
  - exists []. split; [reflexivity|constructor].
  - cbn [parseGplLoop]. destruct (gplItem idx raw) as [p|] eqn:Hp.
    + destruct (gplItem_read idx raw p Hp) as [r [g [b [n [-> Hn]]]]].
      destruct (IH (idx + 1)) as [es [Hes Hf]].
      exists ((r, g, b, n) :: es). rewrite parseGplLoop_out, Hes.
      split; [reflexivity|constructor; assumption].
    + apply IH.
Qed.

Lemma map_findex_numbered es :
  forall idx,
    map findex (numbered idx es)
    = map (fun i => num (idx + Z.of_nat i)) (seq 0 (length es)).
Proof.
  induction es as [|[[[r g] b] n] es IH]; intros idx; [reflexivity|].
  cbn [numbered map length seq]. rewrite IH, Z.add_0_r. f_equal.
  rewrite <- seq_shift, map_map. apply map_ext. intros i. f_equal. lia.
Qed.

Lemma length_numbered es : forall idx, length (numbered idx es) = length es.
Proof.
  induction es as [|[[[r g] b] n] es IH]; intros idx; [reflexivity|].
  cbn [numbered length]. rewrite IH. reflexivity.
Qed.

(** The [i]-th item is read from the [i]-th accepted line, the counter at [i]. *)
Lemma parseGplLoop_accepted lines :
  forall idx,
    let accepted := filter (fun raw => isSome (gplItem 0 raw)) lines in
    length (parseGplLoop lines [] idx) = length accepted
    /\ forall i raw, nth_error accepted i = Some raw ->
         nth_error (parseGplLoop lines [] idx) i = gplItem (idx + Z.of_nat i) raw.
Proof.
  induction lines as [|raw rest IH]; intros idx; cbn zeta.
  - split; [reflexivity|]. intros [|i] raw H; discriminate H.
  - cbn [parseGplLoop filter]. destruct (gplItem idx raw) as [p|] eqn:Hp.
    + assert (H0 : isSome (gplItem 0 raw) = true).
      { destruct (gplItem 0 raw) eqn:K; [reflexivity|].
        rewrite (gplItem_none_counter 0 idx raw K) in Hp. discriminate. }
      rewrite H0, parseGplLoop_out. cbn [app length].
      destruct (IH (idx + 1)) as [IH1 IH2]. split; [rewrite IH1; reflexivity|].
      intros [|i] raw' H; cbn [nth_error] in *.
      * injection H as <-. rewrite Z.add_0_r. symmetry. exact Hp.
      * rewrite (IH2 i raw' H). f_equal. lia.
    + rewrite (gplItem_none_counter idx 0 raw Hp). cbn [isSome]. apply IH.
Qed.

(** ** GPL: loading, and writing again *)

Lemma mapM_load l :
  forall w, exists l' w',
    mapM (fun x => bind makeId (fun i =>
            ret {| id := i; name := fname x; index := findex x;
                   hex := normalizeHex (fhex x) |})) l w = (inr l', w')
    /\ Forall2 loadedFrom l l'.
Proof.
  induction l as [|x l IH]; intros w.
  - eexists _, _. split; [reflexivity|constructor].
  - destruct (IH (countId w)) as [l' [w' [Hm Hf]]].
    cbn [mapM]. unfold bind, makeId, ret in *. rewrite Hm.
    eexists _, _. split; [reflexivity|].
    constructor; [repeat split|exact Hf].
Qed.

Lemma loadGpl_items text w :
  Forall2 loadedFrom (parseGpl text) (items (after (loadGpl text) w)).
Proof.
  unfold after, loadGpl.
  destruct (mapM_load (parseGpl text) w) as [l' [w' [Hm Hf]]].
  unfold bind at 1. rewrite Hm. exact Hf.
Qed.

Lemma loaded_written es :
  Forall readEntry es ->
  forall idx L,
    Forall2 loadedFrom (numbered idx es) L ->
    written idx L (map writtenName es).
Proof.
  induction 1 as [|[[[r g] b] n] es [Hr [Hg [Hb Hn]]] _ IH]; intros idx L HL.
  - inversion HL. exact I.
  - cbn [numbered] in HL. inversion HL as [|p it ps L' [H1 [H2 H3]] HL']; subst.
    cbn [map writtenName written fname findex fhex] in *.
    rewrite H1, H2, H3.
    rewrite (normalizeHex_canonical _ (hexOf_canonical r g b Hr Hg Hb)).
    repeat split. apply IH, HL'.
Qed.

Lemma written_good es :
  Forall readEntry es -> Forall goodEntry (map writtenName es).
Proof.
  induction 1 as [|[[[r g] b] n] es [Hr [Hg [Hb Hn]]] _ IH]; [constructor|].
  cbn [map writtenName]. constructor; [|exact IH].
  split; [exact Hr|]. split; [exact Hg|]. split; [exact Hb|].
  apply written_name_clean, Hn.
Qed.

Lemma good_read e : goodEntry e -> readEntry e.
Proof.
  destruct e as [[[r g] b] c]. intros [Hr [Hg [Hb Hc]]].
  split; [exact Hr|]. split; [exact Hg|]. split; [exact Hb|].
  destruct (clean_head c Hc) as [x [c' [-> Hx]]]. apply hasNonWs_cons, Hx.
Qed.

Lemma writtenName_good es :
  Forall goodEntry es -> map writtenName es = es.
Proof.
  induction 1 as [|[[[r g] b] c] es [Hr [Hg [Hb Hc]]] _ IH]; [reflexivity|].
  cbn [map writtenName]. rewrite IH, (clean_written c Hc). reflexivity.
Qed.

Lemma written_ascending es :
  forall idx L, written idx L es -> ascending L.
Proof.
  induction es as [|[[[r g] b] c] es IH]; intros idx [|it L] H;
    try contradiction; [constructor|].
  cbn [written] in H. destruct H as [Hi [_ [_ HL]]].
  constructor; [exact (IH _ _ HL)|].
  destruct L as [|it' L]; [constructor|]. constructor.
  destruct es as [|[[[r' g'] b'] c'] es]; [contradiction|].
  cbn [written] in HL. destruct HL as [Hi' _].
  rewrite Hi, Hi'. unfold numLe, num. rewrite Qle_bool_inject.
  apply Z.leb_le. lia.
Qed.

Lemma written_lines es :
  Forall goodEntry es ->
  forall idx L, written idx L es -> map gplLine L = map entryLine es.
Proof.
  induction 1 as [|[[[r g] b] c] es [Hr [Hg [Hb Hc]]] _ IH]; intros idx [|it L] H;
    try contradiction; [reflexivity|].
  cbn [written] in H. destruct H as [_ [Hh [Hn HL]]].
  cbn [map]. rewrite (IH _ _ HL). f_equal.
  unfold gplLine, entryLine, dec3. rewrite Hh, (hexToRgb_hexOf r g b Hr Hg Hb), Hn.
  rewrite !Number_toString_num by (apply channel_small; assumption).
  reflexivity.
Qed.

Lemma toGpl_written es L :
  Forall goodEntry es -> written 0 L es -> toGpl L = gplDoc es.
Proof.
  intros Hg Hw. unfold toGpl, gplDoc.
  rewrite (sortBy_ascending L (written_ascending es 0 L Hw)).
  rewrite (written_lines es Hg 0 L Hw). reflexivity.
Qed.

(** ** More on [clamp] and on colors *)

Lemma numLe_refl n : isNaN n = false -> numLe n n = true.
Proof.
  destruct n as [|[|]|q]; try reflexivity; [discriminate|].
  intros _. apply Qle_bool_iff. apply Qle_refl.
Qed.

Lemma numLe_not_NaN a b : numLe a b = true -> isNaN a = false /\ isNaN b = false.
Proof. destruct a as [|[|]|x], b as [|[|]|y]; cbn; intros H; try discriminate; auto. Qed.

(** X1: [clamp(n, a, b)] with [a <= b].  A NaN goes through unchanged (which
    is why every caller writes [|| default] first); any other [n] gives a
    result between [a] and [b]: [n] itself when it lies in the range, [a] when
    it is below and [b] when it is above. *)
Theorem clamp_within (n a b : number) :
  numLe a b = true ->
  (isNaN n = true -> clamp n a b = NaN)
  /\ (isNaN n = false ->
      numLe a (clamp n a b) = true /\ numLe (clamp n a b) b = true)
  /\ (numLe a n = true -> numLe n b = true -> clamp n a b = n)
  /\ (isNaN n = false -> numLe a n = false -> clamp n a b = a)
  /\ (isNaN n = false -> numLe n b = false -> clamp n a b = b).
Proof.
  intros Hab. destruct (numLe_not_NaN a b Hab) as [Ha Hb].
  assert (Hmin : Math_min b n
                 = if isNaN n then NaN else if numLe n b then n else b).
  { unfold Math_min. rewrite Hb. reflexivity. }
  assert (Hmax : forall m, Math_max a m
                           = if isNaN m then NaN else if numLe a m then m else a).
  { intros m. unfold Math_max. rewrite Ha. reflexivity. }
  unfold clamp. rewrite Hmin, Hmax. clear Hmin Hmax.
  split; [intros ->; reflexivity|].
  split.
  - intros Hn. rewrite Hn.
    destruct (numLe n b) eqn:H1.
    + rewrite Hn. destruct (numLe a n) eqn:H2; [auto|].
      split; [apply numLe_refl, Ha|exact Hab].
    + rewrite Hb, Hab. split; [exact Hab|apply numLe_refl, Hb].
  - split; [|split].
    + intros H1 H2. destruct (numLe_not_NaN a n H1) as [_ Hn].
      rewrite Hn, H2, Hn, H1. reflexivity.
    + intros Hn H1. rewrite Hn.
      destruct (numLe n b) eqn:H2; [rewrite Hn, H1; reflexivity|].
      exfalso. destruct n as [|[|]|x], a as [|[|]|y], b as [|[|]|z];
        cbn in *; try discriminate.
      apply Qle_bool_iff in Hab.
      destruct (Qlt_le_dec z x) as [Hzx|Hxz].
      * assert (K : Qle y x)
          by (apply Qlt_le_weak; eapply Qle_lt_trans; eassumption).
        apply Qle_bool_iff in K. congruence.
      * apply Qle_bool_iff in Hxz. congruence.
    + intros Hn H2. rewrite Hn, H2, Hb, Hab. reflexivity.
Qed.

Lemma hexDigit_value c :
  isHexDigit c = true ->
  exists v, 0 <= v < 16 /\ radixDigit 16 c = Some v
            /\ (upperCu c = c -> v = if (c <=? 57)%N then Z.of_N c - 48
                                     else Z.of_N c - 55).
Proof.
  intros H. unfold radixDigit, digitVal.
  destruct (isDigit c) eqn:Hd.
  - exists (Z.of_N c - 48).
    assert (Hr : (48 <= c <= 57)%N) by (revert Hd; clear; intros Hd; cu_prop; lia).
    replace (Z.of_N c - 48 <? 16) with true by (symmetry; apply Z.ltb_lt; lia).
    replace (c <=? 57)%N with true by (symmetry; apply N.leb_le; lia).
    repeat split; try lia.
  - destruct ((97 <=? c) && (c <=? 122))%N eqn:Hl.
    + exists (Z.of_N c - 87).
      assert (Hr : (97 <= c <= 102)%N)
        by (revert H Hd Hl; clear; intros H Hd Hl; cu_prop; lia).
      replace (Z.of_N c - 87 <? 16) with true by (symmetry; apply Z.ltb_lt; lia).
      repeat split; try lia.
      unfold upperCu. rewrite Hl. intros K. lia.
    + assert (Hr : (65 <= c <= 70)%N)
        by (revert H Hd Hl; clear; intros H Hd Hl; cu_prop; lia).
      replace ((65 <=? c) && (c <=? 90))%N with true
        by (symmetry; apply andb_true_iff; split; apply N.leb_le; lia).
      exists (Z.of_N c - 55).
      replace (Z.of_N c - 55 <? 16) with true by (symmetry; apply Z.ltb_lt; lia).
      replace (c <=? 57)%N with false by (symmetry; apply N.leb_gt; lia).
      repeat split; try lia.
Qed.

Lemma parseInt_hex_pair a b va vb :
  isHexDigit a = true -> isHexDigit b = true ->
  radixDigit 16 a = Some va -> radixDigit 16 b = Some vb ->
  parseInt [a; b] 16 = num (16 * va + vb).
Proof.
  intros Ha Hb Hva Hvb. unfold parseInt.
  rewrite (trimStart_head a) by (apply isHexDigit_not_ws, Ha).
  replace (a =? 45)%N with false
    by (symmetry; revert Ha; clear; intros Ha; cu_prop; lia).
  replace (a =? 43)%N with false
    by (symmetry; revert Ha; clear; intros Ha; cu_prop; lia).
  assert (Hx : startsWith [a; b] (lit "0x") || startsWith [a; b] (lit "0X") = false).
  { change (lit "0x") with [48%N; 120%N]. change (lit "0X") with [48%N; 88%N].
    cbn [startsWith].
    replace (120 =? b)%N with false
      by (symmetry; revert Hb; clear; intros Hb; cu_prop; lia).
    replace (88 =? b)%N with false
      by (symmetry; revert Hb; clear; intros Hb; cu_prop; lia).
    rewrite !andb_false_r. reflexivity. }
  rewrite Hx, andb_false_r. rewrite Hva. cbn [parseDigits]. rewrite Hva, Hvb.
  f_equal. lia.
Qed.

Lemma canonical_digits h :
  canonicalHex h ->
  exists a1 a2 a3 a4 a5 a6,
    h = [35%N; a1; a2; a3; a4; a5; a6]
    /\ Forall (fun c => isHexDigit c = true /\ upperCu c = c) [a1; a2; a3; a4; a5; a6].
Proof.
  intros [Ht Hu]. unfold testHexColor in Ht.
  destruct h as [|c ds]; [discriminate|].
  apply andb_true_iff in Ht as [Ht Hd]. apply andb_true_iff in Ht as [Hc Hl].
  apply N.eqb_eq in Hc. subst c. apply Nat.eqb_eq in Hl.
  do 7 (destruct ds as [|? ds]; try discriminate Hl).
  unfold toUpperCase in Hu. cbn [map] in Hu. injection Hu as ? ? ? ? ? ?.
  cbn [forallb] in Hd.
  repeat match goal with
         | K : _ && _ = true |- _ => apply andb_true_iff in K as [? ?]
         end.
  eexists _, _, _, _, _, _. split; [reflexivity|].
  repeat constructor; assumption.
Qed.

Lemma num_inj a b : num a = num b -> a = b.
Proof. unfold num, inject_Z. intros [= H]. exact H. Qed.

(** The channel of a pair of upper-case hexadecimal digits prints as the pair. *)
Lemma hex_pair_prints a b :
  isHexDigit a = true -> upperCu a = a -> isHexDigit b = true -> upperCu b = b ->
  exists z, channel z /\ parseInt [a; b] 16 = num z /\ toUpperCase (hex2 z) = [a; b].
Proof.
  intros Ha Ua Hb Ub.
  destruct (hexDigit_value a Ha) as [va [Rva [Hva Eva]]].
  destruct (hexDigit_value b Hb) as [vb [Rvb [Hvb Evb]]].
  specialize (Eva Ua). specialize (Evb Ub).
  assert (Hz : channel (16 * va + vb)) by (unfold channel; lia).
  exists (16 * va + vb). split; [exact Hz|].
  split; [apply parseInt_hex_pair; assumption|].
  destruct (channel_hex _ Hz) as [a' [b' [Eh [Ha' [Hb' [Ua' [Ub' P']]]]]]].
  rewrite Eh.
  destruct (hexDigit_value a' Ha') as [va' [Rva' [Hva' Eva']]].
  destruct (hexDigit_value b' Hb') as [vb' [Rvb' [Hvb' Evb']]].
  specialize (Eva' Ua'). specialize (Evb' Ub').
  rewrite (parseInt_hex_pair a' b' va' vb' Ha' Hb' Hva' Hvb') in P'.
  apply num_inj in P'.
  assert (va' = va /\ vb' = vb) as [Ea Eb] by lia.
  assert (Ra : (48 <= a <= 57 \/ 65 <= a <= 70)%N).
  { revert Ha Ua. clear. intros Ha Ua. unfold upperCu in Ua.
    destruct ((97 <=? a) && (a <=? 122))%N eqn:L; cu_prop; lia. }
  assert (Rb : (48 <= b <= 57 \/ 65 <= b <= 70)%N).
  { revert Hb Ub. clear. intros Hb Ub. unfold upperCu in Ub.
    destruct ((97 <=? b) && (b <=? 122))%N eqn:L; cu_prop; lia. }
  assert (Ra' : (48 <= a' <= 57 \/ 65 <= a' <= 70)%N).
  { revert Ha' Ua'. clear. intros Ha Ua. unfold upperCu in Ua.
    destruct ((97 <=? a') && (a' <=? 122))%N eqn:L; cu_prop; lia. }
  assert (Rb' : (48 <= b' <= 57 \/ 65 <= b' <= 70)%N).
  { revert Hb' Ub'. clear. intros Hb Ub. unfold upperCu in Ub.
    destruct ((97 <=? b') && (b' <=? 122))%N eqn:L; cu_prop; lia. }
  assert (a' = a).
  { revert Eva Eva' Ea Ra Ra'. clear. intros.
    destruct (a <=? 57)%N eqn:L1, (a' <=? 57)%N eqn:L2;
      try apply N.leb_le in L1; try apply N.leb_le in L2;
      try apply N.leb_gt in L1; try apply N.leb_gt in L2; lia. }
  assert (b' = b).
  { revert Evb Evb' Eb Rb Rb'. clear. intros.
    destruct (b <=? 57)%N eqn:L1, (b' <=? 57)%N eqn:L2;
      try apply N.leb_le in L1; try apply N.leb_le in L2;
      try apply N.leb_gt in L1; try apply N.leb_gt in L2; lia. }
  subst. reflexivity.
Qed.

(** The channels of a canonical color, and the color printed from them. *)
Lemma canonical_channels h :
  canonicalHex h ->
  exists r g b,
    channel r /\ channel g /\ channel b
    /\ hexToRgb h = (num r, num g, num b) /\ hexOf r g b = h.
Proof.
  intros Hc. destruct (canonical_digits h Hc) as [a1 [a2 [a3 [a4 [a5 [a6 [Eh Hf]]]]]]].
  repeat match goal with
         | K : Forall _ (_ :: _) |- _ => inversion K; clear K; subst
         | K : _ /\ _ |- _ => destruct K
         end.
  destruct (hex_pair_prints a1 a2) as [r [Hr [Pr Er]]]; try assumption.
  destruct (hex_pair_prints a3 a4) as [g [Hg [Pg Eg]]]; try assumption.
  destruct (hex_pair_prints a5 a6) as [b [Hb [Pb Eb]]]; try assumption.
  exists r, g, b. repeat (split; [assumption|]). split.
  - unfold hexToRgb. rewrite (normalizeHex_canonical _ Hc).
    unfold sliceFrom, slice. cbn [skipn firstn Nat.sub].
    rewrite Pr, Pg, Pb. reflexivity.
  - unfold hexOf, toUpperCase in *. rewrite !map_app, Er, Eg, Eb. reflexivity.
Qed.

(** X2: [hexToRgb] returns, for every string, three integers between 0 and
    255; a string that is not a color (after trimming) gives black, 0 0 0. *)
Theorem hexToRgb_channels (hex : str) :
  exists r g b,
    channel r /\ channel g /\ channel b
    /\ hexToRgb hex = (num r, num g, num b)
    /\ (testHexColor (trim hex) = false -> r = 0 /\ g = 0 /\ b = 0).
Proof.
  destruct (canonical_channels _ (normalizeHex_is_canonical hex))
    as [r [g [b [Hr [Hg [Hb [Hh _]]]]]]].
  assert (Hn : hexToRgb hex = hexToRgb (normalizeHex hex)).
  { unfold hexToRgb.
    rewrite (normalizeHex_canonical _ (normalizeHex_is_canonical hex)). reflexivity. }
  exists r, g, b. repeat (split; [assumption|]).
  split; [rewrite Hn; exact Hh|].
  intros Ht. unfold normalizeHex in Hh. rewrite Ht in Hh.
  change (hexToRgb (lit "#000000")) with (num 0, num 0, num 0) in Hh.
  injection Hh as H1 H2 H3. auto.
Qed.

(** X3: colors and channels convert into each other without loss.  The color
    that [parseGpl] prints for three channels is read by [hexToRgb] as these
    channels; and printing the channels that [hexToRgb] reads from any string
    gives the normalized color of that string. *)
Theorem hex_rgb_round_trip (hex : str) (r g b : Z) :
  (channel r -> channel g -> channel b ->
   hexToRgb (hexOf r g b) = (num r, num g, num b))
  /\ exists r' g' b',
       hexToRgb hex = (num r', num g', num b')
       /\ hexOf r' g' b' = normalizeHex hex.
Proof.
  split; [apply hexToRgb_hexOf|].
  destruct (canonical_channels _ (normalizeHex_is_canonical hex))
    as [r' [g' [b' [_ [_ [_ [Hh He]]]]]]].
  exists r', g', b'. split; [|exact He].
  unfold hexToRgb in *.
  rewrite (normalizeHex_canonical _ (normalizeHex_is_canonical hex)) in Hh.
  exact Hh.
Qed.

(** ** More on [parseGpl] *)

Lemma matchGplLine_head line g :
  matchGplLine line = Some g -> exists d s, line = d :: s /\ isDigit d = true.
Proof.
  destruct g as [[[m1 m2] m3] m4]. intros H.
  destruct (matchGplLine_sound _ _ _ _ _ H)
    as [w1 [w2 [w3 [-> [[N1 D1] _]]]]].
  destruct m1 as [|d m1]; [contradiction|].
  cbn [forallb] in D1. apply andb_true_iff in D1 as [D1 _].
  eexists d, _. split; [reflexivity|exact D1].
Qed.

(** X4: a line gives an item exactly when, trimmed, it matches the pattern of
    three integers and a name.  The tests for empty lines, comments and the
    header lines never turn down a line that the pattern accepts. *)
Theorem gplItem_accepts_iff_match (idx : Z) (raw : str) :
  isSome (gplItem idx raw) = isSome (matchGplLine (trim raw)).
Proof.
  destruct (matchGplLine (trim raw)) as [g|] eqn:Hm.
  - destruct (matchGplLine_head _ _ Hm) as [d [s [Hl Hd]]].
    unfold gplItem. rewrite Hm, Hl. cbn [isEmpty].
    rewrite !(startsWith_digit d) by (exact Hd || reflexivity).
    destruct g as [[[m1 m2] m3] m4]. reflexivity.
  - rewrite (gplItem_no_match idx raw Hm). reflexivity.
Qed.

Lemma trimEnd_snoc_ws s w : isWhiteSpace w = true -> trimEnd (s ++ [w]) = trimEnd s.
Proof.
  intros Hw. induction s as [|c s IH]; cbn [app trimEnd].
  - rewrite Hw. reflexivity.
  - rewrite IH. reflexivity.
Qed.

Lemma trim_snoc_ws s w : isWhiteSpace w = true -> trim (s ++ [w]) = trim s.
Proof.
  intros Hw. unfold trim, trimStart.
  induction s as [|c s IH]; cbn [app dropWhile].
  - rewrite Hw. reflexivity.
  - destruct (isWhiteSpace c); [exact IH|].
    change (c :: s ++ [w]) with ((c :: s) ++ [w]). apply trimEnd_snoc_ws, Hw.
Qed.

Lemma gplItem_sameButCR idx a b : sameButCR a b -> gplItem idx b = gplItem idx a.
Proof.
  intros [->| ->]; [reflexivity|].
  unfold gplItem. rewrite (trim_snoc_ws a CR) by reflexivity. reflexivity.
Qed.

Lemma splitLF_nonempty s : splitLF s <> [].
Proof.
  destruct s as [|c s]; cbn [splitLF]; [discriminate|].
  destruct (c =? LF)%N; [discriminate|]. destruct (splitLF s); discriminate.
Qed.

Lemma Forall2_sameButCR_refl ls : Forall2 sameButCR ls ls.
Proof. induction ls; constructor; [left; reflexivity|assumption]. Qed.

Lemma replaceCRLF_cons2 c d rest :
  replaceCRLF (c :: d :: rest)
  = if ((c =? CR) && (d =? LF))%N then LF :: replaceCRLF rest
    else c :: replaceCRLF (d :: rest).
Proof. reflexivity. Qed.

Lemma splitLF_cons c s :
  splitLF (c :: s)
  = if (c =? LF)%N then [] :: splitLF s
    else match splitLF s with
         | l :: ls => (c :: l) :: ls
         | [] => [[c]]
         end.
Proof. reflexivity. Qed.

Lemma lines_sameButCR n :
  forall t, (length t <= n)%nat ->
            Forall2 sameButCR (splitLF (replaceCRLF t)) (splitLF t).
Proof.
  induction n as [|n IH]; intros t Hlen.
  - destruct t; [apply Forall2_sameButCR_refl|cbn in Hlen; lia].
  - destruct t as [|c [|d rest]]; try apply Forall2_sameButCR_refl.
    rewrite replaceCRLF_cons2. destruct ((c =? CR) && (d =? LF))%N eqn:Hcd.
    + apply andb_true_iff in Hcd as [Hc Hd].
      apply N.eqb_eq in Hc. apply N.eqb_eq in Hd. subst c d.
      rewrite (splitLF_cons LF), (splitLF_cons CR), (splitLF_cons LF rest).
      change (LF =? LF)%N with true. change (CR =? LF)%N with false. cbv iota.
      constructor; [right; reflexivity|].
      apply IH. cbn [length] in Hlen. lia.
    + assert (H : Forall2 sameButCR (splitLF (replaceCRLF (d :: rest)))
                    (splitLF (d :: rest)))
        by (apply IH; cbn [length] in *; lia).
      rewrite (splitLF_cons c (replaceCRLF (d :: rest))), (splitLF_cons c (d :: rest)).
      pose proof (splitLF_nonempty (replaceCRLF (d :: rest))) as N1.
      pose proof (splitLF_nonempty (d :: rest)) as N2.
      destruct (splitLF (replaceCRLF (d :: rest))) as [|l ls]; [contradiction|].
      destruct (splitLF (d :: rest)) as [|l' ls']; [contradiction|].
      destruct (c =? LF)%N.
      * constructor; [left; reflexivity|exact H].
      * inversion H as [|? ? ? ? [Hl|Hl] Hls]; subst; constructor; try assumption.
        -- left. reflexivity.
        -- right. reflexivity.
Qed.

Lemma parseGplLoop_sameButCR ls ls' :
  Forall2 sameButCR ls ls' ->
  forall out idx, parseGplLoop ls' out idx = parseGplLoop ls out idx.
Proof.
  induction 1 as [|a b ls ls' Hab _ IH]; intros out idx; [reflexivity|].
  cbn [parseGplLoop]. rewrite (gplItem_sameButCR idx a b Hab).
  destruct (gplItem idx a); apply IH.
Qed.

(** X5: line endings do not matter to [parseGpl].  Replacing the pairs CR LF
    by LF changes no item: the result is that of the lines cut at LF alone,
    and a text whose pairs are already replaced gives the same items. *)
Theorem parseGpl_line_endings (text : str) :
  parseGpl text = parseGplLoop (splitLF text) [] 0
  /\ parseGpl (replaceCRLF text) = parseGpl text.
Proof.
  assert (H : forall t, parseGplLoop (splitLF (replaceCRLF t)) [] 0
                        = parseGplLoop (splitLF t) [] 0).
  { intros t. symmetry. apply parseGplLoop_sameButCR.
    apply (lines_sameButCR (length t)). lia. }
  unfold parseGpl, gplLines. split; [apply H|].
  rewrite (H (replaceCRLF text)). reflexivity.
Qed.

Lemma parseDigits_nonneg radix s :
  0 <= radix -> forall acc, 0 <= acc -> 0 <= parseDigits radix acc s.
Proof.
  intros Hr. induction s as [|c s IH]; intros acc Ha; cbn [parseDigits]; [exact Ha|].
  unfold radixDigit at 1. unfold digitVal.
  destruct (isDigit c) eqn:Hd.
  - assert (48 <= c)%N by (revert Hd; clear; intros; cu_prop; lia).
    destruct (Z.of_N c - 48 <? radix); [apply IH; nia|exact Ha].
  - destruct ((97 <=? c) && (c <=? 122))%N eqn:Hl.
    + assert (97 <= c)%N by (revert Hl; clear; intros; cu_prop; lia).
      destruct (Z.of_N c - 87 <? radix); [apply IH; nia|exact Ha].
    + destruct ((65 <=? c) && (c <=? 90))%N eqn:Hu; [|exact Ha].
      assert (65 <= c)%N by (revert Hu; clear; intros; cu_prop; lia).
      destruct (Z.of_N c - 55 <? radix); [apply IH; nia|exact Ha].
Qed.

Lemma isDigit_radix10 c : isDigit c = true -> exists v, radixDigit 10 c = Some v.
Proof.
  intros Hd. unfold radixDigit, digitVal. rewrite Hd.
  assert (48 <= c <= 57)%N by (revert Hd; clear; intros; cu_prop; lia).
  replace (Z.of_N c - 48 <? 10) with true by (symmetry; apply Z.ltb_lt; lia).
  eauto.
Qed.

(** [parseInt] on a run of digits. *)
Lemma parseInt_digitRun d : digitRun d -> parseInt d 10 = num (decimal d).
Proof.
  intros [Hn Hd]. destruct d as [|c d]; [contradiction|].
  cbn [forallb] in Hd. apply andb_true_iff in Hd as [Hc _].
  unfold parseInt. rewrite (trimStart_head c) by (apply isDigit_not_ws, Hc).
  replace (c =? 45)%N with false
    by (symmetry; revert Hc; clear; intros; cu_prop; lia).
  replace (c =? 43)%N with false
    by (symmetry; revert Hc; clear; intros; cu_prop; lia).
  change (10 =? 16) with false. cbv iota. cbn [andb]. cbv iota.
  destruct (isDigit_radix10 c Hc) as [v Hv]. rewrite Hv.
  unfold decimal. f_equal. lia.
Qed.

Lemma channel_of_digitRun d :
  digitRun d ->
  clamp (numOr (parseInt d 10) (num 0)) (num 0) (num 255)
  = num (Z.min 255 (decimal d))
  /\ channel (Z.min 255 (decimal d)).
Proof.
  intros H. rewrite (parseInt_digitRun d H), numOr_num, clamp_num.
  pose proof (parseDigits_nonneg 10 d ltac:(lia) 0 ltac:(lia)) as Hp.
  fold (decimal d) in Hp. rewrite Z.max_r by lia.
  split; [reflexivity|unfold channel; lia].
Qed.

(** The pattern on a line that stops after the third run of digits. *)
Lemma matchGplLine_no_name d1 D1 w1 W1 d2 D2 w2 W2 d3 D3 :
  forallb isDigit (d1 :: D1) = true -> forallb isWhiteSpace (w1 :: W1) = true ->
  forallb isDigit (d2 :: D2) = true -> forallb isWhiteSpace (w2 :: W2) = true ->
  forallb isDigit (d3 :: D3) = true ->
  matchGplLine ((d1 :: D1) ++ (w1 :: W1) ++ (d2 :: D2) ++ (w2 :: W2) ++ (d3 :: D3))
  = Some (d1 :: D1, d2 :: D2, d3 :: D3, []).
Proof.
  intros HD1 HW1 HD2 HW2 HD3.
  assert (Hw : forall w W, forallb isWhiteSpace (w :: W) = true -> isDigit w = false).
  { intros w W H. cbn [forallb] in H. apply andb_true_iff in H as [H _].
    apply ws_not_digit, H. }
  assert (Hd : forall d D, forallb isDigit (d :: D) = true -> isWhiteSpace d = false).
  { intros d D H. cbn [forallb] in H. apply andb_true_iff in H as [H _].
    apply isDigit_not_ws, H. }
  unfold matchGplLine.
  change ((w1 :: W1) ++ (d2 :: D2) ++ (w2 :: W2) ++ (d3 :: D3))
    with (w1 :: (W1 ++ (d2 :: D2) ++ (w2 :: W2) ++ (d3 :: D3))).
  destruct (run_then isDigit (d1 :: D1) w1
              (W1 ++ (d2 :: D2) ++ (w2 :: W2) ++ (d3 :: D3))
              HD1 (Hw _ _ HW1)) as [-> ->].
  change (w1 :: W1 ++ (d2 :: D2) ++ (w2 :: W2) ++ (d3 :: D3))
    with ((w1 :: W1) ++ d2 :: (D2 ++ (w2 :: W2) ++ (d3 :: D3))).
  destruct (run_then isWhiteSpace (w1 :: W1) d2 (D2 ++ (w2 :: W2) ++ (d3 :: D3))
              HW1 (Hd _ _ HD2)) as [-> ->].
  change (d2 :: D2 ++ (w2 :: W2) ++ (d3 :: D3))
    with ((d2 :: D2) ++ w2 :: (W2 ++ (d3 :: D3))).
  destruct (run_then isDigit (d2 :: D2) w2 (W2 ++ (d3 :: D3))
              HD2 (Hw _ _ HW2)) as [-> ->].
  change (w2 :: W2 ++ (d3 :: D3)) with ((w2 :: W2) ++ d3 :: D3).
  destruct (run_then isWhiteSpace (w2 :: W2) d3 D3 HW2 (Hd _ _ HD3)) as [-> ->].
  rewrite <- (app_nil_r (d3 :: D3)).
  rewrite (takeWhile_app isDigit (d3 :: D3)), (dropWhile_app isDigit (d3 :: D3))
    by exact HD3.
  cbn [takeWhile dropWhile app isEmpty negb andb forallb]. rewrite app_nil_r.
  reflexivity.
Qed.

(** The item of a line whose trimmed form matches with the groups [m1] to
    [m4]: the channels are the three numbers capped at 255. *)
Lemma gplItem_matched idx raw m1 m2 m3 m4 :
  matchGplLine (trim raw) = Some (m1, m2, m3, m4) ->
  gplItem idx raw
  = Some {| fname := strOr (trim (strOr m4 (lit "Color " ++ Number_toString 10 (num idx))))
                           (lit "Color " ++ Number_toString 10 (num idx));
            findex := num idx;
            fhex := hexOf (Z.min 255 (decimal m1)) (Z.min 255 (decimal m2))
                          (Z.min 255 (decimal m3)) |}.
Proof.
  intros Hm.
  destruct (matchGplLine_head _ _ Hm) as [d [s [Hl Hd]]].
  destruct (matchGplLine_sound _ _ _ _ _ Hm)
    as [w1 [w2 [w3 [_ [R1 [_ [R2 [_ [R3 _]]]]]]]]].
  destruct (channel_of_digitRun m1 R1) as [P1 C1].
  destruct (channel_of_digitRun m2 R2) as [P2 C2].
  destruct (channel_of_digitRun m3 R3) as [P3 C3].
  unfold gplItem. rewrite Hm, Hl. cbn [isEmpty].
  rewrite !(startsWith_digit d) by (exact Hd || reflexivity).
  rewrite P1, P2, P3.
  rewrite (Number_toString_num 16 _ (channel_small _ C1)),
    (Number_toString_num 16 _ (channel_small _ C2)),
    (Number_toString_num 16 _ (channel_small _ C3)).
  reflexivity.
Qed.

Lemma digitRun_cons d : digitRun d -> exists c s, d = c :: s /\ isDigit c = true.
Proof.
  intros [Hn Hd]. destruct d as [|c s]; [contradiction|].
  cbn [forallb] in Hd. apply andb_true_iff in Hd as [Hc _]. eauto.
Qed.

Lemma digitRun_kept d : digitRun d -> kept d.
Proof.
  intros [Hn Hd]. split; [|exact Hn]. apply trimEnd_noWs.
  unfold noWs. rewrite forallb_forall in *. intros x Hx.
  rewrite (isDigit_not_ws x (Hd x Hx)). reflexivity.
Qed.

Lemma natDigits_decimal f : forall n, 0 <= n ->
  forallb isDigit (natDigits f 10 n) = true.
Proof.
  assert (D : forall d, 0 <= d < 10 -> isDigit (digitChar d) = true).
  { intros d Hd. unfold digitChar. destruct (d <? 10) eqn:Hlt; [|lia].
    unfold isDigit. apply andb_true_iff. split; apply N.leb_le; lia. }
  induction f as [|f IH]; intros n Hn; [reflexivity|].
  cbn [natDigits]. destruct (n <? 10) eqn:Hlt.
  - cbn [forallb]. rewrite D by lia. reflexivity.
  - rewrite forallb_app, IH by (apply Z.div_pos; lia).
    cbn [forallb]. rewrite D by (apply Z.mod_pos_bound; lia). reflexivity.
Qed.

(** The default name of a line is left as it is by [trim]. *)
Lemma colorName_trim idx :
  0 <= idx < 10 ^ 21 ->
  strOr (trim (lit "Color " ++ Number_toString 10 (num idx)))
        (lit "Color " ++ Number_toString 10 (num idx))
  = lit "Color " ++ Number_toString 10 (num idx).
Proof.
  intros Hidx. rewrite Number_toString_num by lia.
  assert (T : trim (lit "Color " ++ intToString 10 idx)
              = lit "Color " ++ intToString 10 idx).
  { unfold trim. change (lit "Color " ++ intToString 10 idx)
      with (67%N :: (skipn 1 (lit "Color ")) ++ intToString 10 idx).
    rewrite (trimStart_head 67%N) by reflexivity.
    change (67%N :: skipn 1 (lit "Color ") ++ intToString 10 idx)
      with (lit "Color " ++ intToString 10 idx).
    unfold intToString. destruct (idx <? 0) eqn:Hneg; [lia|].
    remember (S (Z.to_nat (Z.log2 (Z.abs idx)))) as f.
    pose proof (natDigits_decimal f idx (proj1 Hidx)) as Hd.
    destruct f as [|f]; [discriminate Heqf|].
    assert (Hne : natDigits (S f) 10 idx <> []).
    { cbn [natDigits]. destruct (idx <? 10); [discriminate|].
      intros K. apply app_eq_nil in K as [_ K]. discriminate K. }
    apply proj1 with (B := lit "Color " ++ natDigits (S f) 10 idx <> []).
    apply kept_app. apply digitRun_kept. split; assumption. }
  rewrite T. reflexivity.
Qed.

(** X6: a line of three decimal integers, of any size, separated by single
    spaces: each integer is capped at 255 and the three channels are printed
    as the color.  The name is the rest of the line as it stands when it is
    made of words separated by single spaces, and [Color n], with [n] the
    counter, when there is none. *)
Theorem gplItem_caps_channels (idx : Z) (d1 d2 d3 c : str) :
  0 <= idx < 10 ^ 21 ->
  digitRun d1 -> digitRun d2 -> digitRun d3 -> clean c = true ->
  gplItem idx (d1 ++ [SP] ++ d2 ++ [SP] ++ d3 ++ [SP] ++ c)
  = Some {| fname := c; findex := num idx;
            fhex := hexOf (Z.min 255 (decimal d1)) (Z.min 255 (decimal d2))
                          (Z.min 255 (decimal d3)) |}
  /\ gplItem idx (d1 ++ [SP] ++ d2 ++ [SP] ++ d3)
     = Some {| fname := lit "Color " ++ Number_toString 10 (num idx);
               findex := num idx;
               fhex := hexOf (Z.min 255 (decimal d1)) (Z.min 255 (decimal d2))
                             (Z.min 255 (decimal d3)) |}.
Proof.
  intros Hidx R1 R2 R3 Hc.
  destruct (digitRun_cons d1 R1) as [a1 [s1 [E1 H1]]].
  destruct (digitRun_cons d2 R2) as [a2 [s2 [E2 H2]]].
  destruct (digitRun_cons d3 R3) as [a3 [s3 [E3 H3]]].
  destruct (clean_head c Hc) as [x [c' [Ec Hx]]].
  pose proof (proj2 R1) as F1. pose proof (proj2 R2) as F2. pose proof (proj2 R3) as F3.
  assert (Kc : kept c) by (split; [apply (cleanFrom_trimEnd c true Hc)|
                                   rewrite Ec; discriminate]).
  split.
  - assert (Ht : trim (d1 ++ [SP] ++ d2 ++ [SP] ++ d3 ++ [SP] ++ c)
                 = d1 ++ [SP] ++ d2 ++ [SP] ++ d3 ++ [SP] ++ c).
    { unfold trim. rewrite E1 at 1. cbn [app].
      rewrite (trimStart_head a1) by (apply isDigit_not_ws, H1).
      change (a1 :: s1 ++ SP :: d2 ++ SP :: d3 ++ SP :: c)
        with ((a1 :: s1) ++ [SP] ++ d2 ++ [SP] ++ d3 ++ [SP] ++ c).
      rewrite <- E1.
      apply proj1 with (B := d1 ++ [SP] ++ d2 ++ [SP] ++ d3 ++ [SP] ++ c <> []).
      repeat (exact Kc || apply kept_app). }
    rewrite (gplItem_matched idx _ d1 d2 d3 c).
    + cbn [strOr]. rewrite Ec at 1 2. cbn [strOr]. rewrite <- Ec, (clean_trim c Hc).
      rewrite Ec at 1. cbn [strOr]. rewrite <- Ec. reflexivity.
    + rewrite Ht, E1, E2, E3, Ec.
      apply (matchGplLine_blocks a1 s1 SP [] a2 s2 SP [] a3 s3 SP [] x c');
        try reflexivity; try (rewrite <- ?E1, <- ?E2, <- ?E3; assumption).
      rewrite <- Ec. apply (clean_no_terminator c Hc).
  - assert (Ht : trim (d1 ++ [SP] ++ d2 ++ [SP] ++ d3)
                 = d1 ++ [SP] ++ d2 ++ [SP] ++ d3).
    { unfold trim. rewrite E1 at 1. cbn [app].
      rewrite (trimStart_head a1) by (apply isDigit_not_ws, H1).
      change (a1 :: s1 ++ SP :: d2 ++ SP :: d3)
        with ((a1 :: s1) ++ [SP] ++ d2 ++ [SP] ++ d3).
      rewrite <- E1.
      apply proj1 with (B := d1 ++ [SP] ++ d2 ++ [SP] ++ d3 <> []).
      repeat (exact (digitRun_kept d3 R3) || apply kept_app). }
    rewrite (gplItem_matched idx _ d1 d2 d3 []).
    + cbn [strOr]. rewrite (colorName_trim idx Hidx). reflexivity.
    + rewrite Ht, E1, E2, E3.
      apply (matchGplLine_no_name a1 s1 SP [] a2 s2 SP [] a3 s3);
        try reflexivity; rewrite <- ?E1, <- ?E2, <- ?E3; assumption.
Qed.

(** ** Loading a GIMP palette *)

(** The run of the [map] of line 472: one identifier is drawn per parsed item,
    in order, and nothing else of the page changes. *)
Lemma mapM_load_run l :
  forall w, exists l',
    mapM (fun x => bind makeId (fun i =>
            ret {| id := i; name := fname x; index := findex x;
                   hex := normalizeHex (fhex x) |})) l w
    = (inr l', {| items := items w; inName := inName w; inIndex := inIndex w;
                  inColor := inColor w; statusMsg := statusMsg w;
                  idCalls := (idCalls w + length l)%nat |})
    /\ Forall2 loadedFrom l l'
    /\ map id l' = map (idSource E) (seq (idCalls w) (length l)).
Proof.
  induction l as [|x l IH]; intros w.
  - exists []. cbn [mapM length seq map]. rewrite Nat.add_0_r. unfold ret.
    destruct w; repeat split; constructor.
  - destruct (IH (countId w)) as [l' [Hm [Hf Hi]]].
    cbn [mapM]. unfold bind, makeId, ret in *. rewrite Hm.
    eexists. split; [|split].
    + cbn [countId items inName inIndex inColor statusMsg idCalls length].
      rewrite Nat.add_succ_r. reflexivity.
    + constructor; [repeat split|exact Hf].
    + cbn [map id length seq]. rewrite Hi. reflexivity.
Qed.

Lemma numbered_loaded es :
  Forall readEntry es ->
  forall idx L,
    Forall2 loadedFrom (numbered idx es) L ->
    map triple L = numbered idx es
    /\ Forall (fun it => canonicalHex (hex it) /\ hasNonWs (name it) = true) L.
Proof.
  induction 1 as [|[[[r g] b] n] es [Hr [Hg [Hb Hn]]] _ IH]; intros idx L HL.
  - inversion HL. split; constructor.
  - cbn [numbered] in HL. inversion HL as [|p it ps L' [H1 [H2 H3]] HL']; subst.
    cbn [fname findex fhex] in *.
    rewrite (normalizeHex_canonical _ (hexOf_canonical r g b Hr Hg Hb)) in H3.
    destruct (IH _ _ HL') as [IH1 IH2].
    split.
    + cbn [map numbered]. rewrite IH1. unfold triple. rewrite H1, H2, H3.
      reflexivity.
    + constructor; [|exact IH2]. rewrite H1, H3.
      split; [apply hexOf_canonical; assumption|exact Hn].
Qed.

(** X7: choosing a file whose name ends in [.gpl], in any case of letters,
    cannot fail, whatever the file holds.  The store becomes the parsed items
    as they are (their colors need no normalising), each with an identifier
    drawn in order; every item has a color of the form [#RRGGBB] and a name
    that is not blank; the status gives their number, and the three inputs
    are left alone. *)
Theorem load_gpl_file (f : File) (w : World) :
  endsWith (toLowerCase (fileName f)) (lit ".gpl") = true ->
  let parsed := parseGpl (fileText f) in
  let w' := after (fileInput_change (Some f)) w in
  outcome (fileInput_change (Some f)) w = inr tt
  /\ map triple (items w') = parsed
  /\ map id (items w') = map (idSource E) (seq (idCalls w) (length parsed))
  /\ idCalls w' = (idCalls w + length parsed)%nat
  /\ Forall (fun it => canonicalHex (hex it) /\ hasNonWs (name it) = true)
            (items w')
  /\ statusMsg w'
     = lit "Loaded " ++ Number_toString 10 (num (Z.of_nat (length parsed)))
       ++ lit " colors from GPL"
  /\ (inName w', inIndex w', inColor w') = (inName w, inIndex w, inColor w).
Proof.
  intros Hext parsed w'. subst parsed w'.
  destruct (mapM_load_run (parseGpl (fileText f)) w) as [l' [Hm [Hf Hi]]].
  assert (Hrun : loadGpl (fileText f) w
                 = (inr tt,
                    {| items := l'; inName := inName w; inIndex := inIndex w;
                       inColor := inColor w;
                       statusMsg := lit "Loaded "
                         ++ Number_toString 10 (num (Z.of_nat (length l')))
                         ++ lit " colors from " ++ lit "GPL";
                       idCalls := (idCalls w + length (parseGpl (fileText f)))%nat |})).
  { unfold loadGpl. cbv zeta. unfold bind at 1. rewrite Hm. reflexivity. }
  unfold outcome, after, fileInput_change, tryCatch, loadBody.
  cbv zeta. rewrite Hext, Hrun.
  cbn [fst snd items inName inIndex inColor statusMsg idCalls].
  destruct (parseGplLoop_read (gplLines (fileText f)) 0) as [es [Hes Hr]].
  fold (parseGpl (fileText f)) in Hes.
  pose proof Hf as Hf'. rewrite Hes in Hf'.
  destruct (numbered_loaded es Hr 0 l' Hf') as [Ht Hc].
  assert (Hlen : length l' = length (parseGpl (fileText f)))
    by (symmetry; apply (Forall2_length Hf)).
  split; [reflexivity|]. split; [rewrite Ht, Hes; reflexivity|].
  split; [exact Hi|]. split; [reflexivity|]. split; [exact Hc|].
  split; [rewrite Hlen; reflexivity|reflexivity].
Qed.

(** ** Writing a store as a GIMP palette and reading the text *)

Lemma normalizeHex_idem h : normalizeHex (normalizeHex h) = normalizeHex h.
Proof. apply normalizeHex_canonical, normalizeHex_is_canonical. Qed.

(** The line of an item is the line of an entry. *)
Lemma gplLine_entry it :
  exists r g b,
    channel r /\ channel g /\ channel b
    /\ hexOf r g b = normalizeHex (hex it)
    /\ gplLine it = entryLine (r, g, b, trim (collapseWs (name it))).
Proof.
  destruct (canonical_channels _ (normalizeHex_is_canonical (hex it)))
    as [r [g [b [Hr [Hg [Hb [Hrgb Hh]]]]]]].
  exists r, g, b. repeat (split; [assumption|]).
  assert (Hrgb' : hexToRgb (hex it) = (num r, num g, num b)).
  { rewrite <- Hrgb. unfold hexToRgb. rewrite normalizeHex_idem. reflexivity. }
  unfold gplLine, entryLine, dec3. rewrite Hrgb'.
  rewrite !Number_toString_num by (apply channel_small; assumption).
  reflexivity.
Qed.

Lemma decimal_of_channel z d :
  channel z ->
  digitRun d ->
  clamp (numOr (parseInt d 10) (num 0)) (num 0) (num 255) = num z ->
  Z.min 255 (decimal d) = z.
Proof.
  intros Hz Hd Hp. destruct (channel_of_digitRun d Hd) as [H _].
  rewrite H in Hp. apply num_inj, Hp.
Qed.

(** A written line without a name is read with the default name. *)
Lemma gplItem_entry_blank idx r g b :
  0 <= idx < 10 ^ 21 ->
  channel r -> channel g -> channel b ->
  gplItem idx (entryLine (r, g, b, []))
  = Some {| fname := lit "Color " ++ intToString 10 idx; findex := num idx;
            fhex := hexOf r g b |}.
Proof.
  intros Hidx Hr Hg Hb.
  destruct (channel_dec r Hr) as [r0 [dr [Er [Hr0 [Hdr [_ Pr]]]]]].
  destruct (channel_dec g Hg) as [g0 [dg [Eg [Hg0 [Hdg [_ Pg]]]]]].
  destruct (channel_dec b Hb) as [b0 [db [Eb [Hb0 [Hdb [_ Pb]]]]]].
  set (kr := (3 - length (r0 :: dr))%nat).
  set (kg := (3 - length (g0 :: dg))%nat).
  set (kb := (3 - length (b0 :: db))%nat).
  assert (R1 : digitRun (r0 :: dr))
    by (split; [discriminate|cbn [forallb]; rewrite Hr0, Hdr; reflexivity]).
  assert (R2 : digitRun (g0 :: dg))
    by (split; [discriminate|cbn [forallb]; rewrite Hg0, Hdg; reflexivity]).
  assert (R3 : digitRun (b0 :: db))
    by (split; [discriminate|cbn [forallb]; rewrite Hb0, Hdb; reflexivity]).
  assert (Hline : trim (entryLine (r, g, b, []))
                  = (r0 :: dr) ++ (SP :: repeat SP kg) ++ (g0 :: dg)
                    ++ (SP :: repeat SP kb) ++ (b0 :: db)).
  { unfold entryLine, dec3, padStart. rewrite Er, Eg, Eb. fold kr kg kb.
    change (lit " ") with [SP]. rewrite app_nil_r.
    replace ((repeat SP kr ++ r0 :: dr) ++ [SP] ++ (repeat SP kg ++ g0 :: dg)
             ++ [SP] ++ (repeat SP kb ++ b0 :: db) ++ [TAB])
      with ((repeat SP kr ++ (r0 :: dr) ++ (SP :: repeat SP kg) ++ (g0 :: dg)
             ++ (SP :: repeat SP kb) ++ (b0 :: db)) ++ [TAB])
      by (rewrite <- ?app_assoc; cbn [app]; rewrite <- ?app_assoc; reflexivity).
    rewrite trim_snoc_ws by reflexivity.
    unfold trim. rewrite trimStart_spaces.
    cbn [app]. rewrite (trimStart_head r0) by (apply isDigit_not_ws, Hr0).
    apply proj1 with (B := r0 :: dr ++ SP :: repeat SP kg ++ g0 :: dg
                           ++ SP :: repeat SP kb ++ b0 :: db <> []).
    repeat (exact (digitRun_kept _ R3) || apply kept_cons || apply kept_app). }
  rewrite (gplItem_matched idx _ (r0 :: dr) (g0 :: dg) (b0 :: db) []).
  - cbn [strOr]. rewrite (colorName_trim idx Hidx).
    rewrite Number_toString_num by lia.
    rewrite (decimal_of_channel r _ Hr R1 Pr), (decimal_of_channel g _ Hg R2 Pg),
      (decimal_of_channel b _ Hb R3 Pb).
    reflexivity.
  - rewrite Hline. apply matchGplLine_no_name.
    + apply (proj2 R1).
    + apply forallb_spaces.
    + apply (proj2 R2).
    + apply forallb_spaces.
    + apply (proj2 R3).
Qed.

Lemma written_blank_or_clean n :
  trim (collapseWs n) = [] \/ clean (trim (collapseWs n)) = true.
Proof.
  destruct (hasNonWs n) eqn:Hn; [right; apply written_name_clean, Hn|left].
  destruct (trim_empty_or_nonWs (collapseWs n)) as [K|K]; [exact K|].
  rewrite hasNonWs_trim in K. unfold collapseWs in K.
  rewrite hasNonWs_collapse in K. congruence.
Qed.

(** One written line, read back. *)
Lemma gplItem_gplLine idx it :
  0 <= idx < 10 ^ 21 ->
  gplItem idx (gplLine it)
  = Some {| fname := strOr (trim (collapseWs (name it)))
                           (lit "Color " ++ intToString 10 idx);
            findex := num idx;
            fhex := normalizeHex (hex it) |}
  /\ noBreak (gplLine it) = true.
Proof.
  intros Hidx.
  destruct (gplLine_entry it) as [r [g [b [Hr [Hg [Hb [Hh Hl]]]]]]].
  rewrite Hl, <- Hh.
  destruct (written_blank_or_clean (name it)) as [Hc|Hc].
  - rewrite Hc. cbn [strOr]. split.
    + apply gplItem_entry_blank; assumption.
    + unfold entryLine. rewrite !noBreak_app, !noBreak_dec3 by assumption.
      reflexivity.
  - split.
    + rewrite (gplItem_entry idx r g b _ (conj Hr (conj Hg (conj Hb Hc)))).
      destruct (clean_head _ Hc) as [x [c' [-> _]]]. reflexivity.
    + apply noBreak_entryLine. repeat (split; [assumption|]). exact Hc.
Qed.

Lemma parseGplLoop_gplLines L :
  forall idx, 0 <= idx -> idx + Z.of_nat (length L) <= 10 ^ 21 ->
    parseGplLoop (map gplLine L ++ [[]]) [] idx = reread idx L.
Proof.
  induction L as [|it L IH]; intros idx H0 Hn; [reflexivity|].
  cbn [length] in Hn. rewrite Nat2Z.inj_succ in Hn.
  cbn [map app parseGplLoop reread].
  rewrite (proj1 (gplItem_gplLine idx it ltac:(lia))), parseGplLoop_out.
  rewrite IH by lia. reflexivity.
Qed.

Lemma sortBy_length {A} (cmp : A -> A -> number) l :
  length (sortBy cmp l) = length l.
Proof.
  assert (K : forall x s, length (insertBy cmp x s) = S (length s)).
  { intros x s. induction s as [|y s IH]; [reflexivity|].
    cbn [insertBy]. destruct (numNeg (cmp y x)); [|reflexivity].
    cbn [length]. rewrite IH. reflexivity. }
  induction l as [|x l IH]; [reflexivity|].
  unfold sortBy in *. cbn [fold_right length]. rewrite K, IH. reflexivity.
Qed.

(** ** The sort by index *)

Lemma insertBy_perm {A} (cmp : A -> A -> number) x s :
  Permutation (insertBy cmp x s) (x :: s).
Proof.
  induction s as [|y s IH]; [apply Permutation_refl|].
  cbn [insertBy]. destruct (numNeg (cmp y x)); [|apply Permutation_refl].
  eapply Permutation_trans; [apply perm_skip, IH|apply perm_swap].
Qed.

Lemma sortBy_perm {A} (cmp : A -> A -> number) l : Permutation (sortBy cmp l) l.
Proof.
  induction l as [|x l IH]; [apply Permutation_refl|].
  unfold sortBy in *. cbn [fold_right].
  eapply Permutation_trans; [apply insertBy_perm|apply perm_skip, IH].
Qed.

(** The comparator on numbers that are not NaN: a difference that is not
    negative tells [a <= b], a negative one [b <= a]. *)
Lemma numSub_sign a b :
  isNaN a = false -> isNaN b = false ->
  if numNeg (numSub b a) then numLe b a = true else numLe a b = true.
Proof.
  destruct a as [|[|]|x], b as [|[|]|y]; cbn; intros Ha Hb;
    try discriminate Ha; try discriminate Hb; try reflexivity.
  destruct (Qle_bool 0 (y - x)) eqn:H; cbn [negb].
  - apply Qle_bool_iff in H. apply Qle_bool_iff.
    apply (Qplus_le_l _ _ (- x)). rewrite Qplus_opp_r. exact H.
  - apply Qle_bool_iff. destruct (Qlt_le_dec y x) as [K|K];
      [apply Qlt_le_weak, K|].
    exfalso. assert (K' : Qle 0 (y - x)).
    { apply (Qplus_le_l _ _ x). unfold Qminus. rewrite <- Qplus_assoc.
      rewrite (Qplus_comm (- x) x), Qplus_opp_r, Qplus_0_r, Qplus_0_l. exact K. }
    apply Qle_bool_iff in K'. congruence.
Qed.

Lemma numEq_not_neg a b k :
  numEq a k = true -> numEq b k = true -> numNeg (numSub a b) = false.
Proof.
  destruct a as [|[|]|x], b as [|[|]|y], k as [|[|]|z]; cbn; try discriminate;
    try reflexivity.
  intros H1 H2. apply Qeq_bool_iff in H1. apply Qeq_bool_iff in H2.
  apply negb_false_iff. apply Qle_bool_iff. rewrite H1, H2.
  unfold Qminus. rewrite Qplus_opp_r. apply Qle_refl.
Qed.

Lemma insertBy_ascending x s :
  isNaN (index x) = false ->
  Forall (fun it => isNaN (index it) = false) s ->
  ascending s -> ascending (insertBy byIndex x s).
Proof.
  unfold ascending. intros Hx Hs Ha.
  induction Ha as [|y s Ha IH Hd]; [repeat constructor|].
  inversion Hs as [|? ? Hy Hs']; subst.
  cbn [insertBy]. pose proof (numSub_sign (index x) (index y) Hx Hy) as Hc.
  unfold byIndex at 1. destruct (numNeg (numSub (index y) (index x))).
  - constructor; [exact (IH Hs')|].
    destruct s as [|z s]; cbn [insertBy]; [constructor; exact Hc|].
    destruct (numNeg (byIndex z x)); constructor; [|exact Hc].
    inversion Hd; assumption.
  - constructor; [constructor; assumption|constructor; exact Hc].
Qed.

Lemma insertBy_filter x s k :
  filter (fun it => numEq (index it) k) (insertBy byIndex x s)
  = filter (fun it => numEq (index it) k) (x :: s).
Proof.
  induction s as [|y s IH]; [reflexivity|].
  cbn [insertBy]. unfold byIndex at 1.
  destruct (numNeg (numSub (index y) (index x))) eqn:Hc; [|reflexivity].
  cbn [filter] in *. rewrite IH.
  destruct (numEq (index x) k) eqn:Ex; [|reflexivity].
  destruct (numEq (index y) k) eqn:Ey; [|reflexivity].
  rewrite (numEq_not_neg _ _ _ Ey Ex) in Hc. discriminate Hc.
Qed.

(** X9: the sort of [toGpl], of the save handler and of the PNG handler, on
    items whose indices are numbers.  The result holds the same items, in
    ascending order of index; items with the same index keep the order they
    had in the store; and sorting again changes nothing. *)
Theorem sortBy_byIndex_sorts (l : list PaletteItem) :
  Forall (fun it => isNaN (index it) = false) l ->
  Permutation (sortBy byIndex l) l
  /\ ascending (sortBy byIndex l)
  /\ (forall k, filter (fun it => numEq (index it) k) (sortBy byIndex l)
                = filter (fun it => numEq (index it) k) l)
  /\ sortBy byIndex (sortBy byIndex l) = sortBy byIndex l.
Proof.
  intros Hl.
  assert (Ha : ascending (sortBy byIndex l)).
  { induction Hl as [|x l Hx Hl IH]; [constructor|].
    unfold sortBy in *. cbn [fold_right]. apply insertBy_ascending; [exact Hx| |exact IH].
    eapply Permutation_Forall; [|exact Hl].
    apply Permutation_sym, (sortBy_perm byIndex l). }
  split; [apply sortBy_perm|]. split; [exact Ha|]. split.
  - intros k. clear. induction l as [|x l IH]; [reflexivity|].
    unfold sortBy in *. cbn [fold_right]. rewrite insertBy_filter.
    cbn [filter]. rewrite IH. reflexivity.
  - apply sortBy_ascending, Ha.
Qed.

(** ** Saving a store in any order as JSON *)

Lemma ascending_index a : forall b,
  map index a = map index b -> ascending b -> ascending a.
Proof.
  unfold ascending.
  induction a as [|x a IH]; intros [|y b] H Hb; try discriminate; [constructor|].
  cbn [map] in H. injection H as Hxy Hab.
  inversion Hb as [|? ? Hs Hd]; subst.
  constructor; [exact (IH b Hab Hs)|].
  destruct a as [|x' a], b as [|y' b]; try discriminate; [constructor|].
  cbn [map] in Hab. injection Hab as Hxy' _.
  inversion Hd as [|? ? Hr]; subst. constructor.
  rewrite Hxy, Hxy'. exact Hr.
Qed.

Lemma ascending_triple a b :
  map triple a = map triple b -> ascending b -> ascending a.
Proof.
  intros H. apply ascending_index.
  apply (f_equal (map findex)) in H. rewrite !map_map in H. exact H.
Qed.

Lemma num_not_NaN l :
  Forall (fun x => exists z, 0 <= z <= 999999 /\ index x = num z) l ->
  Forall (fun it => isNaN (index it) = false) l.
Proof.
  apply Forall_impl. intros x [z [_ ->]]. reflexivity.
Qed.

Lemma sortBy_byIndex_ascending l :
  Forall (fun it => isNaN (index it) = false) l -> ascending (sortBy byIndex l).
Proof.
  intros Hl. induction Hl as [|x l Hx Hl IH]; [constructor|].
  unfold sortBy in *. cbn [fold_right].
  apply insertBy_ascending; [exact Hx| |exact IH].
  eapply Permutation_Forall; [|exact Hl].
  apply Permutation_sym, (sortBy_perm byIndex l).
Qed.

(** X10: saving as JSON and loading the document, for a store in any order,
    empty or not, whose colors are canonical and whose indices are integers
    from 0 to 999999.  The load succeeds and the store comes back sorted:
    the items of the store in ascending order of index, those of equal index
    in the order they had, each with its name, index and color. *)
Theorem json_save_load_sorts (l : list PaletteItem) (w : World) :
  Forall (fun x => canonicalHex (hex x)) l ->
  Forall (fun x => exists z, 0 <= z <= 999999 /\ index x = num z) l ->
  let w' := after (loadJson (savePayload l)) w in
  outcome (loadJson (savePayload l)) w = inr tt
  /\ map triple (items w') = map triple (sortBy byIndex l)
  /\ ascending (items w')
  /\ Permutation (map triple (items w')) (map triple l).
Proof.
  intros Hh Hi w'. subst w'.
  pose proof (sortBy_perm byIndex l) as Hp.
  assert (Hh' : Forall (fun x => canonicalHex (hex x)) (sortBy byIndex l))
    by (eapply Permutation_Forall; [apply Permutation_sym, Hp|exact Hh]).
  assert (Hi' : Forall (fun x => exists z, 0 <= z <= 999999 /\ index x = num z)
                       (sortBy byIndex l))
    by (eapply Permutation_Forall; [apply Permutation_sym, Hp|exact Hi]).
  pose proof (loadJson_run (savePayload l) w) as H.
  change (isPaletteV1 (savePayload l))
    with (Some (map jsonItem (sortBy byIndex l))) in H.
  destruct (mapM_decode_payload (sortBy byIndex l) Hh' Hi' w) as [l' [w1 [Hm Ht]]].
  cbv beta iota in H. rewrite Hm in H. destruct H as [Ho Hitems].
  split; [exact Ho|]. rewrite Hitems.
  split; [exact Ht|]. split.
  - apply (ascending_triple _ _ Ht), sortBy_byIndex_ascending, num_not_NaN, Hi.
  - rewrite Ht. apply Permutation_map, Hp.
Qed.

(** ** The add path of [addOrUpdate] and the index it proposes next *)

Lemma intToString_digitRun n : 0 <= n -> digitRun (intToString 10 n).
Proof.
  intros Hn. unfold intToString. destruct (n <? 0) eqn:Hneg; [lia|].
  split; [|apply natDigits_decimal, Hn].
  cbn [natDigits]. destruct (n <? 10); [discriminate|].
  intros K. apply app_eq_nil in K as [_ K]. discriminate K.
Qed.

(** The whole run of [addOrUpdate], which raises nothing. *)
Lemma addOrUpdate_run w :
  addOrUpdate w
  = (inr tt,
     let found := find (sameIndex (inputIndex w)) (items w) in
     let l := match found with
              | Some _ => assignFirst (sameIndex (inputIndex w)) (inputName w)
                                      (inputHex w) (items w)
              | None => items w ++ [{| id := idSource E (idCalls w);
                                       name := inputName w;
                                       index := inputIndex w;
                                       hex := inputHex w |}]
              end in
     {| items := l;
        inName := inName w;
        inIndex := Number_toString 10 (num (Z.of_nat (length l)));
        inColor := inColor w;
        statusMsg := (match found with
                      | Some _ => lit "Updated index "
                      | None => lit "Added index "
                      end) ++ Number_toString 10 (inputIndex w);
        idCalls := match found with
                   | Some _ => idCalls w
                   | None => S (idCalls w)
                   end |}).
Proof.
  unfold addOrUpdate, bind, getWorld. cbv zeta.
  destruct (find (sameIndex (inputIndex w)) (items w)); reflexivity.
Qed.

Lemma assignFirst_length p nm hx l : length (assignFirst p nm hx l) = length l.
Proof.
  induction l as [|x l IH]; [reflexivity|]. cbn [assignFirst].
  destruct (p x); cbn [length]; [reflexivity|]. rewrite IH. reflexivity.
Qed.

(** The index that [addOrUpdate] reads from an input that holds a count. *)
Lemma inputIndex_count w n :
  0 <= n <= 999999 -> inIndex w = intToString 10 n -> inputIndex w = num n.
Proof.
  intros Hn Hi. unfold inputIndex. rewrite Hi.
  pose proof (intToString_digitRun n (proj1 Hn)) as Hd.
  destruct (intToString 10 n) as [|c d] eqn:Ed; [destruct Hd as [K _]; contradiction|].
  cbn [strOr]. rewrite (parseInt_digitRun _ Hd), numOr_num, clamp_num.
  unfold decimal. rewrite <- Ed, intToString_reads_back by lia.
  f_equal. lia.
Qed.

Lemma find_none_all {A} (p : A -> bool) l :
  (forall x, In x l -> p x = false) -> find p l = None.
Proof.
  induction l as [|y l IH]; intros H; [reflexivity|].
  cbn [find]. rewrite (H y (or_introl eq_refl)). apply IH.
  intros x Hx. apply H. right. exact Hx.
Qed.

Lemma inputName_trim w : inputName w = trim (inName w).
Proof. unfold inputName. destruct (trim (inName w)); reflexivity. Qed.

(** X11: [addOrUpdate] raises nothing and leaves the name and color inputs
    as they are.  With fewer than 999999 items in the store, it leaves in the
    index input the number of items of the store, and that number is the
    index that the next call reads.  When no item carries the index that was
    typed, one item is appended: its name is the trimmed name input, its index
    the one typed, its color the normalized color input, and one identifier is
    drawn. *)
Theorem addOrUpdate_next_index (w : World) :
  Z.of_nat (length (items w)) < 999999 ->
  let w' := after addOrUpdate w in
  outcome addOrUpdate w = inr tt
  /\ inIndex w' = intToString 10 (Z.of_nat (length (items w')))
  /\ inputIndex w' = num (Z.of_nat (length (items w')))
  /\ inName w' = inName w /\ inColor w' = inColor w
  /\ ((forall x, In x (items w) -> sameIndex (inputIndex w) x = false) ->
      items w'
      = items w ++ [{| id := idSource E (idCalls w); name := trim (inName w);
                       index := inputIndex w;
                       hex := normalizeHex (inColor w) |}]
      /\ idCalls w' = S (idCalls w)
      /\ statusMsg w' = lit "Added index " ++ Number_toString 10 (inputIndex w)).
Proof.
  intros Hlen w'. subst w'. unfold outcome, after. rewrite addOrUpdate_run.
  cbv zeta. cbn [fst snd items inName inIndex inColor statusMsg idCalls].
  set (l := match find (sameIndex (inputIndex w)) (items w) with
            | Some _ => _ | None => _ end).
  assert (Hl : Z.of_nat (length l) <= 999999).
  { subst l. destruct (find (sameIndex (inputIndex w)) (items w)).
    - rewrite assignFirst_length. lia.
    - rewrite length_app. cbn [length]. lia. }
  assert (Hs : Number_toString 10 (num (Z.of_nat (length l)))
               = intToString 10 (Z.of_nat (length l)))
    by (apply Number_toString_num; lia).
  split; [reflexivity|]. split; [exact Hs|]. split.
  - apply inputIndex_count; [lia|exact Hs].
  - split; [reflexivity|]. split; [reflexivity|].
    intros Hnone. subst l. rewrite (find_none_all _ _ Hnone).
    rewrite inputName_trim. repeat split.
Qed.

Lemma index_in_triples (f : nat -> FileItem) l k x :
  map triple l = map f (seq 0 k) -> In x l ->
  exists i, (i < k)%nat /\ triple x = f i.
Proof.
  intros H Hx. apply (in_map triple) in Hx. rewrite H in Hx.
  apply in_map_iff in Hx as [i [Hi Hin]]. apply in_seq in Hin.
  exists i. split; [lia|symmetry; exact Hi].
Qed.

(** X12: clicking Add again and again.  From an empty store with the index
    input at 0, [n] calls of [addOrUpdate] without touching the inputs in
    between add [n] items: the call number [i] finds the index [i] in the
    input and free in the store, so the items carry the indices 0 to [n-1]
    in order, all with the name and the color of the inputs, and the
    identifiers are drawn in order. *)
Theorem addOrUpdate_repeated (w : World) (n : nat) :
  items w = [] -> inputIndex w = num 0 -> Z.of_nat n <= 999999 ->
  let w' := Nat.iter n (after addOrUpdate) w in
  map triple (items w')
  = map (fun i => {| fname := trim (inName w); findex := num (Z.of_nat i);
                     fhex := normalizeHex (inColor w) |}) (seq 0 n)
  /\ map id (items w') = map (idSource E) (seq (idCalls w) n)
  /\ inputIndex w' = num (Z.of_nat n).
Proof.
  intros Hitems Hix Hn. cbv zeta.
  set (f := fun i => {| fname := trim (inName w); findex := num (Z.of_nat i);
                        fhex := normalizeHex (inColor w) |}).
  assert (H : map triple (items (Nat.iter n (after addOrUpdate) w)) = map f (seq 0 n)
              /\ map id (items (Nat.iter n (after addOrUpdate) w))
                 = map (idSource E) (seq (idCalls w) n)
              /\ inputIndex (Nat.iter n (after addOrUpdate) w) = num (Z.of_nat n)
              /\ inName (Nat.iter n (after addOrUpdate) w) = inName w
              /\ inColor (Nat.iter n (after addOrUpdate) w) = inColor w
              /\ idCalls (Nat.iter n (after addOrUpdate) w) = (idCalls w + n)%nat).
  { induction n as [|k IH].
    - change (Nat.iter 0 (after addOrUpdate) w) with w. cbn [seq map].
      rewrite Hitems, Hix, Nat.add_0_r. repeat split.
    - destruct (IH ltac:(lia)) as [Ht [Hid [Hi [Hnm [Hcl Hc]]]]]. clear IH.
      change (Nat.iter (S k) (after addOrUpdate) w)
        with (after addOrUpdate (Nat.iter k (after addOrUpdate) w)).
      set (wk := Nat.iter k (after addOrUpdate) w) in *.
      assert (Hlen : length (items wk) = k).
      { rewrite <- (length_map triple), Ht, length_map, length_seq. reflexivity. }
      assert (Hnone : find (sameIndex (inputIndex wk)) (items wk) = None).
      { apply find_none_all. intros x Hx.
        destruct (index_in_triples f _ _ x Ht Hx) as [i [Hik Hxi]].
        unfold sameIndex. rewrite Hi.
        replace (index x) with (findex (triple x)) by reflexivity.
        rewrite Hxi. cbn [f findex]. rewrite numEq_num. apply Z.eqb_neq. lia. }
      unfold after at 1 2 3 4 5 6. rewrite addOrUpdate_run. cbv zeta.
      rewrite Hnone. cbn [snd items inName inIndex inColor statusMsg idCalls].
      rewrite !map_app, Ht, Hid, !seq_S, !map_app. cbn [map triple id name index hex].
      rewrite inputName_trim, Hnm, Hi, Hcl, Hc. unfold inputHex. rewrite Hcl.
      split; [reflexivity|]. split; [reflexivity|].
      split; [|repeat split; lia].
      rewrite length_app, Hlen. cbn [length].
      replace (k + 1)%nat with (S k) by lia.
      apply inputIndex_count; [lia|].
      cbn [inIndex]. apply Number_toString_num. lia. }
  destruct H as [H1 [H2 [H3 _]]]. repeat split; assumption.
Qed.

(** ** The store across events *)

Lemma numLe_zero_num z : 0 <= z -> numLe (num 0) (num z) = true.
Proof.
  intros Hz. unfold numLe, num. rewrite Qle_bool_inject. apply Z.leb_le, Hz.
Qed.

Lemma assignFirst_ok p nm hx l :
  canonicalHex hx -> storeOk l -> storeOk (assignFirst p nm hx l).
Proof.
  intros Hh. unfold storeOk. induction 1 as [|x l [Hx Hi] Hl IH]; [constructor|].
  cbn [assignFirst]. destruct (p x); constructor; auto.
Qed.

Lemma addOrUpdate_ok w : storeOk (items w) -> storeOk (items (after addOrUpdate w)).
Proof.
  intros Hw. rewrite addOrUpdate_items.
  destruct (find (sameIndex (inputIndex w)) (items w)).
  - apply assignFirst_ok; [apply normalizeHex_is_canonical|exact Hw].
  - apply Forall_app. split; [exact Hw|]. constructor; [|constructor].
    cbn [hex index]. split; [apply normalizeHex_is_canonical|].
    destruct (inputIndex_num w) as [z [Hz ->]]. apply numLe_zero_num. lia.
Qed.

Lemma numbered_loaded_index es :
  forall idx L, 0 <= idx ->
    Forall2 loadedFrom (numbered idx es) L ->
    Forall (fun it => numLe (num 0) (index it) = true) L.
Proof.
  induction es as [|[[[r g] b] n] es IH]; intros idx L Hidx HL.
  - inversion HL. constructor.
  - cbn [numbered] in HL. inversion HL as [|p it ps L' [_ [H2 _]] HL']; subst.
    constructor; [|apply (IH (idx + 1)); [lia|exact HL']].
    rewrite H2. apply numLe_zero_num, Hidx.
Qed.

Lemma loadGpl_store_ok text w : storeOk (items (after (loadGpl text) w)).
Proof.
  pose proof (loadGpl_items text w) as HL.
  destruct (parseGplLoop_read (gplLines text) 0) as [es [Hes Hr]].
  fold (parseGpl text) in Hes. rewrite Hes in HL.
  destruct (numbered_loaded es Hr 0 _ HL) as [_ Hc].
  pose proof (numbered_loaded_index es 0 _ ltac:(lia) HL) as Hi.
  unfold storeOk. rewrite Forall_forall in *. intros it Hit.
  split; [apply (Hc it Hit)|apply (Hi it Hit)].
Qed.

Lemma mapM_decodeItem_ok l :
  forall w l' w', mapM decodeItem l w = (inr l', w') -> storeOk l'.
Proof.
  induction l as [|x l IH]; intros w l' w' H.
  - cbn [mapM] in H. unfold ret in H. injection H as <- _. constructor.
  - cbn [mapM] in H. unfold bind at 1 in H.
    destruct (decodeItem x w) as [[e|it] w1] eqn:Hx; [discriminate H|].
    unfold bind, ret in H.
    destruct (mapM decodeItem l w1) as [[e|ys] w2] eqn:Hl; [discriminate H|].
    injection H as <- _.
    constructor; [|exact (IH _ _ _ Hl)].
    assert (Ho : outcome (decodeItem x) w = inr it)
      by (unfold outcome; rewrite Hx; reflexivity).
    destruct (decodeItem_ok x w it Ho) as [nm [n [hx [_ [_ [_ ->]]]]]].
    cbn [hex index]. split; [apply normalizeHex_is_canonical|].
    apply clamp_range, numOr_not_NaN.
Qed.

Lemma loadJson_store_ok data w :
  storeOk (items w) -> storeOk (items (after (loadJson data) w)).
Proof.
  intros Hw. pose proof (loadJson_run data w) as H.
  destruct (isPaletteV1 data) as [l|].
  - destruct (mapM decodeItem l w) as [[e|newItems] w1] eqn:Hm.
    + rewrite (loadJson_error_items data w e); [exact Hw|].
      unfold outcome. rewrite H. reflexivity.
    + destruct H as [_ ->]. exact (mapM_decodeItem_ok l w _ _ Hm).
  - unfold after. rewrite H. exact Hw.
Qed.

Lemma loadBody_store_ok f w :
  storeOk (items w) -> storeOk (items (after (loadBody f) w)).
Proof.
  intros Hw. unfold loadBody.
  destruct (endsWith (toLowerCase (fileName f)) (lit ".gpl")).
  - apply loadGpl_store_ok.
  - unfold after, bind, liftE.
    destruct (JSON_parse E (fileText f)) as [m|data]; [exact Hw|].
    apply loadJson_store_ok, Hw.
Qed.

Lemma fileInput_change_items f w :
  items (after (fileInput_change (Some f)) w) = items (after (loadBody f) w).
Proof.
  unfold after, fileInput_change, tryCatch.
  destruct (loadBody f w) as [[e|[]] w1]; reflexivity.
Qed.

Lemma handle_ok e w : storeOk (items w) -> storeOk (items (after (handle e) w)).
Proof.
  intros Hw. destruct e as [nm ix color| |[f|]|it|]; cbn [handle].
  - exact Hw.
  - apply addOrUpdate_ok, Hw.
  - rewrite fileInput_change_items. apply loadBody_store_ok, Hw.
  - exact Hw.
  - unfold storeOk in *. apply (incl_Forall (incl_filter _ _) Hw).
  - constructor.
Qed.

Lemma handle_returns e w : outcome (handle e) w = inr tt.
Proof.
  destruct e as [nm ix color| |[f|]|it|]; cbn [handle]; try reflexivity.
  - unfold outcome. rewrite addOrUpdate_run. reflexivity.
  - unfold outcome, fileInput_change, tryCatch.
    destruct (loadBody f w) as [[e|[]] w1]; reflexivity.
Qed.

(** X13: what no sequence of events breaks.  Every listener returns without
    an exception, whatever the page and the chosen file hold; and if every
    item of the store has a color of the form [#RRGGBB] in capital letters
    and an index that is a number from 0 up, this is so after any sequence
    of typing, clicks on Add, on a Remove button or on Reset, and choices of
    a file, whether the load succeeds or not.  No index of such a store is
    NaN, so the comparator of the sorts is consistent on it. *)
Theorem session_store_ok (es : list event) (w : World) :
  storeOk (items w) ->
  storeOk (items (session es w))
  /\ Forall (fun it => isNaN (index it) = false) (items (session es w))
  /\ forall e, outcome (handle e) (session es w) = inr tt.
Proof.
  intros Hw.
  assert (H : storeOk (items (session es w))).
  { revert w Hw. induction es as [|e es IH]; intros w Hw; [exact Hw|].
    cbn [session fold_left]. apply IH, handle_ok, Hw. }
  split; [exact H|]. split; [|intros e; apply handle_returns].
  eapply Forall_impl; [|exact H]. intros it [_ Hi].
  apply (proj2 (numLe_not_NaN _ _ Hi)).
Qed.

(** ** Removing a swatch and resetting *)

Lemma str_eqb_refl s : str_eqb s s = true.
Proof. apply str_eqb_eq. reflexivity. Qed.

Lemma filter_none {A} (p : A -> bool) l :
  (forall x, In x l -> p x = true) -> filter p l = l.
Proof.
  induction l as [|y l IH]; intros H; [reflexivity|].
  cbn [filter]. rewrite (H y (or_introl eq_refl)), IH; [reflexivity|].
  intros x Hx. apply H. right. exact Hx.
Qed.

(** X14: the Remove button of a swatch.  The items whose identifier is that
    of the swatch go, the others stay in their order, and nothing else of
    the page changes; when the identifiers of the store are pairwise
    distinct, exactly the item of the swatch goes. *)
Theorem del_click_removes (w : World) (it : PaletteItem) (l1 l2 : list PaletteItem) :
  items w = l1 ++ it :: l2 ->
  let w' := after (del_click it) w in
  (forall x, In x (items w') <-> In x (items w) /\ id x <> id it)
  /\ (length (items w') < length (items w))%nat
  /\ (NoDup (map id (items w)) -> items w' = l1 ++ l2)
  /\ (inName w', inIndex w', inColor w', statusMsg w', idCalls w')
     = (inName w, inIndex w, inColor w, statusMsg w, idCalls w).
Proof.
  intros Hl w'. subst w'. unfold after, del_click, bind, getWorld, setItems, render, ret.
  cbn [snd items inName inIndex inColor statusMsg idCalls].
  set (p := fun x => negb (str_eqb (id x) (id it))).
  assert (Hp : forall x, p x = true <-> id x <> id it).
  { intros x. unfold p. rewrite negb_true_iff. split.
    - intros H K. apply str_eqb_eq in K. congruence.
    - intros H. destruct (str_eqb (id x) (id it)) eqn:K; [|reflexivity].
      apply str_eqb_eq in K. contradiction. }
  assert (Hit : p it = false) by (unfold p; rewrite str_eqb_refl; reflexivity).
  split; [|split; [|split; [|reflexivity]]].
  - intros x. rewrite filter_In, Hp. reflexivity.
  - rewrite Hl, filter_app. cbn [filter]. rewrite Hit, !length_app. cbn [length].
    pose proof (filter_length_le p l1). pose proof (filter_length_le p l2). lia.
  - rewrite Hl, map_app. cbn [map]. intros Hnd.
    pose proof (NoDup_remove_2 _ _ _ Hnd) as Hnot.
    rewrite filter_app. cbn [filter]. rewrite Hit.
    rewrite !filter_none; [reflexivity| |];
      intros x Hx; apply Hp; intros K; apply Hnot; rewrite <- K;
      apply in_or_app; [right|left]; apply in_map, Hx.
Qed.

Lemma addOrUpdate_at_one w x :
  items w = [x] -> index x = num 1 -> inIndex w = lit "1" ->
  let w' := after addOrUpdate w in
  items w' = [{| id := id x; name := trim (inName w); index := num 1;
                 hex := normalizeHex (inColor w) |}]
  /\ inIndex w' = lit "1" /\ inName w' = inName w /\ inColor w' = inColor w
  /\ idCalls w' = idCalls w.
Proof.
  intros Hl Hx Hi w'. subst w'.
  assert (Hix : inputIndex w = num 1) by (unfold inputIndex; rewrite Hi; reflexivity).
  unfold after. rewrite addOrUpdate_run. cbv zeta.
  assert (Hs : sameIndex (num 1) x = true)
    by (unfold sameIndex; rewrite Hx; reflexivity).
  rewrite Hix, Hl. cbn [find assignFirst]. rewrite Hs.
  cbn [snd items inName inIndex inColor statusMsg idCalls length].
  rewrite inputName_trim, Hx. repeat split.
Qed.

(** X15: the Reset button, and Add after it.  Reset empties the store and
    writes 1, not 0, into the index input.  So the first item added after a
    reset carries the index 1; [addOrUpdate] then writes the number of items
    into the index input, which is 1 again: clicking Add any number of times
    after a reset, without typing an index, leaves one single item, whose
    name and color are updated at each click. *)
Theorem reset_then_add (w : World) :
  let w0 := after btnReset_click w in
  (items w0 = [] /\ inIndex w0 = lit "1" /\ statusMsg w0 = lit "Reset."
   /\ inName w0 = inName w /\ inColor w0 = inColor w /\ idCalls w0 = idCalls w)
  /\ forall n,
       items (Nat.iter (S n) (after addOrUpdate) w0)
       = [{| id := idSource E (idCalls w); name := trim (inName w);
             index := num 1; hex := normalizeHex (inColor w) |}].
Proof.
  cbv zeta. split; [repeat split|].
  set (w0 := after btnReset_click w).
  assert (H : forall n,
             let wn := Nat.iter (S n) (after addOrUpdate) w0 in
             items wn = [{| id := idSource E (idCalls w); name := trim (inName w);
                            index := num 1; hex := normalizeHex (inColor w) |}]
             /\ inIndex wn = lit "1" /\ inName wn = inName w
             /\ inColor wn = inColor w).
  { induction n as [|n IH]; cbv zeta.
    - change (Nat.iter 1 (after addOrUpdate) w0) with (after addOrUpdate w0).
      unfold after at 1 2 3 4. rewrite addOrUpdate_run. cbv zeta.
      change (items w0) with (@nil PaletteItem). cbn [find app].
      cbn [snd items inName inIndex inColor statusMsg idCalls length].
      rewrite inputName_trim.
      change (inputIndex w0) with (num 1). change (inName w0) with (inName w).
      change (inputHex w0) with (normalizeHex (inColor w)).
      change (idCalls w0) with (idCalls w). change (inColor w0) with (inColor w).
      repeat split.
    - change (Nat.iter (S (S n)) (after addOrUpdate) w0)
        with (after addOrUpdate (Nat.iter (S n) (after addOrUpdate) w0)).
      cbv zeta in IH. destruct IH as [Hl [Hi [Hn Hc]]].
      destruct (addOrUpdate_at_one _ _ Hl eq_refl Hi) as [Kl [Ki [Kn [Kc _]]]].
      rewrite Kl, Ki, Kn, Kc, Hn, Hc. cbn [id]. repeat split; assumption. }
  intros n. apply (H n).
Qed.

(** ** The cells of [renderPng] on the canvas *)

Lemma drawFrom_length cols swW swH gapH gapV l :
  forall k, length (drawFrom cols swW swH gapH gapV k l) = length l.
Proof.
  induction l as [|x l IH]; intros k; [reflexivity|].
  cbn [drawFrom length]. rewrite IH. reflexivity.
Qed.

(** The cell at position [i] is the one drawn for the item at position [i]. *)
Lemma cells_nth l rowLen swW swH gapH gapV i cell :
  nth_error (cells (renderPng l rowLen swW swH gapH gapV)) i = Some cell ->
  (i < length l)%nat
  /\ exists it, cell = drawCell (Z.max 1 rowLen) swW swH gapH gapV i it.
Proof.
  intros H. cbn [renderPng cells] in H.
  assert (Hi : (i < length l)%nat).
  { rewrite <- (drawFrom_length (Z.max 1 rowLen) swW swH gapH gapV l 0).
    apply nth_error_Some. rewrite H. discriminate. }
  split; [exact Hi|].
  destruct (nth_error l i) as [it|] eqn:Hit;
    [|apply nth_error_None in Hit; lia].
  rewrite (drawFrom_nth _ _ _ _ _ l 0 i it Hit) in H.
  injection H as <-. exists it. reflexivity.
Qed.

Lemma drawCell_place cols swW swH gapH gapV i it :
  0 < cols ->
  cellX (drawCell cols swW swH gapH gapV i it) = (Z.of_nat i mod cols) * (swW + gapH)
  /\ cellY (drawCell cols swW swH gapH gapV i it) = (Z.of_nat i / cols) * (swH + gapV)
  /\ cellW (drawCell cols swW swH gapH gapV i it) = swW
  /\ cellH (drawCell cols swW swH gapH gapV i it) = swH.
Proof.
  intros Hc. unfold drawCell. cbn [cellX cellY cellW cellH].
  rewrite Z.rem_mod_nonneg by lia. rewrite floorDiv_pos by exact Hc.
  repeat split.
Qed.

(** X16: the swatches on the canvas of [renderPng].  With a row length of at
    least 1, swatch sides above 0 and gaps of at least 0, there is one cell
    per item, every cell lies within the canvas, and no two cells overlap. *)
Theorem renderPng_cells_fit (l : list PaletteItem) (rowLen swW swH gapH gapV : Z) :
  1 <= rowLen -> 0 < swW -> 0 < swH -> 0 <= gapH -> 0 <= gapV ->
  let c := renderPng l rowLen swW swH gapH gapV in
  length (cells c) = length l
  /\ Forall (cellInside (canvasWidth c) (canvasHeight c)) (cells c)
  /\ (forall i j ci cj,
        i <> j -> nth_error (cells c) i = Some ci -> nth_error (cells c) j = Some cj ->
        cellsApart ci cj).
Proof.
  intros Hr Hw Hh Hgh Hgv c.
  assert (Hcols : Z.max 1 rowLen = rowLen) by lia.
  split; [apply drawFrom_length|]. split.
  - apply Forall_forall. intros cell Hin.
    apply In_nth_error in Hin as [i Hi].
    destruct (cells_nth _ _ _ _ _ _ _ _ Hi) as [Hlt [it ->]].
    destruct (drawCell_place (Z.max 1 rowLen) swW swH gapH gapV i it ltac:(lia))
      as [Hx [Hy [Hcw Hch]]].
    unfold cellInside. rewrite Hx, Hy, Hcw, Hch. subst c.
    cbn [renderPng canvasWidth canvasHeight]. rewrite Hcols.
    pose proof (Z.mod_pos_bound (Z.of_nat i) rowLen ltac:(lia)) as Hm.
    pose proof (ceilDiv_least (Z.of_nat (length l)) rowLen ltac:(lia)) as [Hc1 _].
    assert (Hrow : 0 <= Z.of_nat i / rowLen
                   < ceilDiv (Z.of_nat (length l)) rowLen).
    { split; [apply Z.div_pos; lia|].
      apply Z.div_lt_upper_bound; [lia|]. nia. }
    set (col := Z.of_nat i mod rowLen) in *.
    set (row := Z.of_nat i / rowLen) in *.
    set (n := ceilDiv (Z.of_nat (length l)) rowLen) in *.
    rewrite (Z.max_r 0 (rowLen - 1)) by lia.
    rewrite (Z.max_r 1 n) by lia. rewrite (Z.max_r 0 (n - 1)) by lia.
    repeat split; nia.
  - intros i j ci cj Hij Hi Hj.
    destruct (cells_nth _ _ _ _ _ _ _ _ Hi) as [_ [iti ->]].
    destruct (cells_nth _ _ _ _ _ _ _ _ Hj) as [_ [itj ->]].
    destruct (drawCell_place (Z.max 1 rowLen) swW swH gapH gapV i iti ltac:(lia))
      as [Hxi [Hyi [Hwi Hhi]]].
    destruct (drawCell_place (Z.max 1 rowLen) swW swH gapH gapV j itj ltac:(lia))
      as [Hxj [Hyj [Hwj Hhj]]].
    unfold cellsApart. rewrite Hxi, Hyi, Hwi, Hhi, Hxj, Hyj, Hwj, Hhj, Hcols.
    pose proof (Z.mod_pos_bound (Z.of_nat i) rowLen ltac:(lia)) as Hmi.
    pose proof (Z.mod_pos_bound (Z.of_nat j) rowLen ltac:(lia)) as Hmj.
    pose proof (Z.div_mod (Z.of_nat i) rowLen ltac:(lia)) as Hdi.
    pose proof (Z.div_mod (Z.of_nat j) rowLen ltac:(lia)) as Hdj.
    set (ci := Z.of_nat i mod rowLen) in *. set (ri := Z.of_nat i / rowLen) in *.
    set (cj := Z.of_nat j mod rowLen) in *. set (rj := Z.of_nat j / rowLen) in *.
    destruct (Z.lt_total ci cj) as [Hlt|[Heq|Hgt]].
    + left. nia.
    + destruct (Z.lt_total ri rj) as [Hlt|[Heq'|Hgt]].
      * right. right. left. nia.
      * exfalso. apply Hij. apply Nat2Z.inj. rewrite Hdi, Hdj, Heq, Heq'. reflexivity.
      * right. right. right. nia.
    + right. left. nia.
Qed.

(** X17: the render scale of the PNG handler.  The handler multiplies the
    swatch sides and the gaps by the scale before it calls [renderPng]; this
    multiplies the width and the height of the canvas and the corner and the
    sides of the rectangle of every cell by the scale, and changes neither
    the number of columns and rows nor the fill color and the text of a
    cell. *)
Theorem renderPng_scale (l : list PaletteItem) (rowLen swW swH gapH gapV scale : Z) :
  let c := renderPng l rowLen swW swH gapH gapV in
  let cs := renderPng l rowLen (swW * scale) (swH * scale)
                      (gapH * scale) (gapV * scale) in
  cols cs = cols c /\ rows cs = rows c
  /\ canvasWidth cs = canvasWidth c * scale
  /\ canvasHeight cs = canvasHeight c * scale
  /\ cells cs = map (scaleCell scale) (cells c).
Proof.
  cbv zeta. cbn [renderPng cols rows canvasWidth canvasHeight cells].
  split; [reflexivity|]. split; [reflexivity|].
  split; [ring|]. split; [ring|].
  generalize 0%nat. induction l as [|it l IH]; intros k; [reflexivity|].
  cbn [drawFrom map]. rewrite IH. f_equal.
  unfold drawCell, scaleCell. cbn [cellX cellY cellW cellH cellFill cellText].
  f_equal; ring.
Qed.

(** ** Reading a number input *)

Lemma numOr_cases n d :
  numOr n (num d)
  = match n with
    | NaN => num d
    | Inf s => Inf s
    | Fin q => if Qeq_bool q 0 then num d else Fin q
    end.
Proof.
  unfold numOr, numTruthy. destruct n as [|s|q]; try reflexivity.
  destruct (Qeq_bool q 0); reflexivity.
Qed.

Lemma numOr_num_default n d : numOr (num n) (num d) = if n =? 0 then num d else num n.
Proof.
  rewrite numOr_cases. unfold num at 1.
  change 0%Q with (inject_Z 0). rewrite Qeq_bool_inject. reflexivity.
Qed.

(** X18: the number read from an input, [clamp(parseInt(v || dflt, 10) || d,
    lo, hi)] with [lo <= hi].  The result is always an integer between [lo]
    and [hi].  An input that holds no number gives the default [d], clamped;
    so does an input that holds the number 0, which is below the lower bound
    when that is above 0: 0 gives the default, not the bound.  Any other
    number is clamped.  The index of [addOrUpdate] is read this way. *)
Theorem readInput_range (v dflt : str) (d lo hi : Z) :
  lo <= hi ->
  (exists z, readInput v dflt d lo hi = num z /\ lo <= z <= hi)
  /\ (parseInt (strOr v dflt) 10 = NaN \/ parseInt (strOr v dflt) 10 = num 0 ->
      readInput v dflt d lo hi = num (Z.max lo (Z.min hi d)))
  /\ (forall n, parseInt (strOr v dflt) 10 = num n -> n <> 0 ->
        readInput v dflt d lo hi = num (Z.max lo (Z.min hi n)))
  /\ (digitRun v -> decimal v <> 0 ->
      readInput v dflt d lo hi = num (Z.max lo (Z.min hi (decimal v))))
  /\ forall w, inputIndex w = readInput (inIndex w) (lit "0") 0 0 999999.
Proof.
  intros Hlh.
  assert (Hzero : parseInt (strOr v dflt) 10 = NaN
                  \/ parseInt (strOr v dflt) 10 = num 0 ->
                  readInput v dflt d lo hi = num (Z.max lo (Z.min hi d))).
  { unfold readInput. intros [H|H]; rewrite H.
    - change (numOr NaN (num d)) with (num d). apply clamp_num.
    - rewrite numOr_num_default. cbn [Z.eqb]. apply clamp_num. }
  assert (Hnum : forall n, parseInt (strOr v dflt) 10 = num n -> n <> 0 ->
                   readInput v dflt d lo hi = num (Z.max lo (Z.min hi n))).
  { unfold readInput. intros n H Hn. rewrite H, numOr_num_default.
    destruct (Z.eqb_spec n 0) as [K|_]; [contradiction|]. apply clamp_num. }
  split; [|split; [exact Hzero|split; [exact Hnum|split]]].
  - destruct (parseInt_cases (strOr v dflt) 10) as [H|[n H]].
    + rewrite (Hzero (or_introl H)). eexists. split; [reflexivity|lia].
    + destruct (Z.eq_dec n 0) as [->|Hn].
      * rewrite (Hzero (or_intror H)). eexists. split; [reflexivity|lia].
      * rewrite (Hnum n H Hn). eexists. split; [reflexivity|lia].
  - intros Hd Hn. apply Hnum; [|exact Hn].
    destruct v as [|c v]; [destruct Hd as [K _]; contradiction|].
    cbn [strOr]. apply parseInt_digitRun, Hd.
  - reflexivity.
Qed.

(** ** Documents that always load *)

Lemma ToString_primitive v d :
  primitive v -> exists s, ToString (orElse v (JStr d)) = inr s.
Proof.
  destruct v as [[|b|n|s|l|m]|]; cbn [primitive orElse]; try contradiction; intros _.
  - eexists. reflexivity.
  - destruct (jsonTruthy (JBool b)); eexists; reflexivity.
  - destruct (jsonTruthy (JNum n)); eexists; reflexivity.
  - destruct (jsonTruthy (JStr s)); eexists; reflexivity.
  - eexists. reflexivity.
Qed.

Lemma ToNumber_primitive v : primitive v -> exists n, ToNumber v = inr n.
Proof.
  destruct v as [[|b|n|s|l|m]|]; cbn [primitive]; try contradiction; intros _;
    eexists; reflexivity.
Qed.

Lemma decodeItem_plain x w :
  plainElement x ->
  exists it, decodeItem x w = (inr it, countId w) /\ id it = idSource E (idCalls w).
Proof.
  intros [Hx [Hn [Hi Hh]]]. rewrite decodeItem_run.
  assert (Hf : forall k, getField x k = inr (field x k)).
  { intros k. destruct x; try reflexivity. congruence. }
  rewrite !Hf.
  destruct (ToString_primitive _ [] Hn) as [nm ->].
  destruct (ToNumber_primitive _ Hi) as [n ->].
  destruct (ToString_primitive _ (lit "#000000") Hh) as [hx ->].
  eexists. split; reflexivity.
Qed.

Lemma mapM_decodeItem_plain l :
  Forall plainElement l ->
  forall w, exists l',
    mapM decodeItem l w
    = (inr l', {| items := items w; inName := inName w; inIndex := inIndex w;
                  inColor := inColor w; statusMsg := statusMsg w;
                  idCalls := (idCalls w + length l)%nat |})
    /\ length l' = length l
    /\ map id l' = map (idSource E) (seq (idCalls w) (length l)).
Proof.
  induction 1 as [|x l Hx _ IH]; intros w.
  - exists []. cbn [mapM length seq map]. rewrite Nat.add_0_r. unfold ret.
    destruct w; repeat split.
  - destruct (decodeItem_plain x w Hx) as [it [Hd Hid]].
    destruct (IH (countId w)) as [l' [Hm [Hlen Hids]]].
    cbn [mapM]. unfold bind at 1. rewrite Hd. unfold bind, ret. rewrite Hm.
    exists (it :: l'). split; [|split].
    + cbn [countId items inName inIndex inColor statusMsg idCalls length].
      rewrite Nat.add_succ_r. reflexivity.
    + cbn [length]. rewrite Hlen. reflexivity.
    + cbn [map length seq]. rewrite Hid, Hids. reflexivity.
Qed.

(** X19: documents that cannot fail to load.  When the document passes the
    test of its shape and no element of [items] is [null] or has an array or
    an object for its name, its index or its color, [loadJson] returns
    without an error and the store takes one item per element, each with an
    identifier drawn in order, and the status gives their number.  The
    elements need not be objects and need none of the three members. *)
Theorem loadJson_plain (data : json) (l : list json) (w : World) :
  isPaletteV1 data = Some l ->
  Forall plainElement l ->
  let w' := after (loadJson data) w in
  outcome (loadJson data) w = inr tt
  /\ length (items w') = length l
  /\ map id (items w') = map (idSource E) (seq (idCalls w) (length l))
  /\ statusMsg w'
     = lit "Loaded " ++ Number_toString 10 (num (Z.of_nat (length l)))
       ++ lit " colors from JSON".
Proof.
  intros Hs Hl w'. subst w'.
  destruct (mapM_decodeItem_plain l Hl w) as [l' [Hm [Hlen Hids]]].
  assert (Hrun : loadJson data w
                 = (inr tt,
                    {| items := l'; inName := inName w; inIndex := inIndex w;
                       inColor := inColor w;
                       statusMsg := lit "Loaded "
                         ++ Number_toString 10 (num (Z.of_nat (length l')))
                         ++ lit " colors from " ++ lit "JSON";
                       idCalls := (idCalls w + length l)%nat |})).
  { unfold loadJson. rewrite Hs. unfold bind at 1. rewrite Hm. reflexivity. }
  unfold outcome, after. rewrite Hrun.
  cbn [fst snd items inName inIndex inColor statusMsg idCalls].
  rewrite Hlen. repeat split; assumption.
Qed.

(** ** The class name of a swatch *)

Lemma slugChar_not_dash c : isSlugChar c = true -> isDash c = false.
Proof.
  unfold isSlugChar, isDash, DASH, isDigit. intros H.
  apply N.eqb_neq. intros ->. discriminate H.
Qed.

Lemma slugChar_not_ws c : isSlugChar c = true -> isWhiteSpace c = false.
Proof.
  unfold isSlugChar. intros H. apply orb_true_iff in H as [H|H].
  - apply andb_true_iff in H as [H1 H2]. cu_prop. lia.
  - apply isDigit_not_ws, H.
Qed.

Lemma dashed_dashFrom s : forall b, dashed b (dashFrom b s) = true.
Proof.
  induction s as [|c s IH]; intros b; cbn [dashFrom]; [reflexivity|].
  destruct (isSlugChar c) eqn:Hc.
  - cbn [dashed]. rewrite (slugChar_not_dash c Hc), Hc. apply IH.
  - destruct b; [apply IH|]. cbn [dashed].
    change (isDash DASH) with true. cbv iota. rewrite (IH true). reflexivity.
Qed.

Lemma dashed_dropStart s :
  forall b, dashed b s = true -> dashed true (dropWhile isDash s) = true.
Proof.
  induction s as [|c s IH]; intros b; [reflexivity|].
  cbn [dashed dropWhile]. destruct (isDash c) eqn:Hc.
  - intros H. apply andb_true_iff in H as [_ H]. exact (IH true H).
  - intros H. cbn [dashed]. rewrite Hc. exact H.
Qed.

Lemma dropWhile_head_false {A} (p : A -> bool) s c t :
  dropWhile p s = c :: t -> p c = false.
Proof.
  induction s as [|x s IH]; [discriminate|]. cbn [dropWhile].
  destruct (p x) eqn:Hx; [exact IH|]. intros [= <- _]. exact Hx.
Qed.

Lemma dashed_dropEnd s :
  forall b, dashed b s = true ->
            dropDashEnd s = [] \/ slugFrom b (dropDashEnd s) = true.
Proof.
  induction s as [|c s IH]; intros b; cbn [dashed dropDashEnd]; [left; reflexivity|].
  destruct (isDash c) eqn:Hc.
  - intros H. apply andb_true_iff in H as [H Hs].
    destruct (IH true Hs) as [He|Hcl].
    + left. rewrite He. reflexivity.
    + right. destruct (dropDashEnd s) as [|d t] eqn:Et; [discriminate Hcl|].
      cbn [slugFrom]. rewrite Hc, H. exact Hcl.
  - intros H. apply andb_true_iff in H as [Hsl Hs].
    right. destruct (IH false Hs) as [He|Hcl].
    + rewrite He. cbn [slugFrom]. rewrite Hc, Hsl. reflexivity.
    + destruct (dropDashEnd s) as [|d t] eqn:Et.
      * cbn [slugFrom]. rewrite Hc, Hsl. reflexivity.
      * cbn [slugFrom]. rewrite Hc, Hsl. exact Hcl.
Qed.

Lemma isSlug_stripDashes x : isSlug (stripDashes (dashRuns x)) = true.
Proof.
  unfold isSlug, stripDashes, dashRuns.
  pose proof (dashed_dropStart _ false (dashed_dashFrom x false)) as H.
  destruct (dashed_dropEnd _ true H) as [-> | K]; [reflexivity|].
  rewrite K. apply orb_true_r.
Qed.

Lemma slugFrom_noWs s : forall b, slugFrom b s = true -> noWs s = true.
Proof.
  unfold noWs. induction s as [|c s IH]; intros b; [reflexivity|].
  cbn [slugFrom forallb]. destruct (isDash c) eqn:Hc.
  - intros H. apply andb_true_iff in H as [_ H]. rewrite (IH true H).
    apply N.eqb_eq in Hc. subst c. reflexivity.
  - intros H. apply andb_true_iff in H as [Hs H]. rewrite (IH false H).
    rewrite (slugChar_not_ws c Hs). reflexivity.
Qed.

Lemma slugFrom_dashFrom s : forall b, slugFrom b s = true -> dashFrom b s = s.
Proof.
  induction s as [|c s IH]; intros b; [reflexivity|].
  cbn [slugFrom dashFrom]. destruct (isDash c) eqn:Hc.
  - intros H. apply andb_true_iff in H as [Hb H].
    apply negb_true_iff in Hb. subst b.
    apply N.eqb_eq in Hc. subst c. change (isSlugChar DASH) with false. cbv iota.
    rewrite (IH true H). reflexivity.
  - intros H. apply andb_true_iff in H as [Hs H]. rewrite Hs, (IH false H).
    reflexivity.
Qed.

Lemma slugFrom_start s : slugFrom true s = true -> slugFrom false s = true.
Proof.
  destruct s as [|c s]; [discriminate|]. cbn [slugFrom].
  destruct (isDash c); [discriminate|auto].
Qed.

Lemma slugFrom_dropEnd s : forall b, slugFrom b s = true -> dropDashEnd s = s.
Proof.
  induction s as [|c s IH]; intros b; [reflexivity|].
  cbn [slugFrom dropDashEnd]. destruct (isDash c) eqn:Hc.
  - intros H. apply andb_true_iff in H as [_ H].
    rewrite (IH true H). destruct s; [discriminate H|reflexivity].
  - intros H. apply andb_true_iff in H as [_ H].
    rewrite (IH false H). destruct s; reflexivity.
Qed.

Lemma slugFrom_dropStart s : slugFrom true s = true -> dropWhile isDash s = s.
Proof.
  destruct s as [|c s]; [reflexivity|]. cbn [slugFrom dropWhile].
  destruct (isDash c); [discriminate|reflexivity].
Qed.

Lemma dashFrom_none x :
  forallb (fun c => negb (isSlugChar c)) x = true -> dashFrom true x = [].
Proof.
  induction x as [|c x IH]; [reflexivity|]. cbn [forallb dashFrom].
  intros H. apply andb_true_iff in H as [Hc H]. apply negb_true_iff in Hc.
  rewrite Hc. exact (IH H).
Qed.

(** X20: the class name that [render] derives from the name of an item,
    whatever [toLowerCase] does to letters.  The result is empty or made of
    words of small letters and digits separated by single dashes, with no
    dash at either end; a name without a letter or digit of that class gives
    the empty text, for which [render] writes [color]; and when lowering the
    case leaves such a text as it is, [slugify] is idempotent. *)
Theorem slugify_shape (lower : str -> str) (s : str) :
  isSlug (slugify lower s) = true
  /\ (forallb (fun c => negb (isSlugChar c)) (lower (trim s)) = true ->
      slugify lower s = [])
  /\ ((forall t, isSlug t = true -> lower t = t) ->
      slugify lower (slugify lower s) = slugify lower s).
Proof.
  split; [apply isSlug_stripDashes|]. split.
  - intros H. unfold slugify, stripDashes, dashRuns.
    destruct (lower (trim s)) as [|c x]; [reflexivity|].
    cbn [forallb] in H. apply andb_true_iff in H as [Hc H].
    apply negb_true_iff in Hc. cbn [dashFrom]. rewrite Hc, (dashFrom_none x H).
    reflexivity.
  - intros Hlow. pose proof (isSlug_stripDashes (lower (trim s))) as Hr.
    fold (slugify lower s) in Hr. set (r := slugify lower s) in *.
    unfold isSlug in Hr. apply orb_true_iff in Hr as [He|Hs].
    + destruct r; [|discriminate He]. unfold slugify.
      change (trim []) with (@nil N). rewrite (Hlow [] eq_refl). reflexivity.
    + unfold slugify.
      rewrite (trim_noWs r (slugFrom_noWs r true Hs)).
      rewrite Hlow by (unfold isSlug; rewrite Hs; apply orb_true_r).
      unfold stripDashes, dashRuns.
      rewrite (slugFrom_dashFrom r false (slugFrom_start r Hs)).
      rewrite (slugFrom_dropStart r Hs). apply (slugFrom_dropEnd r true Hs).
Qed.

(** ** A click on a swatch, then on Add *)

Lemma takeWhile_all {A} (p : A -> bool) l : forallb p l = true -> takeWhile p l = l.
Proof.
  induction l as [|x l IH]; [reflexivity|]. cbn [forallb takeWhile].
  intros H. apply andb_true_iff in H as [Hx H]. rewrite Hx, (IH H). reflexivity.
Qed.

Lemma dropWhile_all {A} (p : A -> bool) l : forallb p l = true -> dropWhile p l = [].
Proof.
  induction l as [|x l IH]; [reflexivity|]. cbn [forallb dropWhile].
  intros H. apply andb_true_iff in H as [Hx H]. rewrite Hx. exact (IH H).
Qed.

Lemma validFloat_digitRun d : digitRun d -> validFloat d = true.
Proof.
  intros Hd. destruct (digitRun_cons d Hd) as [c [s [-> Hc]]].
  destruct Hd as [_ Hf]. unfold validFloat.
  replace (c =? 45)%N with false
    by (symmetry; revert Hc; clear; intros; cu_prop; lia).
  rewrite (takeWhile_all isDigit (c :: s) Hf), (dropWhile_all isDigit (c :: s) Hf).
  reflexivity.
Qed.

Lemma lower_upper_hex c :
  isHexDigit c = true -> upperCu c = c -> upperCu (lowerCu c) = c.
Proof.
  intros Hh Hu. unfold upperCu, lowerCu in *.
  destruct ((97 <=? c) && (c <=? 122))%N eqn:L.
  - exfalso. apply andb_true_iff in L as [L1 L2].
    apply N.leb_le in L1. apply N.leb_le in L2. lia.
  - destruct ((65 <=? c) && (c <=? 90))%N eqn:U.
    + apply andb_true_iff in U as [U1 U2].
      apply N.leb_le in U1. apply N.leb_le in U2.
      replace ((97 <=? c + 32) && (c + 32 <=? 122))%N with true
        by (symmetry; apply andb_true_iff; split; apply N.leb_le; lia).
      lia.
    + rewrite L. reflexivity.
Qed.

Lemma lower_hex_digit c : isHexDigit c = true -> isHexDigit (lowerCu c) = true.
Proof.
  intros H. unfold lowerCu.
  destruct ((65 <=? c) && (c <=? 90))%N eqn:U; [|exact H].
  apply andb_true_iff in U as [U1 U2].
  apply N.leb_le in U1. apply N.leb_le in U2.
  assert (K : (65 <= c <= 70)%N) by (revert H; clear - U1 U2; intros; cu_prop; lia).
  unfold isHexDigit, isDigit. apply orb_true_iff. left. apply orb_true_iff. right.
  apply andb_true_iff. split; apply N.leb_le; lia.
Qed.

(** The color input gives back a canonical color that was written to it. *)
Lemma normalizeHex_colorInput h : canonicalHex h -> normalizeHex (colorInput h) = h.
Proof.
  intros Hc. destruct (canonical_digits h Hc) as [a1 [a2 [a3 [a4 [a5 [a6 [-> Hf]]]]]]].
  destruct Hc as [Ht _]. unfold colorInput. rewrite Ht.
  repeat match goal with
         | K : Forall _ (_ :: _) |- _ => inversion K; clear K; subst
         | K : _ /\ _ |- _ => destruct K
         end.
  unfold normalizeHex, toLowerCase. cbn [map].
  change (lowerCu 35) with 35%N.
  rewrite trim_noWs.
  - unfold testHexColor. cbn [length forallb Nat.eqb].
    rewrite !lower_hex_digit by assumption. cbn [andb].
    change (35 =? 35)%N with true. cbv iota.
    unfold toUpperCase. cbn [map]. change (upperCu 35) with 35%N.
    rewrite !lower_upper_hex by assumption. reflexivity.
  - unfold noWs. cbn [forallb].
    repeat match goal with
           | |- context [isWhiteSpace (lowerCu ?a)] =>
               rewrite (isHexDigit_not_ws (lowerCu a))
                 by (apply lower_hex_digit; assumption)
           end.
    reflexivity.
Qed.

(** X21: a click on a swatch and then on Add.  For an item whose index is an
    integer from 0 to 999999, whose color is canonical and which is the first
    of the store with its index, the click fills the inputs so that
    [addOrUpdate] reads back the index and the color of the item, and its
    name without line breaks and trimmed; the click on Add then updates this
    very item and adds none, and leaves the store as it was when the name of
    the item has no line break in it and no white space around it. *)
Theorem sw_click_then_add (w : World) (it : PaletteItem)
  (l1 l2 : list PaletteItem) (z : Z) :
  items w = l1 ++ it :: l2 ->
  (forall x, In x l1 -> sameIndex (index it) x = false) ->
  index it = num z -> 0 <= z <= 999999 ->
  canonicalHex (hex it) ->
  let w1 := after (sw_click it) w in
  let w2 := after addOrUpdate w1 in
  inputIndex w1 = index it /\ inputHex w1 = hex it
  /\ inputName w1 = trim (textInput (name it))
  /\ items w2
     = l1 ++ {| id := id it; name := trim (textInput (name it));
                index := index it; hex := hex it |} :: l2
  /\ idCalls w2 = idCalls w
  /\ (trim (textInput (name it)) = name it -> items w2 = items w).
Proof.
  intros Hl Hfirst Hi Hz Hc w1 w2.
  assert (Hix : inputIndex w1 = index it).
  { rewrite Hi. apply inputIndex_count; [exact Hz|].
    subst w1. unfold after, sw_click. cbn [snd inIndex].
    rewrite Hi, Number_toString_num by lia.
    unfold numberInput.
    rewrite (validFloat_digitRun _ (intToString_digitRun z (proj1 Hz))).
    reflexivity. }
  assert (Hhx : inputHex w1 = hex it)
    by (apply normalizeHex_colorInput, Hc).
  assert (Hnm : inputName w1 = trim (textInput (name it))) by apply inputName_trim.
  assert (Hself : sameIndex (index it) it = true).
  { unfold sameIndex. rewrite Hi, numEq_num. apply Z.eqb_refl. }
  assert (Hitems : items w2
                   = l1 ++ {| id := id it; name := trim (textInput (name it));
                              index := index it; hex := hex it |} :: l2
                   /\ idCalls w2 = idCalls w).
  { subst w2. unfold after at 1 2. rewrite addOrUpdate_run. cbv zeta.
    rewrite Hix, Hhx, Hnm. change (items w1) with (items w). rewrite Hl.
    rewrite (find_first _ l1 l2 it Hfirst Hself).
    rewrite (assignFirst_first _ _ _ l1 l2 it Hfirst Hself).
    split; reflexivity. }
  destruct Hitems as [H1 H2].
  repeat (split; [assumption|]).
  intros Ht. rewrite H1, Hl, Ht. destruct it; reflexivity.
Qed.

(** ** GPL: what decoding keeps of a line *)

Lemma trimEnd_idem s : trimEnd (trimEnd s) = trimEnd s.
Proof.
  induction s as [|c s IH]; [reflexivity|]. cbn [trimEnd].
  destruct (trimEnd s) as [|d t] eqn:Et.
  - destruct (isWhiteSpace c) eqn:Hc; [reflexivity|].
    cbn [trimEnd]. rewrite Hc. reflexivity.
  - cbn [trimEnd] in *. rewrite IH. reflexivity.
Qed.

Lemma trimEnd_suffix a b : trimEnd (a ++ b) = a ++ b -> b <> [] -> trimEnd b = b.
Proof.
  intros H Hb. induction a as [|x a IH]; [exact H|].
  cbn [app trimEnd] in H. destruct (trimEnd (a ++ b)) as [|d t] eqn:Et.
  - exfalso. destruct (isWhiteSpace x); [discriminate H|].
    injection H as H. symmetry in H. apply app_eq_nil in H as [_ H]. contradiction.
  - injection H as H. apply IH. exact H.
Qed.

(** The last group of a match on a trimmed line has no white space around
    it. *)
Lemma matched_name_kept raw m1 m2 m3 m4 :
  matchGplLine (trim raw) = Some (m1, m2, m3, m4) -> m4 <> [] -> trim m4 = m4.
Proof.
  intros Hm Hne.
  assert (Hhead : trimStart m4 = m4).
  { revert Hm. unfold matchGplLine. destruct (_ && _); [|discriminate].
    intros [= _ _ _ H4]. destruct m4 as [|c t]; [contradiction|].
    apply trimStart_head. exact (dropWhile_head_false _ _ _ _ H4). }
  destruct (matchGplLine_sound _ _ _ _ _ Hm) as [w1 [w2 [w3 [Hl _]]]].
  assert (Hend : trimEnd (trim raw) = trim raw) by apply trimEnd_idem.
  rewrite Hl in Hend.
  replace (m1 ++ w1 ++ m2 ++ w2 ++ m3 ++ w3 ++ m4)
    with ((m1 ++ w1 ++ m2 ++ w2 ++ m3 ++ w3) ++ m4) in Hend
    by (rewrite <- !app_assoc; reflexivity).
  unfold trim. rewrite Hhead. exact (trimEnd_suffix _ _ Hend Hne).
Qed.

(** The lines that give an item are those that match the pattern. *)
Lemma gplItem_isSome idx raw :
  isSome (gplItem idx raw) = isSome (matchGplLine (trim raw)).
Proof.
  destruct (matchGplLine (trim raw)) as [[[[m1 m2] m3] m4]|] eqn:Hm.
  - rewrite (gplItem_matched idx raw m1 m2 m3 m4 Hm). reflexivity.
  - rewrite (gplItem_no_match idx raw Hm). reflexivity.
Qed.

(** The item of a line, from the groups of the match: the name is the last
    group as it stands, and [Color n] when that group is empty. *)
Lemma gplItem_groups idx raw m1 m2 m3 m4 :
  matchGplLine (trim raw) = Some (m1, m2, m3, m4) ->
  exists nm,
    gplItem idx raw
    = Some {| fname := nm; findex := num idx;
              fhex := hexOf (Z.min 255 (decimal m1)) (Z.min 255 (decimal m2))
                            (Z.min 255 (decimal m3)) |}
    /\ (m4 <> [] -> nm = m4)
    /\ (m4 = [] -> 0 <= idx < 10 ^ 21 -> nm = lit "Color " ++ intToString 10 idx).
Proof.
  intros Hm. rewrite (gplItem_matched idx raw m1 m2 m3 m4 Hm).
  eexists. split; [reflexivity|]. split.
  - intros Hne. destruct m4 as [|c t] eqn:E4; [contradiction|].
    cbn [strOr]. rewrite (matched_name_kept raw m1 m2 m3 (c :: t)) by (subst; assumption).
    reflexivity.
  - intros -> Hidx. cbn [strOr]. rewrite (colorName_trim idx Hidx).
    rewrite Number_toString_num by lia. reflexivity.
Qed.

(** C2: the GPL round trip.  For every text, [parseGpl] returns one item per
    line that, trimmed, matches the pattern of three integers and a rest, in
    the order of the file.  The item of the [i]-th such line carries the
    index [i], so the indices are 0 to n-1, and keeps the pair of the line:
    its name is the rest of the line as it stands ([Color i] when the line
    has none), and its color is the one of the three integers of the line
    (an integer above 255 counts as 255).  The groups are those of the
    pattern, which [matchGplLine] is proved to read as the relation
    [gplLineMatch] states it.  The text that [toGpl] writes for
    the loaded items is a fixed point: loading it and writing the store again
    gives the same text, code unit for code unit. *)
Theorem gpl_round_trip (text : str) :
  let out := parseGpl text in
  let accepted :=
    filter (fun raw => isSome (matchGplLine (trim raw))) (gplLines text) in
  length out = length accepted
  /\ (forall i raw, nth_error accepted i = Some raw ->
        exists m1 m2 m3 m4 nm,
          matchGplLine (trim raw) = Some (m1, m2, m3, m4)
          /\ gplLineMatch (trim raw) m1 m2 m3 m4
          /\ nth_error out i
             = Some {| fname := nm; findex := num (Z.of_nat i);
                       fhex := hexOf (Z.min 255 (decimal m1))
                                     (Z.min 255 (decimal m2))
                                     (Z.min 255 (decimal m3)) |}
          /\ (m4 <> [] -> nm = m4)
          /\ (m4 = [] -> Z.of_nat i < 2 ^ 53 ->
              nm = lit "Color " ++ intToString 10 (Z.of_nat i)))
  /\ map findex out = map (fun i => num (Z.of_nat i)) (seq 0 (length out))
  /\ (forall w w',
        let t1 := toGpl (items (after (loadGpl text) w)) in
        toGpl (items (after (loadGpl t1) w')) = t1).
Proof.
  cbn zeta. unfold parseGpl at 1 2 3 4.
  rewrite (filter_ext (fun raw => isSome (matchGplLine (trim raw)))
                      (fun raw => isSome (gplItem 0 raw)))
    by (intros raw; symmetry; apply gplItem_isSome).
  destruct (parseGplLoop_accepted (gplLines text) 0) as [Hlen Hnth].
  split; [exact Hlen|]. split; [|split].
  - intros i raw Hi. rewrite (Hnth i raw Hi). cbn [Z.add].
    assert (Hin : isSome (matchGplLine (trim raw)) = true).
    { apply nth_error_In, filter_In in Hi as [_ Hi].
      rewrite <- (gplItem_isSome 0 raw). exact Hi. }
    destruct (matchGplLine (trim raw)) as [[[[m1 m2] m3] m4]|] eqn:Hm;
      [|discriminate Hin].
    destruct (gplItem_groups (Z.of_nat i) raw m1 m2 m3 m4 Hm) as [nm [Hg [Hn Hd]]].
    exists m1, m2, m3, m4, nm. split; [reflexivity|].
    split; [apply matchGplLine_sound, Hm|]. split; [exact Hg|].
    split; [exact Hn|]. intros H4 Hlt. apply Hd; [exact H4|].
    split; [lia|]. eapply Z.lt_trans; [exact Hlt|]. reflexivity.
  - destruct (parseGplLoop_read (gplLines text) 0) as [es [-> _]].
    rewrite map_findex_numbered, length_numbered. reflexivity.
  - intros w w'.
    destruct (parseGplLoop_read (gplLines text) 0) as [es [Hes Hread]].
    fold (parseGpl text) in Hes.
    pose proof (loadGpl_items text w) as HL. rewrite Hes in HL.
    pose proof (written_good es Hread) as Hgood.
    pose proof (loaded_written es Hread 0 _ HL) as Hw.
    rewrite (toGpl_written _ _ Hgood Hw).
    pose proof (loadGpl_items (gplDoc (map writtenName es)) w') as HL'.
    rewrite (parseGpl_gplDoc _ Hgood) in HL'.
    pose proof (loaded_written _ (Forall_impl _ good_read Hgood) 0 _ HL') as Hw'.
    rewrite (writtenName_good _ Hgood) in Hw'.
    exact (toGpl_written _ _ Hgood Hw').
Qed.

Lemma reread_length l : forall idx, length (reread idx l) = length l.
Proof.
  induction l as [|it l IH]; intros idx; [reflexivity|].
  cbn [reread length]. rewrite IH. reflexivity.
Qed.

(** X8: writing a store with [toGpl] and parsing the text, for a store of at
    most 2^53 items none of whose indices is NaN.  [toGpl] writes the items in ascending order of
    index, those of equal index in the order of the store, and [parseGpl]
    returns one item per store item in that order; the indices of the store
    are lost, the items are numbered from 0; each color comes back as
    [normalizeHex] gives it; each name comes back with its white space
    normalised, and a blank name as [Color n]. *)
Theorem toGpl_parsed (l : list PaletteItem) :
  Forall (fun it => isNaN (index it) = false) l ->
  Z.of_nat (length l) <= 2 ^ 53 ->
  parseGpl (toGpl l) = reread 0 (sortBy byIndex l)
  /\ Permutation (sortBy byIndex l) l
  /\ ascending (sortBy byIndex l)
  /\ length (parseGpl (toGpl l)) = length l.
Proof.
  intros Hnan Hn.
  assert (Hp : parseGpl (toGpl l) = reread 0 (sortBy byIndex l)).
  { unfold parseGpl, toGpl. cbv zeta.
    change ([lit "GIMP Palette"; lit "Name: Palette"; lit "#"]
            ++ map gplLine (sortBy byIndex l))
      with (lit "GIMP Palette"
            :: [lit "Name: Palette"; lit "#"] ++ map gplLine (sortBy byIndex l)).
    rewrite gplLines_join.
    - cbn [app parseGplLoop].
      change (gplItem 0 (lit "GIMP Palette")) with (@None FileItem).
      change (gplItem 0 (lit "Name: Palette")) with (@None FileItem).
      change (gplItem 0 (lit "#")) with (@None FileItem).
      cbv iota. apply parseGplLoop_gplLines; [lia|].
      rewrite sortBy_length. cbn [Z.add].
      eapply Z.le_trans; [exact Hn|]. intros K; discriminate K.
    - repeat constructor. apply Forall_map, Forall_forall.
      intros it _. apply (proj2 (gplItem_gplLine 0 it ltac:(lia))). }
  split; [exact Hp|]. split; [apply sortBy_perm|].
  split; [apply sortBy_byIndex_ascending, Hnan|].
  rewrite Hp, reread_length. apply sortBy_length.
Qed.

End Platform.

(** ** Examples on the example engine *)

(** C8 on a store of two items, one of them at the index typed in. *)
Lemma addOrUpdate_existing_example :
  (exists x, In x (items twoItems) /\ sameIndex (inputIndex twoItems) x = true)
  /\ length (items (after (addOrUpdate exampleEngine) twoItems)) = 2%nat
  /\ items (after (addOrUpdate exampleEngine) twoItems) = [green; crimson].
Proof.
  assert (Hex : exists x, In x (items twoItems)
                          /\ sameIndex (inputIndex twoItems) x = true).
  { exists red. split; [right; left; reflexivity|reflexivity]. }
  split; [exact Hex|].
  split.
  - exact (proj1 (proj1 (addOrUpdate_existing exampleEngine twoItems) Hex)).
  - reflexivity.
Defined.

(** C10 on a store where two items share index 3. *)
Lemma addOrUpdate_first_match_example :
  items (after (addOrUpdate exampleEngine) threeItems) = [green; crimson; darkRed].
Proof.
  exact (proj1 (addOrUpdate_first_match exampleEngine threeItems [green] [] []
                  red darkRed eq_refl
                  ltac:(intros z [<-|[]]; reflexivity) eq_refl eq_refl)).
Defined.

(** C1 on the two items [red] (index 3) and [green] (index 5). *)
Lemma json_round_trip_example :
  ([red; green] <> []
   /\ Forall (fun x => canonicalHex (hex x)) [red; green]
   /\ ascending [red; green])
  /\ map triple (items (after (loadJson exampleEngine (savePayload [red; green]))
                          emptyPage))
     = [triple red; triple green].
Proof.
  assert (Hne : [red; green] <> []) by discriminate.
  assert (Hh : Forall (fun x => canonicalHex (hex x)) [red; green])
    by (repeat constructor).
  assert (Hi : Forall (fun x => exists z, 0 <= z <= 999999 /\ index x = num z)
                      [red; green]).
  { repeat constructor; [exists 3|exists 5]; split; (lia || reflexivity). }
  assert (Hs : ascending [red; green]) by (repeat constructor).
  split; [auto|].
  exact (proj2 (json_round_trip exampleEngine [red; green] emptyPage Hne Hh Hi Hs)).
Defined.

(** C6 on a file whose document is not a palette: the store keeps its two
    items. *)
Lemma load_failure_example :
  outcome (loadBody exampleEngine notPaletteFile) twoItems = inl FormatError
  /\ items (after (fileInput_change exampleEngine (Some notPaletteFile)) twoItems)
     = [green; red].
Proof.
  assert (Ho : outcome (loadBody exampleEngine notPaletteFile) twoItems
               = inl FormatError) by reflexivity.
  split; [exact Ho|].
  exact (proj1 (load_failure_keeps_items exampleEngine notPaletteFile twoItems
                  FormatError Ho)).
Defined.

(** C7, as stated, fails on an element whose name and index are the boolean
    true: neither is text or a number, and the item gets the name [true] and
    the index 1 instead of the empty name and the index 0. *)
Lemma decodeItem_boolean_fields :
  outcome (decodeItem exampleEngine booleanElement) emptyPage
  = inr {| id := lit "id0"; name := lit "true"; index := num 1;
           hex := lit "#000000" |}.
Proof. reflexivity. Qed.

(** C7 (amended) on an element with a name, a color and no index. *)
Lemma decodeItem_coercions_example :
  outcome (decodeItem exampleEngine redElement) emptyPage
  = inr {| id := lit "id0"; name := lit "Red"; index := num 0;
           hex := lit "#FF0000" |}
  /\ name {| id := lit "id0"; name := lit "Red"; index := num 0;
             hex := lit "#FF0000" |} = lit "Red".
Proof.
  assert (Ho : outcome (decodeItem exampleEngine redElement) emptyPage
               = inr {| id := lit "id0"; name := lit "Red"; index := num 0;
                        hex := lit "#FF0000" |}) by reflexivity.
  split; [exact Ho|].
  exact (proj1 (decodeItem_coercions exampleEngine redElement emptyPage _ Ho)
               (lit "Red") eq_refl).
Defined.

(** C4 on a text of three lines, the second of which is no entry. *)
Lemma parseGpl_skips_malformed_example :
  (gplLines threeLines
   = [lit "255   0   0" ++ [TAB] ++ lit "Red"] ++ lit "not a color"
     :: [lit "0 0 255 Blue"]
   /\ matchGplLine (trim (lit "not a color")) = None)
  /\ parseGpl exampleEngine threeLines
     = [ {| fname := lit "Red"; findex := num 0; fhex := lit "#FF0000" |};
         {| fname := lit "Blue"; findex := num 1; fhex := lit "#0000FF" |} ].
Proof.
  assert (Hl : gplLines threeLines
               = [lit "255   0   0" ++ [TAB] ++ lit "Red"] ++ lit "not a color"
                 :: [lit "0 0 255 Blue"]) by reflexivity.
  assert (Hb : matchGplLine (trim (lit "not a color")) = None) by reflexivity.
  split; [split; assumption|].
  exact (proj1 (proj2 (proj2 (parseGpl_skips_malformed exampleEngine threeLines
                                _ _ _ Hl Hb))
                      _ _ _ _ eq_refl eq_refl eq_refl eq_refl)).
Defined.

(** C2 on the text of three lines: the second item is the one of the third
    line, with the name and the color of that line and the index 1; one hop
    gives a text that differs from the input, and that text is reproduced by
    the next hop. *)
Lemma gpl_round_trip_example :
  nth_error (parseGpl exampleEngine threeLines) 1
  = Some {| fname := lit "Blue"; findex := num 1; fhex := lit "#0000FF" |}
  /\ toGpl exampleEngine (items (after (loadGpl exampleEngine threeLines) emptyPage))
     = threeLinesWritten
  /\ toGpl exampleEngine
       (items (after (loadGpl exampleEngine threeLinesWritten) emptyPage))
     = threeLinesWritten.
Proof.
  pose proof (gpl_round_trip exampleEngine threeLines) as [_ [Hkeep [_ Hfix]]].
  split.
  - destruct (Hkeep 1%nat (lit "0 0 255 Blue") eq_refl)
      as [m1 [m2 [m3 [m4 [nm [Hm [_ [Hn [Hk _]]]]]]]]].
    vm_compute in Hm. injection Hm as <- <- <- <-.
    rewrite (Hk ltac:(discriminate)) in Hn. exact Hn.
  - assert (H1 : toGpl exampleEngine
                   (items (after (loadGpl exampleEngine threeLines) emptyPage))
                 = threeLinesWritten) by (vm_compute; reflexivity).
    split; [exact H1|].
    pose proof (Hfix emptyPage emptyPage) as H.
    cbv zeta in H. rewrite H1 in H. exact H.
Defined.

(** X1 on the channel range: 300 is capped at 255 and -4 is raised to 0. *)
Lemma clamp_within_example :
  numLe (num 0) (num 255) = true
  /\ clamp (num 300) (num 0) (num 255) = num 255
  /\ clamp (num (-4)) (num 0) (num 255) = num 0.
Proof.
  assert (H : numLe (num 0) (num 255) = true) by reflexivity.
  split; [exact H|]. split.
  - exact (proj2 (proj2 (proj2 (proj2 (clamp_within (num 300) (num 0) (num 255) H))))
                 eq_refl eq_refl).
  - exact (proj1 (proj2 (proj2 (proj2 (clamp_within (num (-4)) (num 0) (num 255) H))))
                 eq_refl eq_refl).
Defined.

(** X6 on the third line of a file: channels beyond 255 are capped, and a
    channel written with a leading zero is read in base ten. *)
Lemma gplItem_caps_channels_example :
  gplItem exampleEngine 2 (lit "300 12 0999 Sky blue")
  = Some {| fname := lit "Sky blue"; findex := num 2; fhex := lit "#FF0CFF" |}
  /\ gplItem exampleEngine 2 (lit "300 12 0999")
     = Some {| fname := lit "Color 2"; findex := num 2; fhex := lit "#FF0CFF" |}.
Proof.
  assert (Hi : 0 <= 2 < 10 ^ 21) by lia.
  assert (R1 : digitRun (lit "300")) by (split; [discriminate|reflexivity]).
  assert (R2 : digitRun (lit "12")) by (split; [discriminate|reflexivity]).
  assert (R3 : digitRun (lit "0999")) by (split; [discriminate|reflexivity]).
  assert (Hc : clean (lit "Sky blue") = true) by reflexivity.
  exact (gplItem_caps_channels exampleEngine 2 (lit "300") (lit "12") (lit "0999")
           (lit "Sky blue") Hi R1 R2 R3 Hc).
Defined.

(** X7 on a file with channels beyond 255, named in capital letters. *)
Lemma load_gpl_file_example :
  endsWith (toLowerCase (fileName bigChannels)) (lit ".gpl") = true
  /\ outcome (fileInput_change exampleEngine (Some bigChannels)) emptyPage = inr tt
  /\ map triple
       (items (after (fileInput_change exampleEngine (Some bigChannels)) emptyPage))
     = [ {| fname := lit "Sky blue"; findex := num 0; fhex := lit "#FF0CFF" |};
         {| fname := lit "Color 1"; findex := num 1; fhex := lit "#070707" |} ].
Proof.
  assert (H : endsWith (toLowerCase (fileName bigChannels)) (lit ".gpl") = true)
    by reflexivity.
  split; [exact H|].
  pose proof (load_gpl_file exampleEngine bigChannels emptyPage H) as K.
  cbv zeta in K. split; [exact (proj1 K)|exact (proj1 (proj2 K))].
Defined.

(** X8 on a store in no order, with a blank name, a color that is no color
    and one in small letters. *)
Lemma toGpl_parsed_example :
  (Forall (fun it => isNaN (index it) = false) mixedStore
   /\ Z.of_nat (length mixedStore) <= 2 ^ 53)
  /\ parseGpl exampleEngine (toGpl exampleEngine mixedStore)
     = [ {| fname := lit "Color 0"; findex := num 0; fhex := lit "#000000" |};
         {| fname := lit "Sand"; findex := num 1; fhex := lit "#E0C080" |};
         {| fname := lit "Deep sea"; findex := num 2; fhex := lit "#0A3B5C" |} ].
Proof.
  assert (Hn : Forall (fun it => isNaN (index it) = false) mixedStore)
    by (repeat constructor).
  assert (H : Z.of_nat (length mixedStore) <= 2 ^ 53) by (vm_compute; discriminate).
  split; [split; assumption|].
  exact (proj1 (toGpl_parsed exampleEngine mixedStore Hn H)).
Defined.

(** X9 on the store in no order. *)
Lemma sortBy_byIndex_sorts_example :
  Forall (fun it => isNaN (index it) = false) mixedStore
  /\ Permutation (sortBy byIndex mixedStore) mixedStore
  /\ ascending (sortBy byIndex mixedStore).
Proof.
  assert (H : Forall (fun it => isNaN (index it) = false) mixedStore)
    by (repeat constructor).
  split; [exact H|].
  pose proof (sortBy_byIndex_sorts mixedStore H) as K.
  split; [exact (proj1 K)|exact (proj1 (proj2 K))].
Defined.

(** X10 on a store that is not in order and holds two items of index 3. *)
Lemma json_save_load_sorts_example :
  (Forall (fun x => canonicalHex (hex x)) [green; red; darkRed]
   /\ Forall (fun x => exists z, 0 <= z <= 999999 /\ index x = num z)
             [green; red; darkRed])
  /\ map triple
       (items (after (loadJson exampleEngine (savePayload [green; red; darkRed]))
                     emptyPage))
     = map triple [red; darkRed; green].
Proof.
  assert (Hh : Forall (fun x => canonicalHex (hex x)) [green; red; darkRed])
    by (repeat constructor).
  assert (Hi : Forall (fun x => exists z, 0 <= z <= 999999 /\ index x = num z)
                      [green; red; darkRed]).
  { constructor; [exists 5; split; [lia|reflexivity]|].
    constructor; [exists 3; split; [lia|reflexivity]|].
    constructor; [exists 3; split; [lia|reflexivity]|constructor]. }
  split; [split; assumption|].
  exact (proj1 (proj2 (json_save_load_sorts exampleEngine [green; red; darkRed]
                         emptyPage Hh Hi))).
Defined.

(** X11 on a store of two items and the index 9, which none of them has. *)
Lemma addOrUpdate_next_index_example :
  Z.of_nat (length (items (page [green; red] (lit " Teal ") (lit "9") (lit "#008080"))))
  < 999999
  /\ items (after (addOrUpdate exampleEngine)
                  (page [green; red] (lit " Teal ") (lit "9") (lit "#008080")))
     = [green; red;
        {| id := lit "id0"; name := lit "Teal"; index := num 9;
           hex := lit "#008080" |}]
  /\ inputIndex (after (addOrUpdate exampleEngine)
                       (page [green; red] (lit " Teal ") (lit "9") (lit "#008080")))
     = num 3.
Proof.
  set (w := page [green; red] (lit " Teal ") (lit "9") (lit "#008080")).
  assert (H : Z.of_nat (length (items w)) < 999999) by (vm_compute; reflexivity).
  split; [exact H|].
  pose proof (addOrUpdate_next_index exampleEngine w H) as K. cbv zeta in K.
  destruct K as [_ [_ [K3 [_ [_ K6]]]]].
  split; [|exact K3].
  refine (proj1 (K6 _)).
  intros x [<-|[<-|[]]]; reflexivity.
Defined.

(** X12 on three clicks. *)
Lemma addOrUpdate_repeated_example :
  (items (page [] (lit "Gray") (lit "0") (lit "#808080")) = []
   /\ inputIndex (page [] (lit "Gray") (lit "0") (lit "#808080")) = num 0
   /\ Z.of_nat 3 <= 999999)
  /\ map triple
       (items (Nat.iter 3 (after (addOrUpdate exampleEngine))
                        (page [] (lit "Gray") (lit "0") (lit "#808080"))))
     = [ {| fname := lit "Gray"; findex := num 0; fhex := lit "#808080" |};
         {| fname := lit "Gray"; findex := num 1; fhex := lit "#808080" |};
         {| fname := lit "Gray"; findex := num 2; fhex := lit "#808080" |} ].
Proof.
  set (w := page [] (lit "Gray") (lit "0") (lit "#808080")).
  assert (H1 : items w = []) by reflexivity.
  assert (H2 : inputIndex w = num 0) by reflexivity.
  assert (H3 : Z.of_nat 3 <= 999999) by (vm_compute; discriminate).
  split; [repeat split; assumption|].
  exact (proj1 (addOrUpdate_repeated exampleEngine w 3 H1 H2 H3)).
Defined.

(** X13 on a session that starts on the empty page: a color that is no
    color is typed and added, a file is loaded, a file that fails to load is
    chosen, and a swatch is removed. *)
Lemma session_store_ok_example :
  storeOk (items emptyPage)
  /\ storeOk (items (session exampleEngine
                       [Typed (lit "Sky") (lit "-4") (lit "sky blue"); AddClick;
                        FileChosen (Some bigChannels);
                        FileChosen (Some notPaletteFile);
                        RemoveClick red; AddClick]
                       emptyPage)).
Proof.
  assert (H : storeOk (items emptyPage)) by constructor.
  split; [exact H|].
  exact (proj1 (session_store_ok exampleEngine _ emptyPage H)).
Defined.

(** X14 on the swatch in the middle of a store of three. *)
Lemma del_click_removes_example :
  items threeItems = [green] ++ red :: [darkRed]
  /\ items (after (del_click red) threeItems) = [green] ++ [darkRed].
Proof.
  assert (H : items threeItems = [green] ++ red :: [darkRed]) by reflexivity.
  split; [exact H|].
  refine (proj1 (proj2 (proj2 (del_click_removes threeItems red [green] [darkRed] H))) _).
  repeat constructor; cbn; intuition discriminate.
Defined.

(** X16 on seven items in rows of three, with swatches of 96 by 64 and gaps
    of 2: the last cell is alone in the third row. *)
Lemma renderPng_cells_fit_example :
  (1 <= 3 /\ 0 < 96 /\ 0 < 64 /\ 0 <= 2 /\ 0 <= 2)
  /\ length (cells (renderPng sevenReds 3 96 64 2 2)) = length sevenReds
  /\ Forall (cellInside 292 196) (cells (renderPng sevenReds 3 96 64 2 2)).
Proof.
  assert (H1 : 1 <= 3) by lia. assert (H2 : 0 < 96) by lia.
  assert (H3 : 0 < 64) by lia. assert (H4 : 0 <= 2) by lia.
  split; [repeat split; assumption|].
  pose proof (renderPng_cells_fit sevenReds 3 96 64 2 2 H1 H2 H3 H4 H4) as K.
  cbv zeta in K. split; [exact (proj1 K)|exact (proj1 (proj2 K))].
Defined.

(** X18 on the input of the swatch width, whose default is 96 and whose range
    is 8 to 1024: 0 gives 96, and 5 gives 8. *)
Lemma readInput_range_example :
  8 <= 1024
  /\ readInput (lit "0") (lit "96") 96 8 1024 = num 96
  /\ readInput (lit "5") (lit "96") 96 8 1024 = num 8.
Proof.
  assert (H : 8 <= 1024) by lia.
  split; [exact H|]. split.
  - exact (proj1 (proj2 (readInput_range (lit "0") (lit "96") 96 8 1024 H))
                 (or_intror eq_refl)).
  - refine (proj1 (proj2 (proj2 (readInput_range (lit "5") (lit "96") 96 8 1024 H)))
                  5 eq_refl _).
    discriminate.
Defined.

(** X19 on a document whose second element has a boolean index and whose
    third element is a number. *)
Lemma loadJson_plain_example :
  (isPaletteV1 looseDoc
   = Some [JObj [(lit "name", JStr (lit "Red")); (lit "index", JNum (num 3));
                 (lit "hex", JStr (lit "#ff0000"))];
           JObj [(lit "index", JBool true)];
           JNum (num 7)]
   /\ Forall plainElement
        [JObj [(lit "name", JStr (lit "Red")); (lit "index", JNum (num 3));
               (lit "hex", JStr (lit "#ff0000"))];
         JObj [(lit "index", JBool true)];
         JNum (num 7)])
  /\ outcome (loadJson exampleEngine looseDoc) emptyPage = inr tt
  /\ length (items (after (loadJson exampleEngine looseDoc) emptyPage)) = 3%nat.
Proof.
  assert (Hs : isPaletteV1 looseDoc
               = Some [JObj [(lit "name", JStr (lit "Red")); (lit "index", JNum (num 3));
                             (lit "hex", JStr (lit "#ff0000"))];
                       JObj [(lit "index", JBool true)];
                       JNum (num 7)]) by reflexivity.
  assert (Hl : Forall plainElement
                 [JObj [(lit "name", JStr (lit "Red")); (lit "index", JNum (num 3));
                        (lit "hex", JStr (lit "#ff0000"))];
                  JObj [(lit "index", JBool true)];
                  JNum (num 7)]).
  { repeat (constructor; [split; [discriminate|cbn; auto]|]). constructor. }
  split; [split; assumption|].
  pose proof (loadJson_plain exampleEngine looseDoc _ emptyPage Hs Hl) as K.
  cbv zeta in K. split; [exact (proj1 K)|exact (proj1 (proj2 K))].
Defined.

(** X21 on the second swatch of a store of three: the store is left as it
    was. *)
Lemma sw_click_then_add_example :
  (items threeItems = [green] ++ red :: [darkRed]
   /\ index red = num 3 /\ 0 <= 3 <= 999999 /\ canonicalHex (hex red))
  /\ items (after (addOrUpdate exampleEngine)
                  (after (sw_click exampleEngine red) threeItems))
     = items threeItems.
Proof.
  assert (Hl : items threeItems = [green] ++ red :: [darkRed]) by reflexivity.
  assert (Hi : index red = num 3) by reflexivity.
  assert (Hz : 0 <= 3 <= 999999) by lia.
  assert (Hc : canonicalHex (hex red)) by (split; reflexivity).
  assert (Hf : forall x, In x [green] -> sameIndex (index red) x = false)
    by (intros x [<-|[]]; reflexivity).
  split; [repeat split; assumption || lia|].
  pose proof (sw_click_then_add exampleEngine threeItems red [green] [darkRed] 3
                Hl Hf Hi Hz Hc) as K.
  cbv zeta in K. exact (proj2 (proj2 (proj2 (proj2 (proj2 K)))) eq_refl).
Defined.

